(** * pyrsistent-extras: persistent sequences and sorted maps

    A shallow embedding of the C++ core of the library
    ([_utility.hpp], [_psortedmap.hpp], [_psequence.hpp] and the [insert]
    binding of [_psequence.cpp]) together with the properties its
    specification states about it.

    Conventions of the embedding.
    - [size_t] values are integers in [Z]; every [size_t] operation that can
      leave the range [0, 2^64) is wrapped by [usize].
    - [ssize_t] / [Py_ssize_t] values are integers in [Z]; signed overflow is
      undefined behaviour in C++ and is reported as [Undefined].
    - A C++ function that can throw returns a [result]: [Ok v], [Throw e], or
      [Undefined] for behaviour the language leaves undefined (dereferencing a
      null [shared_ptr], signed overflow).
    - [assert(...)] is compiled away in release builds and is not part of the
      functions; what the assertions say is part of the well-formedness
      predicates, which are proved to be preserved. *)

From Stdlib Require Import ZArith List Lia Bool.

#[global] Set Warnings "-register-all".
Import ListNotations.

Local Open Scope Z_scope.

(** ** The C++ machine model *)

Module Cxx.

Inductive exception : Type :=
| out_of_range
| logic_error
| bad_variant_access.

Inductive result (A : Type) : Type :=
| Ok (a : A)
| Throw (e : exception)
| Undefined.

Arguments Ok {A} a.
Arguments Throw {A} e.
Arguments Undefined {A}.

Definition bind {A B : Type} (c : result A) (k : A -> result B) : result B :=
  match c with
  | Ok a => k a
  | Throw e => Throw e
  | Undefined => Undefined
  end.

Definition size_modulus : Z := 18446744073709551616.
Definition ssize_max : Z := 9223372036854775807.
Definition ssize_min : Z := -9223372036854775808.

(** Arithmetic on [size_t] is modulo [2^64]. *)
Definition usize (x : Z) : Z := x mod size_modulus.

Definition in_ssize (x : Z) : bool := (ssize_min <=? x) && (x <=? ssize_max).

(** Arithmetic on [ssize_t]: a result outside the range is undefined. *)
Definition ssize (x : Z) : result Z :=
  if in_ssize x then Ok x else Undefined.

(** The value of an arithmetic expression at type [T], where [sign] is
    [std::is_signed<T>::value]. *)
Definition arith (sign : bool) (x : Z) : result Z :=
  if sign then ssize x else Ok (usize x).

End Cxx.

Export Cxx.

Declare Scope cxx_scope.
Delimit Scope cxx_scope with cxx.
Notation "x <- c ;; k" := (bind c (fun x => k))
  (at level 61, c at next level, right associativity) : cxx_scope.
Notation "' pat <- c ;; k" := (bind c (fun x => match x with pat => k end))
  (at level 61, pat pattern, c at next level, right associativity) : cxx_scope.
Local Open Scope cxx_scope.

(** ** [_utility.hpp] *)

Module Utility.

(** [hash_combine(seed, value)], with [h] the value of
    [std::hash<Container>{}(value)]. *)
Definition hash_combine (seed h : Z) : Z :=
  usize (usize (usize (h + 2654435769) + usize (Z.shiftl seed 6))
         + Z.shiftr seed 2).

(** [adjust_index(length, index)]: a single index. *)
Definition adjust_index1 (sign : bool) (length index : Z) : result Z :=
  if sign && (index <? 0) then
    index <- arith sign (index + length) ;;
    if index <? 0 then Throw out_of_range else Ok index
  else if index >=? length then Throw out_of_range
  else Ok index.

(** One of the two identical blocks of [adjust_index(length, start, stop,
    step)] that adjust [start] and [stop]. *)
Definition adjust_bound (sign : bool) (length step i : Z) : result Z :=
  if sign && (i <? 0) then
    i <- arith sign (i + length) ;;
    if sign && (i <? 0) then
      (if sign && (step <? 0) then arith sign (-1) else Ok 0)
    else Ok i
  else if i >=? length then
    (if sign && (step <? 0) then arith sign (length - 1) else Ok length)
  else Ok i.

(** [adjust_index(length, start, stop, step)]; the references [start],
    [stop] and [step] are returned next to the count, in this order:
    [(count, start, stop, step)]. *)
Definition adjust_index (sign : bool) (length start stop step : Z)
  : result (Z * Z * Z * Z) :=
  if step =? 0 then Throw out_of_range else
  start <- adjust_bound sign length step start ;;
  stop <- adjust_bound sign length step stop ;;
  count <-
    (if sign && (step <? 0) then
       if stop <? start then
         a <- arith sign (start - stop) ;;
         a <- arith sign (a - 1) ;;
         b <- arith sign (- step) ;;
         c <- arith sign (a / b) ;;
         arith sign (c + 1)
       else Ok 0
     else if start <? stop then
       a <- arith sign (stop - start) ;;
       a <- arith sign (a - 1) ;;
       c <- arith sign (a / step) ;;
       arith sign (c + 1)
     else Ok 0) ;;
  if sign && (step <? 0) then
    a <- arith sign (count - 1) ;;
    a <- arith sign (a * step) ;;
    tstart <- arith sign (start + a) ;;
    stop <- arith sign (start + 1) ;;
    step <- arith sign (- step) ;;
    Ok (count, tstart, stop, step)
  else Ok (count, start, stop, step).

(** *** The slice adjustment as the specification words it *)

(** Negative indices wrap; out-of-range indices clamp to [[0, n]] for a
    positive step and to [[-1, n-1]] for a negative one. *)
Definition spec_clamp (n step i : Z) : Z :=
  let i := if i <? 0 then i + n else i in
  if step <? 0 then Z.max (-1) (Z.min (n - 1) i) else Z.max 0 (Z.min n i).

Definition ceil_div (a b : Z) : Z := (a + b - 1) / b.

(** [count = ceil(|stop - start| / |step|)] when the direction of
    [stop - start] matches the sign of [step], else 0. *)
Definition spec_count (start stop step : Z) : Z :=
  if (0 <? step) && (start <? stop) then ceil_div (Z.abs (stop - start)) (Z.abs step)
  else if (step <? 0) && (stop <? start) then ceil_div (Z.abs (stop - start)) (Z.abs step)
  else 0.

(** The indices visited from [start] in [count] steps of [step]. *)
Definition visited (start step : Z) (count : nat) : list Z :=
  map (fun k => start + Z.of_nat k * step) (seq 0 count).

End Utility.

(** ** [_psortedmap.hpp] *)

Module SortedMap.

Section Node.

Context {Key Value : Type}.
(** [operator <] on keys. *)
Variable less : Key -> Key -> bool.

Definition delta : Z := 4.
Definition gamma : Z := 2.

(** A [NodePtr] is null or points to a [Node] with the fields
    [key], [value], [size], [left], [right]. *)
Inductive NodePtr : Type :=
| nullptr
| node (key : Key) (value : Value) (size : Z) (left right : NodePtr).

(** Member access through a pointer; a null pointer has no members. *)
Definition key_of (p : NodePtr) : result Key :=
  match p with nullptr => Undefined | node k _ _ _ _ => Ok k end.
Definition value_of (p : NodePtr) : result Value :=
  match p with nullptr => Undefined | node _ v _ _ _ => Ok v end.
Definition size_of (p : NodePtr) : result Z :=
  match p with nullptr => Undefined | node _ _ s _ _ => Ok s end.
Definition left_of (p : NodePtr) : result NodePtr :=
  match p with nullptr => Undefined | node _ _ _ l _ => Ok l end.
Definition right_of (p : NodePtr) : result NodePtr :=
  match p with nullptr => Undefined | node _ _ _ _ r => Ok r end.

(** [Node::sizes(node)]. *)
Definition sizes (p : NodePtr) : Z :=
  match p with nullptr => 0 | node _ _ s _ _ => s end.

(** [Node(key, value, size, left, right)]. The source writes this
    constructor as delegating to its own signature; it is taken as the
    member-wise initialisation the other constructors rely on. *)
Definition make_sized (key : Key) (value : Value) (size : Z)
  (left right : NodePtr) : NodePtr :=
  node key value size left right.

(** [Node(key, value)]. *)
Definition make_leaf (key : Key) (value : Value) : NodePtr :=
  make_sized key value 1 nullptr nullptr.

(** [Node(key, value, left, right)]: the size is
    [Node::sizes(left) + Node::sizes(right)]. *)
Definition make (key : Key) (value : Value) (left right : NodePtr) : NodePtr :=
  make_sized key value (usize (sizes left + sizes right)) left right.

(** [notnone] is used by [insert] and defined nowhere in the sources; it is
    taken as the check its name announces, which passes a non-null pointer
    through. *)
Definition notnone (p : NodePtr) : result NodePtr :=
  match p with nullptr => Throw logic_error | _ => Ok p end.

(** [Node::balance(key, value, left, right)]. *)
Definition balance (key : Key) (value : Value) (left right : NodePtr)
  : result NodePtr :=
  let sl := sizes left in
  let sr := sizes right in
  let sx := usize (usize (sl + sr) + 1) in
  if sx <=? 2 then Ok (make_sized key value sx left right) else
  if sr >=? usize (delta * sl) then
    rl <- left_of right ;;
    rr <- right_of right ;;
    if sizes rl <? usize (gamma * sizes rr) then
      rk <- key_of right ;;
      rv <- value_of right ;;
      Ok (make_sized rk rv sx (make key value left rl) rr)
    else
      rlk <- key_of rl ;;
      rlv <- value_of rl ;;
      rll <- left_of rl ;;
      rk <- key_of right ;;
      rv <- value_of right ;;
      rlr <- right_of rl ;;
      Ok (make_sized rlk rlv sx (make key value left rll) (make rk rv rlr rr))
  else
  if sl >=? usize (delta * sr) then
    lr <- right_of left ;;
    ll <- left_of left ;;
    if sizes lr <? usize (gamma * sizes ll) then
      lk <- key_of left ;;
      lv <- value_of left ;;
      Ok (make_sized lk lv sx ll (make key value lr right))
    else
      lrk <- key_of lr ;;
      lrv <- value_of lr ;;
      lk <- key_of left ;;
      lv <- value_of left ;;
      lrl <- left_of lr ;;
      lrr <- right_of lr ;;
      Ok (make_sized lrk lrv sx (make lk lv ll lrl) (make key value lrr right))
  else Ok (make key value left right).

(** [Node::insert(node, key, value)]. *)
Fixpoint insert (p : NodePtr) (key : Key) (value : Value) : result NodePtr :=
  match p with
  | nullptr => Ok (make_leaf key value)
  | node k v s l r =>
    if less key k then
      l' <- insert l key value ;;
      b <- balance k v l' r ;;
      notnone b
    else if less k key then
      r' <- insert r key value ;;
      b <- balance k v l r' ;;
      notnone b
    else Ok (make_sized key value s l r)
  end.

(** [Node::lookup(node, key)]. *)
Fixpoint lookup (p : NodePtr) (key : Key) : option Value :=
  match p with
  | nullptr => None
  | node k v _ l r =>
    if less key k then lookup l key
    else if less k key then lookup r key
    else Some v
  end.

(** [this->viewmin()], given the members of [*this]. *)
Fixpoint viewmin_node (k : Key) (v : Value) (s : Z) (l r : NodePtr)
  : Key * Value * NodePtr :=
  match l with
  | nullptr => (k, v, r)
  | node lk lv ls ll lr =>
    let '(key, value, rec) := viewmin_node lk lv ls ll lr in
    (key, value, make_sized k v (usize (s - 1)) rec r)
  end.

Definition viewmin (p : NodePtr) : result (Key * Value * NodePtr) :=
  match p with
  | nullptr => Undefined
  | node k v s l r => Ok (viewmin_node k v s l r)
  end.

(** [this->viewmax()], given the members of [*this]. *)
Fixpoint viewmax_node (k : Key) (v : Value) (s : Z) (l r : NodePtr)
  : Key * Value * NodePtr :=
  match r with
  | nullptr => (k, v, l)
  | node rk rv rs rl rr =>
    let '(key, value, rec) := viewmax_node rk rv rs rl rr in
    (key, value, make_sized k v (usize (s - 1)) l rec)
  end.

Definition viewmax (p : NodePtr) : result (Key * Value * NodePtr) :=
  match p with
  | nullptr => Undefined
  | node k v s l r => Ok (viewmax_node k v s l r)
  end.

(** [Node::glue(left, right)]. *)
Definition glue (left right : NodePtr) : result NodePtr :=
  match left, right with
  | nullptr, _ => Ok right
  | _, nullptr => Ok left
  | node _ _ ls _ _, node _ _ rs _ _ =>
    if ls >? rs then
      '(key, value, tree) <- viewmax left ;;
      balance key value tree right
    else
      '(key, value, tree) <- viewmin right ;;
      balance key value left tree
  end.

(** [Node::pop(node, key)]. *)
Fixpoint pop (p : NodePtr) (key : Key) : result (option Value * NodePtr) :=
  match p with
  | nullptr => Ok (None, nullptr)
  | node k v s l r =>
    if less key k then
      '(value, rec) <- pop l key ;;
      b <- balance k v rec r ;;
      Ok (value, b)
    else if less k key then
      '(value, rec) <- pop r key ;;
      b <- balance k v l rec ;;
      Ok (value, b)
    else
      g <- glue l r ;;
      Ok (Some v, g)
  end.

(** *** Invariants of the specification *)

(** [size == 1 + size(left) + size(right)] at every node. *)
Fixpoint size_consistent (p : NodePtr) : bool :=
  match p with
  | nullptr => true
  | node _ _ s l r =>
    (s =? 1 + sizes l + sizes r) && size_consistent l && size_consistent r
  end.

(** [size(left) <= delta * (size(right) + 1)] and vice versa at every node. *)
Fixpoint balanced (p : NodePtr) : bool :=
  match p with
  | nullptr => true
  | node _ _ _ l r =>
    (sizes l <=? delta * (sizes r + 1)) && (sizes r <=? delta * (sizes l + 1))
    && balanced l && balanced r
  end.

(** The number of nodes, the keys in order, and the shape of a tree. *)
Fixpoint count (p : NodePtr) : Z :=
  match p with
  | nullptr => 0
  | node _ _ _ l r => 1 + count l + count r
  end.

Fixpoint keys (p : NodePtr) : list Key :=
  match p with
  | nullptr => []
  | node k _ _ l r => keys l ++ k :: keys r
  end.

Inductive shape : Type := shape_null | shape_node (l r : shape).

Fixpoint shape_of (p : NodePtr) : shape :=
  match p with
  | nullptr => shape_null
  | node _ _ _ l r => shape_node (shape_of l) (shape_of r)
  end.

Definition contains (p : NodePtr) (key : Key) : bool :=
  match lookup p key with Some _ => true | None => false end.

(** A tree built by node-level inserts, starting from the empty tree. *)
Fixpoint insert_all (p : NodePtr) (kvs : list (Key * Value)) : result NodePtr :=
  match kvs with
  | [] => Ok p
  | (k, v) :: kvs => p' <- insert p k v ;; insert_all p' kvs
  end.

(** *** The entries of a tree and the search tree order *)

(** The entries of a tree, from the leftmost to the rightmost node. *)
Fixpoint bindings (p : NodePtr) : list (Key * Value) :=
  match p with
  | nullptr => []
  | node k v _ l r => bindings l ++ (k, v) :: bindings r
  end.

(** A search tree: at every node the keys on the left are below the key of
    the node and the keys on the right are above it. *)
Fixpoint ordered (p : NodePtr) : Prop :=
  match p with
  | nullptr => True
  | node k _ _ l r =>
    ordered l /\ ordered r
    /\ Forall (fun e => less (fst e) k = true) (bindings l)
    /\ Forall (fun e => less k (fst e) = true) (bindings r)
  end.

(** Entries in strictly increasing order of their keys. *)
Fixpoint increasing (l : list (Key * Value)) : Prop :=
  match l with
  | [] => True
  | e :: l' => Forall (fun e' => less (fst e) (fst e') = true) l' /\ increasing l'
  end.

(** Reference operations on a list of entries in increasing order: the
    value at a key, the list with an entry put at its key, and the list
    without a key. *)
Fixpoint list_lookup (key : Key) (l : list (Key * Value)) : option Value :=
  match l with
  | [] => None
  | (k, v) :: l' =>
    if less key k then None
    else if less k key then list_lookup key l'
    else Some v
  end.

Fixpoint list_put (key : Key) (value : Value) (l : list (Key * Value))
  : list (Key * Value) :=
  match l with
  | [] => [(key, value)]
  | (k, v) :: l' =>
    if less key k then (key, value) :: l
    else if less k key then (k, v) :: list_put key value l'
    else (key, value) :: l'
  end.

Fixpoint list_remove (key : Key) (l : list (Key * Value)) : list (Key * Value) :=
  match l with
  | [] => []
  | (k, v) :: l' =>
    if less key k then l
    else if less k key then (k, v) :: list_remove key l'
    else l'
  end.

End Node.

(** The map with the keys 1, 2, 3 and the map with the keys 1 to 7, built by
    node-level inserts into the empty tree; every value is ten times its
    key. *)
Definition entries (ks : list Z) : list (Z * Z) := map (fun k => (k, 10 * k)) ks.

Definition map_123 : result (@NodePtr Z Z) :=
  insert_all Z.ltb nullptr (entries [1; 2; 3]).

Definition map_1_to_7 : result (@NodePtr Z Z) :=
  insert_all Z.ltb nullptr (entries [1; 2; 3; 4; 5; 6; 7]).

End SortedMap.

(** ** [_psequence.hpp] *)

Module Sequence.

Section Sequence.

Context {Value : Type}.

(** A [Node] is the variant [Value | Branch]; a [Branch] has a cached [size]
    and the children [items[0..2]], the last of which may be null. *)
Inductive Node : Type :=
| Leaf (value : Value)
| Branch (size : Z) (item0 item1 : Node) (item2 : option Node).

(** A [NodePtr] that may be null. *)
Definition NodePtr : Type := option Node.

(** [*p] and [p->]: dereferencing a null pointer is undefined. *)
Definition deref {A : Type} (p : option A) : result A :=
  match p with
  | Some a => Ok a
  | None => Undefined
  end.

(** Arrays of node pointers ([NodePtr nodes[k]], [const NodePtr*]) are lists;
    reading outside the array gives no object, which [deref] reports. *)

(** [a[i]]. *)
Fixpoint array_get (a : list NodePtr) (i : Z) : NodePtr :=
  match a with
  | [] => None
  | x :: a => if i =? 0 then x else array_get a (i - 1)
  end.

(** [a[i] = x]. *)
Fixpoint array_set (a : list NodePtr) (i : Z) (x : NodePtr) : list NodePtr :=
  match a with
  | [] => []
  | y :: a => if i =? 0 then x :: a else y :: array_set a (i - 1) x
  end.

(** [for(i = lo; i < hi; ++i) dst[i + off] = src[i];] *)
Definition array_copy (dst src : list NodePtr) (lo hi off : Z) : list NodePtr :=
  fst (Z.iter (hi - lo)
         (fun '(dst, i) => (array_set dst (i + off) (array_get src i), i + 1))
         (dst, lo)).

(** [&a[i]]. *)
Fixpoint array_from (a : list NodePtr) (i : Z) : list NodePtr :=
  match a with
  | [] => []
  | _ :: a' => if i <=? 0 then a else array_from a' (i - 1)
  end.

(** [check_index(index, size)]: the flag and the updated [index]. *)
Definition check_index (index size : Z) : bool * Z :=
  if index <? size then (true, index) else (false, usize (index - size)).

(** *** Node *)

Definition Node_size (n : Node) : Z :=
  match n with
  | Leaf _ => 1
  | Branch size _ _ _ => size
  end.

(** [Node(n0, n1)] and [Node(n0, n1, n2)]. *)
Definition Node_make2 (n0 n1 : Node) : Node :=
  Branch (usize (Node_size n0 + Node_size n1)) n0 n1 None.

Definition Node_make3 (n0 n1 n2 : Node) : Node :=
  Branch (usize (usize (Node_size n0 + Node_size n1) + Node_size n2)) n0 n1 (Some n2).

(** [node->value()], the [Value] alternative of the node. *)
Definition Node_value (n : Node) : result Value :=
  match n with
  | Leaf v => Ok v
  | Branch _ _ _ _ => Throw bad_variant_access
  end.

(** [Node::insert(node, index, value)]. *)
Fixpoint Node_insert (node : Node) (index : Z) (value : Value)
  : result (Node * option Node) :=
  match node with
  | Leaf _ => Ok (Leaf value, Some node)
  | Branch size i0 i1 i2 =>
    let '(c, index) := check_index index (Node_size i0) in
    if c then
      '(node', extra) <- Node_insert i0 index value ;;
      match extra, i2 with
      | None, _ => Ok (Branch (usize (size + 1)) node' i1 i2, None)
      | Some extra, None =>
        Ok (Branch (usize (size + 1)) node' extra (Some i1), None)
      | Some extra, Some i2 =>
        Ok (Branch (usize (Node_size i0 + 1)) node' extra None,
            Some (Node_make2 i1 i2))
      end
    else
    let '(c, index) := check_index index (Node_size i1) in
    if c then
      '(node', extra) <- Node_insert i1 index value ;;
      match extra, i2 with
      | None, _ => Ok (Branch (usize (size + 1)) i0 node' i2, None)
      | Some extra, None =>
        Ok (Branch (usize (size + 1)) i0 node' (Some extra), None)
      | Some extra, Some i2 =>
        Ok (Node_make2 i0 node', Some (Node_make2 extra i2))
      end
    else
      match i2 with
      | None => Undefined
      | Some i2 =>
        '(node', extra) <- Node_insert i2 index value ;;
        match extra with
        | None => Ok (Branch (usize (size + 1)) i0 i1 (Some node'), None)
        | Some extra => Ok (Node_make2 i0 i1, Some (Node_make2 node' extra))
        end
      end
  end.

(** [Node::merge_left(left, node)]. *)
Definition Node_merge_left (left : NodePtr) (node : Node)
  : result (Node * option Node) :=
  match left with
  | None => Ok (node, None)
  | Some l =>
    match node with
    | Leaf _ => Throw logic_error
    | Branch size b0 b1 None =>
      Ok (Branch (usize (Node_size l + size)) l b0 (Some b1), None)
    | Branch size b0 b1 (Some b2) =>
      Ok (Node_make2 l b0, Some (Node_make2 b1 b2))
    end
  end.

(** [Node::merge_right(node, right)]. *)
Definition Node_merge_right (node : Node) (right : NodePtr)
  : result (Node * option Node) :=
  match right with
  | None => Ok (node, None)
  | Some r =>
    match node with
    | Leaf _ => Throw logic_error
    | Branch size b0 b1 None =>
      Ok (Branch (usize (Node_size r + size)) b0 b1 (Some r), None)
    | Branch size b0 b1 (Some b2) =>
      Ok (Node_make2 b0 b1, Some (Node_make2 b2 r))
    end
  end.

(** [Node::meld_left(node, merge)]. *)
Definition Node_meld_left (node : NodePtr) (merge : Node * option Node)
  : bool * Node :=
  match snd merge, node with
  | Some extra, None => (true, Node_make2 (fst merge) extra)
  | Some extra, Some node => (true, Node_make3 node (fst merge) extra)
  | None, None => (false, fst merge)
  | None, Some node => (true, Node_make2 node (fst merge))
  end.

(** [Node::meld_right(merge, node)]. *)
Definition Node_meld_right (merge : Node * option Node) (node : NodePtr)
  : bool * Node :=
  match snd merge, node with
  | Some extra, None => (true, Node_make2 (fst merge) extra)
  | Some extra, Some node => (true, Node_make3 (fst merge) extra node)
  | None, None => (false, fst merge)
  | None, Some node => (true, Node_make2 (fst merge) node)
  end.

(** A [std::pair<bool, NodePtr>] built from a non-null node. *)
Definition some_node (p : bool * Node) : bool * NodePtr :=
  (fst p, Some (snd p)).

(** [node->erase(index)]. *)
Fixpoint Node_erase (node : Node) (index : Z) : result (bool * NodePtr) :=
  match node with
  | Leaf _ => Ok (false, None)
  | Branch size i0 i1 i2 =>
    let '(c, index) := check_index index (Node_size i0) in
    if c then
      '(full, node') <- Node_erase i0 index ;;
      if full : bool then
        node' <- deref node' ;;
        Ok (true, Some (Branch (usize (size - 1)) node' i1 i2))
      else
        merge <- Node_merge_left node' i1 ;;
        Ok (some_node (Node_meld_right merge i2))
    else
    let '(c, index) := check_index index (Node_size i1) in
    if c then
      '(full, node') <- Node_erase i1 index ;;
      if full : bool then
        node' <- deref node' ;;
        Ok (true, Some (Branch (usize (size - 1)) i0 node' i2))
      else
        merge <- Node_merge_right i0 node' ;;
        Ok (some_node (Node_meld_right merge i2))
    else
      match i2 with
      | None => Undefined
      | Some i2 =>
        '(full, node') <- Node_erase i2 index ;;
        if full : bool then
          Ok (true, Some (Branch (usize (size - 1)) i0 i1 node'))
        else
          merge <- Node_merge_right i1 node' ;;
          Ok (some_node (Node_meld_left (Some i0) merge))
      end
  end.

(** *** Digit *)

(** A [Digit] has a cached [size], an [order] and the array [items[4]]. *)
Record Digit : Type := mkDigit {
  Digit_size : Z;
  Digit_order : Z;
  Digit_items : list NodePtr
}.

(** [Digit(size, order, n0, n1, n2, n3)]. *)
Definition Digit_make (size order : Z) (n0 n1 n2 n3 : NodePtr) : Digit :=
  mkDigit size order [n0; n1; n2; n3].

(** [Digit(n0)], [Digit(n0, n1)], [Digit(n0, n1, n2)] and
    [Digit(n0, n1, n2, n3)]. *)
Definition Digit_make1 (n0 : Node) : Digit :=
  Digit_make (Node_size n0) 1 (Some n0) None None None.

Definition Digit_make2 (n0 n1 : Node) : Digit :=
  Digit_make (usize (Node_size n0 + Node_size n1)) 2 (Some n0) (Some n1) None None.

Definition Digit_make3 (n0 n1 n2 : Node) : Digit :=
  Digit_make (usize (usize (Node_size n0 + Node_size n1) + Node_size n2)) 3
    (Some n0) (Some n1) (Some n2) None.

Definition Digit_make4 (n0 n1 n2 n3 : Node) : Digit :=
  Digit_make
    (usize (usize (usize (Node_size n0 + Node_size n1) + Node_size n2) + Node_size n3)) 4
    (Some n0) (Some n1) (Some n2) (Some n3).

(** [digit->items[i]]. *)
Definition Digit_item (d : Digit) (i : Z) : NodePtr :=
  array_get (Digit_items d) i.

(** [Digit::from(node)]. *)
Definition Digit_from_node (node : Node) : result Digit :=
  match node with
  | Leaf _ => Throw logic_error
  | Branch size b0 b1 (Some b2) =>
    Ok (Digit_make size 3 (Some b0) (Some b1) (Some b2) None)
  | Branch size b0 b1 None =>
    Ok (Digit_make size 2 (Some b0) (Some b1) None None)
  end.

(** [Digit::from(order, node)]. *)
Definition Digit_from_array (order : Z) (node : list NodePtr) : result Digit :=
  match order with
  | 1 =>
    n0 <- deref (array_get node 0) ;;
    Ok (Digit_make1 n0)
  | 2 =>
    n0 <- deref (array_get node 0) ;;
    n1 <- deref (array_get node 1) ;;
    Ok (Digit_make2 n0 n1)
  | 3 =>
    n0 <- deref (array_get node 0) ;;
    n1 <- deref (array_get node 1) ;;
    n2 <- deref (array_get node 2) ;;
    Ok (Digit_make3 n0 n1 n2)
  | 4 =>
    n0 <- deref (array_get node 0) ;;
    n1 <- deref (array_get node 1) ;;
    n2 <- deref (array_get node 2) ;;
    n3 <- deref (array_get node 3) ;;
    Ok (Digit_make4 n0 n1 n2 n3)
  | _ => Throw out_of_range
  end.

(** [Digit::from(merge)]. *)
Definition Digit_from_merge (merge : Node * option Node) : Digit :=
  match merge with
  | (node, None) => Digit_make1 node
  | (node, Some extra) => Digit_make2 node extra
  end.

(** [digit->back()]. *)
Definition Digit_back (d : Digit) : NodePtr :=
  Digit_item d (Digit_order d - 1).

(** [digit->push_front(node)]. *)
Definition Digit_push_front (d : Digit) (node : Node) : Digit :=
  Digit_make (usize (Digit_size d + Node_size node)) (Digit_order d + 1)
    (Some node) (Digit_item d 0) (Digit_item d 1) (Digit_item d 2).

(** [digit->push_back(node)]. *)
Definition Digit_push_back (d : Digit) (node : Node) : result Digit :=
  let size := usize (Digit_size d + Node_size node) in
  match Digit_order d with
  | 1 => Ok (Digit_make size 2 (Digit_item d 0) (Some node) None None)
  | 2 => Ok (Digit_make size 3 (Digit_item d 0) (Digit_item d 1) (Some node) None)
  | 3 => Ok (Digit_make size 4 (Digit_item d 0) (Digit_item d 1) (Digit_item d 2)
               (Some node))
  | _ => Throw logic_error
  end.

(** [digit->view_front()]. *)
Definition Digit_view_front (d : Digit) : result (NodePtr * Digit) :=
  tail <-
    match Digit_order d with
    | 2 =>
      n1 <- deref (Digit_item d 1) ;;
      Ok (Digit_make1 n1)
    | 3 =>
      n1 <- deref (Digit_item d 1) ;;
      n2 <- deref (Digit_item d 2) ;;
      Ok (Digit_make2 n1 n2)
    | 4 =>
      n0 <- deref (Digit_item d 0) ;;
      Ok (Digit_make (usize (Digit_size d - Node_size n0)) 3
            (Digit_item d 1) (Digit_item d 2) (Digit_item d 3) None)
    | _ => Throw logic_error
    end ;;
  Ok (Digit_item d 0, tail).

(** [digit->view_back()]. *)
Definition Digit_view_back (d : Digit) : result (Digit * NodePtr) :=
  match Digit_order d with
  | 2 =>
    n0 <- deref (Digit_item d 0) ;;
    Ok (Digit_make1 n0, Digit_item d 1)
  | 3 =>
    n0 <- deref (Digit_item d 0) ;;
    n1 <- deref (Digit_item d 1) ;;
    Ok (Digit_make2 n0 n1, Digit_item d 2)
  | 4 =>
    n3 <- deref (Digit_item d 3) ;;
    Ok (Digit_make (usize (Digit_size d - Node_size n3)) 3
          (Digit_item d 0) (Digit_item d 1) (Digit_item d 2) None,
        Digit_item d 3)
  | _ => Throw logic_error
  end.

(** The scan [for(; !check_index(index, items[i]->size()); ++i)] over an
    array of four items: the position reached and the updated [index]. The
    item after the fourth is outside the array. *)
Fixpoint scan_loop (n : nat) (items : list NodePtr) (i index : Z) : result (Z * Z) :=
  match n with
  | O => Undefined
  | S n =>
    item <- deref (array_get items i) ;;
    let '(c, index) := check_index index (Node_size item) in
    if c then Ok (i, index) else scan_loop n items (i + 1) index
  end.

Definition scan (items : list NodePtr) (index : Z) : result (Z * Z) :=
  scan_loop 4 items 0 index.

(** The scan [while(!check_index(index, items[i]->size())) --i] from position
    [i] downwards; the item before the first is outside the array. *)
Fixpoint scan_back_loop (n : nat) (items : list NodePtr) (i index : Z) : result (Z * Z) :=
  match n with
  | O => Undefined
  | S n =>
    item <- (if i <? 0 then Undefined else deref (array_get items i)) ;;
    let '(c, index) := check_index index (Node_size item) in
    if c then Ok (i, index) else scan_back_loop n items (i - 1) index
  end.

Definition scan_back (items : list NodePtr) (i index : Z) : result (Z * Z) :=
  scan_back_loop 4 items i index.

Definition null_array (n : nat) : list NodePtr := repeat None n.

(** [digit->insert<Left>(index, value)]. *)
Definition Digit_insert (Left : bool) (d : Digit) (index : Z) (value : Value)
  : result (Digit * option Node) :=
  let items := Digit_items d in
  '(mid, index) <- scan items index ;;
  let nodes := array_copy (null_array 5) items 0 mid 0 in
  item <- deref (array_get items mid) ;;
  '(node, extra) <- Node_insert item index value ;;
  let nodes := array_set nodes mid (Some node) in
  let mid := mid + 1 in
  let order := mid in
  let '(nodes, order) :=
    match extra with
    | Some extra => (array_set nodes order (Some extra), order + 1)
    | None => (nodes, order)
    end in
  let n := Digit_order d - mid in
  let nodes := array_copy nodes items mid (Digit_order d) (order - mid) in
  let order := order + Z.max 0 n in
  if order <? 5 then
    Ok (Digit_make (usize (Digit_size d + 1)) order
          (array_get nodes 0) (array_get nodes 1) (array_get nodes 2) (array_get nodes 3),
        None)
  else
    n0 <- deref (array_get nodes 0) ;;
    n1 <- deref (array_get nodes 1) ;;
    n2 <- deref (array_get nodes 2) ;;
    n3 <- deref (array_get nodes 3) ;;
    n4 <- deref (array_get nodes 4) ;;
    if Left then Ok (Digit_make3 n0 n1 n2, Some (Node_make2 n3 n4))
    else Ok (Digit_make3 n2 n3 n4, Some (Node_make2 n0 n1)).

(** [digit->erase(index)]: the variant [NodePtr | DigitPtr]. *)
Definition Digit_erase (d : Digit) (index : Z) : result (NodePtr + Digit) :=
  let items := Digit_items d in
  let this_order := Digit_order d in
  '(mid, index) <- scan items index ;;
  let nodes := array_copy (null_array 4) items 0 mid 0 in
  item <- deref (array_get items mid) ;;
  '(full, node) <- Node_erase item index ;;
  if full : bool then
    let nodes := array_set nodes mid node in
    let nodes := array_copy nodes items (mid + 1) this_order 0 in
    d' <- Digit_from_array this_order nodes ;;
    Ok (inr d')
  else if this_order =? 1 then Ok (inl node)
  else if mid + 1 =? this_order then
    prev <- deref (array_get items (mid - 1)) ;;
    '(merged, extra) <- Node_merge_right prev node ;;
    let nodes := array_set nodes (mid - 1) (Some merged) in
    match extra with
    | None =>
      d' <- Digit_from_array (this_order - 1) nodes ;;
      Ok (inr d')
    | Some extra =>
      let nodes := array_set nodes mid (Some extra) in
      d' <- Digit_from_array this_order nodes ;;
      Ok (inr d')
    end
  else
    next <- deref (array_get items (mid + 1)) ;;
    '(merged, extra) <- Node_merge_left node next ;;
    let nodes := array_set nodes mid (Some merged) in
    match extra with
    | None =>
      let nodes := array_copy nodes items (mid + 2) this_order (-1) in
      d' <- Digit_from_array (this_order - 1) nodes ;;
      Ok (inr d')
    | Some extra =>
      let nodes := array_set nodes (mid + 1) (Some extra) in
      let nodes := array_copy nodes items (mid + 2) this_order 0 in
      d' <- Digit_from_array this_order nodes ;;
      Ok (inr d')
    end.

(** [Digit::merge_left(left, node)]. *)
Definition Digit_merge_left (left : NodePtr) (node : Node) : result Digit :=
  match left with
  | None => Digit_from_node node
  | Some _ =>
    match node with
    | Leaf _ => Throw logic_error
    | Branch _ b0 b1 b2 =>
      '(merge, extra) <- Node_merge_left left b0 ;;
      match extra, b2 with
      | None, None => Ok (Digit_make2 merge b1)
      | None, Some b2 => Ok (Digit_make3 merge b1 b2)
      | Some extra, None => Ok (Digit_make3 merge extra b1)
      | Some extra, Some b2 => Ok (Digit_make4 merge extra b1 b2)
      end
    end
  end.

(** [Digit::merge_right(node, right)]. *)
Definition Digit_merge_right (node : Node) (right : NodePtr) : result Digit :=
  match right with
  | None => Digit_from_node node
  | Some _ =>
    match node with
    | Leaf _ => Throw logic_error
    | Branch _ b0 b1 None =>
      '(merge, extra) <- Node_merge_right b1 right ;;
      match extra with
      | None => Ok (Digit_make2 b0 merge)
      | Some extra => Ok (Digit_make3 b0 merge extra)
      end
    | Branch _ b0 b1 (Some b2) =>
      '(merge, extra) <- Node_merge_right b2 right ;;
      match extra with
      | None => Ok (Digit_make3 b0 b1 merge)
      | Some extra => Ok (Digit_make4 b0 b1 merge extra)
      end
    end
  end.

(** *** Tree *)

(** A [Tree] is the variant [Empty | NodePtr | DeepPtr]; a [Deep] has a
    cached [size], the digits [left] and [right] and the tree [middle]. *)
Inductive Tree : Type :=
| Empty
| Single (node : Node)
| Deep (size : Z) (left : Digit) (middle : Tree) (right : Digit).

Definition Tree_size (t : Tree) : Z :=
  match t with
  | Empty => 0
  | Single node => Node_size node
  | Deep size _ _ _ => size
  end.

(** [bool(tree)]. *)
Definition Tree_bool (t : Tree) : bool :=
  match t with
  | Empty => false
  | _ => true
  end.

(** [Deep(left, middle, right)]. *)
Definition Deep_make (left : Digit) (middle : Tree) (right : Digit) : Tree :=
  Deep (usize (usize (Digit_size left + Tree_size middle) + Digit_size right))
    left middle right.

(** [Tree::from(digit)]. *)
Definition Tree_from_digit (d : Digit) : result Tree :=
  match Digit_order d with
  | 1 =>
    n0 <- deref (Digit_item d 0) ;;
    Ok (Single n0)
  | 2 =>
    n0 <- deref (Digit_item d 0) ;;
    n1 <- deref (Digit_item d 1) ;;
    Ok (Deep (Digit_size d) (Digit_make1 n0) Empty (Digit_make1 n1))
  | 3 =>
    n0 <- deref (Digit_item d 0) ;;
    n1 <- deref (Digit_item d 1) ;;
    n2 <- deref (Digit_item d 2) ;;
    Ok (Deep (Digit_size d) (Digit_make2 n0 n1) Empty (Digit_make1 n2))
  | 4 =>
    n0 <- deref (Digit_item d 0) ;;
    n1 <- deref (Digit_item d 1) ;;
    n2 <- deref (Digit_item d 2) ;;
    n3 <- deref (Digit_item d 3) ;;
    Ok (Deep (Digit_size d) (Digit_make2 n0 n1) Empty (Digit_make2 n2 n3))
  | _ => Throw logic_error
  end.

(** [Tree::from(count, nodes)]. *)
Definition Tree_from_array (count : Z) (nodes : list NodePtr) : result Tree :=
  match count with
  | 0 => Ok Empty
  | 1 =>
    n0 <- deref (array_get nodes 0) ;;
    Ok (Single n0)
  | 2 =>
    n0 <- deref (array_get nodes 0) ;;
    n1 <- deref (array_get nodes 1) ;;
    Ok (Deep_make (Digit_make1 n0) Empty (Digit_make1 n1))
  | 3 =>
    n0 <- deref (array_get nodes 0) ;;
    n1 <- deref (array_get nodes 1) ;;
    n2 <- deref (array_get nodes 2) ;;
    Ok (Deep_make (Digit_make1 n0) Empty (Digit_make2 n1 n2))
  | 4 =>
    n0 <- deref (array_get nodes 0) ;;
    n1 <- deref (array_get nodes 1) ;;
    n2 <- deref (array_get nodes 2) ;;
    n3 <- deref (array_get nodes 3) ;;
    Ok (Deep_make (Digit_make2 n0 n1) Empty (Digit_make2 n2 n3))
  | _ => Throw out_of_range
  end.

(** [Tree::from(merge)]. *)
Definition Tree_from_merge (merge : Node * option Node) : Tree :=
  match merge with
  | (node, None) => Single node
  | (node, Some extra) =>
    Deep (usize (Node_size node + Node_size extra))
      (Digit_make1 node) Empty (Digit_make1 extra)
  end.

(** [tree.push_front(x)]. *)
Fixpoint Tree_push_front (t : Tree) (x : Node) : result Tree :=
  match t with
  | Empty => Ok (Single x)
  | Single node =>
    Ok (Deep (usize (Node_size node + Node_size x)) (Digit_make1 x) Empty (Digit_make1 node))
  | Deep size ldigit middle rdigit =>
    if Digit_order ldigit <? 4 then
      Ok (Deep (usize (size + Node_size x)) (Digit_push_front ldigit x) middle rdigit)
    else
      i0 <- deref (Digit_item ldigit 0) ;;
      i1 <- deref (Digit_item ldigit 1) ;;
      i2 <- deref (Digit_item ldigit 2) ;;
      middle' <- Tree_push_front middle
        (Branch (usize (Digit_size ldigit - Node_size i0)) i1 i2 (Digit_item ldigit 3)) ;;
      Ok (Deep (usize (size + Node_size x)) (Digit_make2 x i0) middle' rdigit)
  end.

(** [tree.push_back(x)]. *)
Fixpoint Tree_push_back (t : Tree) (x : Node) : result Tree :=
  match t with
  | Empty => Ok (Single x)
  | Single node =>
    Ok (Deep (usize (Node_size node + Node_size x)) (Digit_make1 node) Empty (Digit_make1 x))
  | Deep size ldigit middle rdigit =>
    if Digit_order rdigit <? 4 then
      rdigit' <- Digit_push_back rdigit x ;;
      Ok (Deep (usize (size + Node_size x)) ldigit middle rdigit')
    else
      i3 <- deref (Digit_item rdigit 3) ;;
      i0 <- deref (Digit_item rdigit 0) ;;
      i1 <- deref (Digit_item rdigit 1) ;;
      middle' <- Tree_push_back middle
        (Branch (usize (Digit_size rdigit - Node_size i3)) i0 i1 (Digit_item rdigit 2)) ;;
      Ok (Deep (usize (size + Node_size x)) ldigit middle' (Digit_make2 i3 x))
  end.

(** [this->pull_left(right)], over the [view_front] of [*this]. *)
Definition pull_left_with (view_front : Tree -> result (Node * Tree))
  (this : Tree) (right : Digit) : result Tree :=
  if negb (Tree_bool this) then Tree_from_digit right else
  '(node, tree) <- view_front this ;;
  ldigit <- Digit_from_node node ;;
  Ok (Deep (usize (Tree_size this + Digit_size right)) ldigit tree right).

(** [tree.view_front()]. *)
Fixpoint Tree_view_front (t : Tree) : result (Node * Tree) :=
  match t with
  | Empty => Throw out_of_range
  | Single node => Ok (node, Empty)
  | Deep size ldigit middle rdigit =>
    if Digit_order ldigit =? 1 then
      i0 <- deref (Digit_item ldigit 0) ;;
      tail <- pull_left_with Tree_view_front middle rdigit ;;
      Ok (i0, tail)
    else
      '(head, ldigit') <- Digit_view_front ldigit ;;
      head <- deref head ;;
      Ok (head, Deep (usize (size - Node_size head)) ldigit' middle rdigit)
  end.

(** [tree.pull_left(right)]. *)
Definition Tree_pull_left (this : Tree) (right : Digit) : result Tree :=
  pull_left_with Tree_view_front this right.

(** [this->pull_right(left)], over the [view_back] of [*this]. *)
Definition pull_right_with (view_back : Tree -> result (Tree * Node))
  (this : Tree) (left : Digit) : result Tree :=
  if negb (Tree_bool this) then Tree_from_digit left else
  '(tree, node) <- view_back this ;;
  rdigit <- Digit_from_node node ;;
  Ok (Deep (usize (Tree_size this + Digit_size left)) left tree rdigit).

(** [tree.view_back()]. *)
Fixpoint Tree_view_back (t : Tree) : result (Tree * Node) :=
  match t with
  | Empty => Throw out_of_range
  | Single node => Ok (Empty, node)
  | Deep size ldigit middle rdigit =>
    if Digit_order rdigit =? 1 then
      init <- pull_right_with Tree_view_back middle ldigit ;;
      i0 <- deref (Digit_item rdigit 0) ;;
      Ok (init, i0)
    else
      '(rdigit', last) <- Digit_view_back rdigit ;;
      last <- deref last ;;
      Ok (Deep (usize (size - Node_size last)) ldigit middle rdigit', last)
  end.

(** [tree.pull_right(left)]. *)
Definition Tree_pull_right (this : Tree) (left : Digit) : result Tree :=
  pull_right_with Tree_view_back this left.

(** The [switch(count)] of [Tree::append]: the nodes [mid[0..count)]
    regrouped into branches and pushed onto the front of [rtree]. *)
Definition append_middle (count : Z) (mid : list NodePtr) (rtree : Tree)
  : result Tree :=
  let m i := deref (array_get mid i) in
  let push2 (rtree : Tree) i j :=
    a <- m i ;; b <- m j ;; Tree_push_front rtree (Node_make2 a b) in
  let push3 (rtree : Tree) i j k :=
    a <- m i ;; b <- m j ;; c <- m k ;; Tree_push_front rtree (Node_make3 a b c) in
  match count with
  | 8 =>
    rtree <- push3 rtree 5 6 7 ;;
    rtree <- push3 rtree 2 3 4 ;;
    push2 rtree 0 1
  | 5 =>
    rtree <- push3 rtree 2 3 4 ;;
    push2 rtree 0 1
  | 2 => push2 rtree 0 1
  | 6 =>
    rtree <- push3 rtree 3 4 5 ;;
    push3 rtree 0 1 2
  | 3 => push3 rtree 0 1 2
  | 7 =>
    rtree <- push3 rtree 4 5 6 ;;
    rtree <- push2 rtree 2 3 ;;
    push2 rtree 0 1
  | 4 =>
    rtree <- push2 rtree 2 3 ;;
    push2 rtree 0 1
  | _ => Throw logic_error
  end.

(** [this->append(that)]. *)
Fixpoint Tree_append (this that : Tree) {struct this} : result Tree :=
  match this with
  | Empty => Ok that
  | Single node => Tree_push_front that node
  | Deep lsize lleft lmiddle lright =>
    match that with
    | Empty => Ok this
    | Single node => Tree_push_back this node
    | Deep rsize rleft rmiddle rright =>
      let mid := array_copy (null_array 8) (Digit_items lright) 0 (Digit_order lright) 0 in
      let count := Z.max 0 (Digit_order lright) in
      let mid := array_copy mid (Digit_items rleft) 0 (Digit_order rleft) count in
      let count := count + Z.max 0 (Digit_order rleft) in
      rtree <- append_middle count mid rmiddle ;;
      middle <- Tree_append lmiddle rtree ;;
      Ok (Deep (usize (lsize + rsize)) lleft middle rright)
    end
  end.

(** [tree.insert(index, value)]. *)
Fixpoint Tree_insert (t : Tree) (index : Z) (value : Value) : result Tree :=
  match t with
  | Empty => Throw out_of_range
  | Single node =>
    '(node1, extra) <- Node_insert node index value ;;
    match extra with
    | None => Ok (Single node1)
    | Some extra =>
      Ok (Deep (usize (Node_size node + 1)) (Digit_make1 node1) Empty (Digit_make1 extra))
    end
  | Deep size ldigit middle rdigit =>
    let '(c, index) := check_index index (Digit_size ldigit) in
    if c then
      '(digit, extra) <- Digit_insert true ldigit index value ;;
      middle' <-
        match extra with
        | Some extra => Tree_push_front middle extra
        | None => Ok middle
        end ;;
      Ok (Deep (usize (size + 1)) digit middle' rdigit)
    else
    let '(c, index) := check_index index (Tree_size middle) in
    if c then
      middle' <- Tree_insert middle index value ;;
      Ok (Deep (usize (size + 1)) ldigit middle' rdigit)
    else
      '(digit, extra) <- Digit_insert false rdigit index value ;;
      middle' <-
        match extra with
        | Some extra => Tree_push_back middle extra
        | None => Ok middle
        end ;;
      Ok (Deep (usize (size + 1)) ldigit middle' digit)
  end.

(** [std::get<NodePtr>(tree)]. *)
Definition Tree_get_node (t : Tree) : result Node :=
  match t with
  | Single node => Ok node
  | _ => Throw bad_variant_access
  end.

(** [std::get<Branch>] of a node: the members [size], [items[0]], [items[1]],
    [items[2]]. *)
Definition Node_get_branch (n : Node) : result (Z * Node * Node * NodePtr) :=
  match n with
  | Leaf _ => Throw bad_variant_access
  | Branch size b0 b1 b2 => Ok (size, b0, b1, b2)
  end.

(** [tree.erase(index)]. *)
Fixpoint Tree_erase (t : Tree) (index : Z) : result (bool * Tree) :=
  match t with
  | Empty => Throw out_of_range
  | Single node =>
    '(full, erased) <- Node_erase node index ;;
    match erased with
    | None => Ok (false, Empty)
    | Some erased => Ok (full, Single erased)
    end
  | Deep size ldigit middle rdigit =>
    let '(c, index) := check_index index (Digit_size ldigit) in
    if c then
      e <- Digit_erase ldigit index ;;
      match e with
      | inr digit => Ok (true, Deep (usize (size - 1)) digit middle rdigit)
      | inl node =>
        if Tree_bool middle then
          '(head, tail) <- Tree_view_front middle ;;
          digit <- Digit_merge_left node head ;;
          Ok (true, Deep (usize (size - 1)) digit tail rdigit)
        else
          r0 <- deref (Digit_item rdigit 0) ;;
          merge <- Node_merge_left node r0 ;;
          if Digit_order rdigit =? 1 then Ok (true, Tree_from_merge merge)
          else
            '(_, rest) <- Digit_view_front rdigit ;;
            Ok (true, Deep (usize (size - 1)) (Digit_from_merge merge) Empty rest)
      end
    else
    let '(c, index) := check_index index (Tree_size middle) in
    if c then
      '(full, meld) <- Tree_erase middle index ;;
      if full : bool then Ok (true, Deep (usize (size - 1)) ldigit meld rdigit)
      else
        node <- Tree_get_node meld ;;
        if Digit_order ldigit =? 4 then
          l0 <- deref (Digit_item ldigit 0) ;;
          l1 <- deref (Digit_item ldigit 1) ;;
          l2 <- deref (Digit_item ldigit 2) ;;
          l3 <- deref (Digit_item ldigit 3) ;;
          Ok (true, Deep (usize (size - 1)) (Digit_make2 l0 l1)
                      (Single (Node_make3 l2 l3 node)) rdigit)
        else
          let nodes := array_copy (null_array 4) (Digit_items ldigit) 0 (Digit_order ldigit) 0 in
          let nodes := array_set nodes (Digit_order ldigit) (Some node) in
          digit <- Digit_from_array (Digit_order ldigit + 1) nodes ;;
          Ok (true, Deep (usize (size - 1)) digit Empty rdigit)
    else
      e <- Digit_erase rdigit index ;;
      match e with
      | inr digit => Ok (true, Deep (usize (size - 1)) ldigit middle digit)
      | inl node =>
        if Tree_bool middle then
          '(init, last) <- Tree_view_back middle ;;
          digit <- Digit_merge_right last node ;;
          Ok (true, Deep (usize (size - 1)) ldigit init digit)
        else
          lback <- deref (Digit_back ldigit) ;;
          merge <- Node_merge_right lback node ;;
          if Digit_order ldigit =? 1 then Ok (true, Tree_from_merge merge)
          else
            '(rest, _) <- Digit_view_back ldigit ;;
            Ok (true, Deep (usize (size - 1)) rest Empty (Digit_from_merge merge))
      end
  end.

(** [tree.split(index)]. *)
Fixpoint Tree_split (t : Tree) (index : Z) : result (Tree * Node * Tree) :=
  match t with
  | Empty => Throw out_of_range
  | Single node => Ok (Empty, node, Empty)
  | Deep size ldigit middle rdigit =>
    let '(c, index) := check_index index (Digit_size ldigit) in
    if c then
      let items := Digit_items ldigit in
      '(i, index) <- scan items index ;;
      rtree <-
        (if i + 1 =? Digit_order ldigit then Tree_pull_left middle rdigit
         else
           d <- Digit_from_array (Digit_order ldigit - i - 1) (array_from items (i + 1)) ;;
           Ok (Deep_make d middle rdigit)) ;;
      ltree <- Tree_from_array i items ;;
      node <- deref (array_get items i) ;;
      Ok (ltree, node, rtree)
    else
    let '(c, index) := check_index index (Tree_size middle) in
    if c then
      '(ltree, node, rtree) <- Tree_split middle index ;;
      '(_, i0, i1, i2) <- Node_get_branch node ;;
      let index := usize (index - Tree_size ltree) in
      let '(c, index) := check_index index (Node_size i0) in
      if c then
        ltree' <- Tree_pull_right ltree ldigit ;;
        Ok (ltree', i0,
            Deep_make
              match i2 with
              | None => Digit_make1 i1
              | Some i2 => Digit_make2 i1 i2
              end rtree rdigit)
      else
      let '(c, index) := check_index index (Node_size i1) in
      if c then
        rtree' <-
          match i2 with
          | None => Tree_pull_left rtree rdigit
          | Some i2 => Ok (Deep_make (Digit_make1 i2) rtree rdigit)
          end ;;
        Ok (Deep_make ldigit ltree (Digit_make1 i0), i1, rtree')
      else
        i2 <- deref i2 ;;
        rtree' <- Tree_pull_left rtree rdigit ;;
        Ok (Deep_make ldigit ltree (Digit_make2 i0 i1), i2, rtree')
    else
      let items := Digit_items rdigit in
      '(i, index) <- scan items index ;;
      ltree <-
        (if i =? 0 then Tree_pull_right middle ldigit
         else
           d <- Digit_from_array i (array_from items 0) ;;
           Ok (Deep_make ldigit middle d)) ;;
      node <- deref (array_get items i) ;;
      rtree <- Tree_from_array (Digit_order rdigit - i - 1) (array_from items (i + 1)) ;;
      Ok (ltree, node, rtree)
  end.

(** [tree.take_front(index)]. *)
Fixpoint Tree_take_front (t : Tree) (index : Z) : result (Tree * Node) :=
  match t with
  | Empty => Throw out_of_range
  | Single node => Ok (Empty, node)
  | Deep size ldigit middle rdigit =>
    let '(c, index) := check_index index (Digit_size ldigit) in
    if c then
      let items := Digit_items ldigit in
      '(i, index) <- scan items index ;;
      ltree <- Tree_from_array i items ;;
      node <- deref (array_get items i) ;;
      Ok (ltree, node)
    else
    let '(c, index) := check_index index (Tree_size middle) in
    if c then
      '(tree, node) <- Tree_take_front middle index ;;
      let index := usize (index - Tree_size tree) in
      '(_, b0, b1, b2) <- Node_get_branch node ;;
      let '(c, index) := check_index index (Node_size b0) in
      if c then
        tree' <- Tree_pull_right tree ldigit ;;
        Ok (tree', b0)
      else
      let '(c, index) := check_index index (Node_size b1) in
      if c then Ok (Deep_make ldigit tree (Digit_make1 b0), b1)
      else
        b2 <- deref b2 ;;
        Ok (Deep_make ldigit tree (Digit_make2 b0 b1), b2)
    else
      let items := Digit_items rdigit in
      '(i, index) <- scan items index ;;
      node <- deref (array_get items i) ;;
      if i =? 0 then
        tree' <- Tree_pull_right middle ldigit ;;
        Ok (tree', node)
      else
        d <- Digit_from_array i items ;;
        Ok (Deep_make ldigit middle d, node)
  end.

(** [tree.take_back(index)]. *)
Fixpoint Tree_take_back (t : Tree) (index : Z) : result (Node * Tree) :=
  match t with
  | Empty => Throw out_of_range
  | Single node => Ok (node, Empty)
  | Deep size ldigit middle rdigit =>
    let '(c, index) := check_index index (Digit_size rdigit) in
    if c then
      let items := Digit_items rdigit in
      '(i, index) <- scan_back items (Digit_order rdigit - 1) index ;;
      node <- deref (array_get items i) ;;
      rtree <- Tree_from_array (Digit_order rdigit - i - 1) (array_from items (i + 1)) ;;
      Ok (node, rtree)
    else
    let '(c, index) := check_index index (Tree_size middle) in
    if c then
      '(node, tree) <- Tree_take_back middle index ;;
      let index := usize (index - Tree_size tree) in
      '(_, b0, b1, b2) <- Node_get_branch node ;;
      let third :=
        match b2 with
        | Some i2 =>
          let '(c, index) := check_index index (Node_size i2) in
          if c then (Some i2, index) else (None, index)
        | None => (None, index)
        end in
      match third with
      | (Some i2, _) =>
        tree' <- Tree_pull_left tree rdigit ;;
        Ok (i2, tree')
      | (None, index) =>
        let '(c, index) := check_index index (Node_size b1) in
        if c then
          tree' <-
            match b2 with
            | None => Tree_pull_left tree rdigit
            | Some i2 => Ok (Deep_make (Digit_make1 i2) tree rdigit)
            end ;;
          Ok (b1, tree')
        else
          Ok (b0,
              Deep_make
                match b2 with
                | None => Digit_make1 b1
                | Some i2 => Digit_make2 b1 i2
                end tree rdigit)
      end
    else
      let items := Digit_items ldigit in
      '(i, index) <- scan_back items (Digit_order ldigit - 1) index ;;
      node <- deref (array_get items i) ;;
      if i + 1 =? Digit_order ldigit then
        tree' <- Tree_pull_left middle rdigit ;;
        Ok (node, tree')
      else
        d <- Digit_from_array (Digit_order ldigit - i - 1) (array_from items (i + 1)) ;;
        Ok (node, Deep_make d middle rdigit)
  end.

(** *** The sequence *)

(** A [Sequence] owns one [Tree] (its only member, [tree]). *)
Definition Sequence : Type := Tree.

Definition Sequence_size (s : Sequence) : Z := Tree_size s.

Definition push_front (s : Sequence) (value : Value) : result Sequence :=
  Tree_push_front s (Leaf value).

Definition push_back (s : Sequence) (value : Value) : result Sequence :=
  Tree_push_back s (Leaf value).

Definition append (s that : Sequence) : result Sequence :=
  Tree_append s that.

(** [seq.take_front(index)]. *)
Definition take_front (s : Sequence) (index : Z) : result Sequence :=
  if index =? 0 then Ok Empty
  else if index >=? Sequence_size s then Ok s
  else
    '(tree, node) <- Tree_take_front s index ;;
    Ok tree.

(** [seq.take_back(index)]. *)
Definition take_back (s : Sequence) (index : Z) : result Sequence :=
  if index =? 0 then Ok Empty
  else if index >=? Sequence_size s then Ok s
  else
    '(node, tree) <- Tree_take_back s index ;;
    Ok tree.

(** [seq.drop_back(index)] and [seq.drop_front(index)]. *)
Definition drop_back (s : Sequence) (index : Z) : result Sequence :=
  take_front s (usize (Sequence_size s - Z.min (Sequence_size s) index)).

Definition drop_front (s : Sequence) (index : Z) : result Sequence :=
  take_back s (usize (Sequence_size s - Z.min (Sequence_size s) index)).

(** [seq.at(left, right)]. The first three statements of the source compute
    a sequence and discard it; they are evaluated all the same. *)
Definition at_slice (s : Sequence) (left right : Z) : result Sequence :=
  _ <- (if left >=? right then Ok Empty else Ok s) ;;
  _ <- (if left =? 0 then take_front s right else Ok s) ;;
  _ <- (if right >=? Sequence_size s then drop_front s left else Ok s) ;;
  front <- take_front s right ;;
  drop_front front left.

(** [seq.set(left, right, values)]. *)
Definition set_slice (s : Sequence) (left right : Z) (values : Sequence)
  : result Sequence :=
  let right := if left >? right then left else right in
  front <- take_front s left ;;
  front <- append front values ;;
  back <- drop_front s right ;;
  append front back.

(** [seq.insert(index, value)]. *)
Definition insert (s : Sequence) (index : Z) (value : Value) : result Sequence :=
  if index >=? Sequence_size s then Throw out_of_range
  else Tree_insert s index value.

(** [seq.erase(index)]. *)
Definition erase (s : Sequence) (index : Z) : result Sequence :=
  if index >=? Sequence_size s then Throw out_of_range
  else
    '(full, tree) <- Tree_erase s index ;;
    if full : bool then Ok tree else Ok Empty.

(** [seq.split(index)]. *)
Definition split (s : Sequence) (index : Z) : result (Sequence * Value * Sequence) :=
  if index >=? Sequence_size s then Throw out_of_range
  else
    '(ltree, node, rtree) <- Tree_split s index ;;
    value <- Node_value node ;;
    Ok (ltree, value, rtree).

(** *** The [insert] binding of [_psequence.cpp] *)

(** The conversion of a [size_t] to [Py_ssize_t]. *)
Definition to_ssize (x : Z) : Z :=
  if x <=? ssize_max then x else x - size_modulus.

(** The lambda bound to [insert]; [index] is a [Py_ssize_t]. *)
Definition py_insert (s : Sequence) (index : Z) (value : Value) : result Sequence :=
  let index :=
    if index <? 0 then to_ssize (usize (usize index + Sequence_size s)) else index in
  if index <? 0 then push_front s value
  else if usize index >=? Sequence_size s then push_back s value
  else insert s (usize index) value.

(** *** Iterator *)

(** A frame of the iterator stack: the variant [NodePtr | DigitPtr | Tree]. *)
Inductive Frame : Type :=
| FNode (node : NodePtr)
| FDigit (digit : Digit)
| FTree (tree : Tree).

(** The iterator: its only member is the [stack] of frames. *)
Definition Iterator : Type := list Frame.

Definition push_opt (p : NodePtr) (stack : list Frame) : list Frame :=
  match p with
  | Some _ => FNode p :: stack
  | None => stack
  end.

(** [iter.advance(n)] after [fuel] calls at most. *)
Fixpoint advance_loop (fuel : nat) (Reverse : bool) (n : Z) (stack : list Frame)
  : result (list Frame) :=
  match stack with
  | [] => Ok stack
  | head :: tail =>
    match fuel with
    | O => Undefined
    | S fuel =>
      match head with
      | FNode node =>
        node <- deref node ;;
        match node with
        | Leaf _ =>
          if n =? 0 then Ok stack
          else advance_loop fuel Reverse (usize (n - 1)) tail
        | Branch size i0 i1 i2 =>
          let stack := tail in
          let '(c, n) := check_index n size in
          let stack :=
            if c then
              let stack :=
                if Reverse then FNode (Some i1) :: FNode (Some i0) :: stack else stack in
              let stack := push_opt i2 stack in
              if negb Reverse then FNode (Some i0) :: FNode (Some i1) :: stack else stack
            else stack in
          advance_loop fuel Reverse n stack
        end
      | FDigit digit =>
        let stack := tail in
        let '(c, n) := check_index n (Digit_size digit) in
        stack <-
          (if c then
             let item i := FNode (Digit_item digit i) in
             let order := Digit_order digit in
             if Reverse then
               let stack := item 0 :: stack in
               let stack := if order >=? 2 then item 1 :: stack else stack in
               let stack := if order >=? 3 then item 2 :: stack else stack in
               let stack := if order >=? 4 then item 3 :: stack else stack in
               Ok stack
             else
               match order with
               | 4 => Ok (item 0 :: item 1 :: item 2 :: item 3 :: stack)
               | 3 => Ok (item 0 :: item 1 :: item 2 :: stack)
               | 2 => Ok (item 0 :: item 1 :: stack)
               | 1 => Ok (item 0 :: stack)
               | _ => Throw logic_error
               end
           else Ok stack) ;;
        advance_loop fuel Reverse n stack
      | FTree tree =>
        let stack := tail in
        let '(c, n) := check_index n (Tree_size tree) in
        let stack :=
          if c then
            match tree with
            | Empty => stack
            | Single node => FNode (Some node) :: stack
            | Deep _ ldigit middle rdigit =>
              let stack := FDigit (if Reverse then ldigit else rdigit) :: stack in
              let stack := FTree middle :: stack in
              FDigit (if Reverse then rdigit else ldigit) :: stack
            end
          else stack in
        advance_loop fuel Reverse n stack
      end
    end
  end.

(** The number of calls of [advance] a stack can need: every call replaces
    the top frame by frames of strictly smaller total weight. *)
Fixpoint Node_weight (n : Node) : nat :=
  match n with
  | Leaf _ => 1
  | Branch _ i0 i1 i2 =>
    S (Node_weight i0 + Node_weight i1
       + match i2 with Some i2 => Node_weight i2 | None => 0 end)
  end.

Definition NodePtr_weight (p : NodePtr) : nat :=
  match p with
  | Some n => Node_weight n
  | None => 1
  end.

Definition Digit_weight (d : Digit) : nat :=
  S (NodePtr_weight (Digit_item d 0) + NodePtr_weight (Digit_item d 1)
     + NodePtr_weight (Digit_item d 2) + NodePtr_weight (Digit_item d 3)).

Fixpoint Tree_weight (t : Tree) : nat :=
  match t with
  | Empty => 1
  | Single node => S (Node_weight node)
  | Deep _ ldigit middle rdigit =>
    S (Digit_weight ldigit + Tree_weight middle + Digit_weight rdigit)
  end.

Definition Frame_weight (f : Frame) : nat :=
  match f with
  | FNode p => NodePtr_weight p
  | FDigit d => Digit_weight d
  | FTree t => Tree_weight t
  end.

Definition stack_weight (stack : list Frame) : nat :=
  fold_right (fun f w => Frame_weight f + w)%nat 0%nat stack.

(** [iter.advance(n)]. *)
Definition advance (Reverse : bool) (n : Z) (it : Iterator) : result Iterator :=
  advance_loop (stack_weight it) Reverse n it.

(** [Iterator(seq)]: [seq.begin()] and, with [Reverse], [seq.rbegin()]. *)
Definition Iterator_begin (Reverse : bool) (s : Sequence) : result Iterator :=
  advance Reverse 0 [FTree s].

(** [Iterator()]: [seq.end()]. *)
Definition Iterator_end : Iterator := [].

(** [++iter]. *)
Definition Iterator_next (Reverse : bool) (it : Iterator) : result Iterator :=
  match it with
  | [] => Throw logic_error
  | _ :: tail => advance Reverse 0 tail
  end.

(** [*iter]. *)
Definition Iterator_deref (it : Iterator) : result Value :=
  match it with
  | [] => Throw logic_error
  | FNode node :: _ =>
    node <- deref node ;;
    Node_value node
  | _ :: _ => Throw bad_variant_access
  end.

(** [iter != seq.end()]: the stack of the end iterator is the empty list,
    and [List::operator ==] finds a list equal to it exactly when that list
    is empty too. *)
Definition Iterator_not_end (it : Iterator) : bool :=
  match it with
  | [] => false
  | _ => true
  end.

(** [for(auto& x : xs) seed = hash_combine(seed, x);] from the iterator
    [it] on, where [hash] is [std::hash<Value>]. Every round removes a frame
    from the stack, so [fuel] rounds are enough for a stack of that weight. *)
Fixpoint hash_loop (fuel : nat) (hash : Value -> Z) (seed : Z) (it : Iterator)
  : result Z :=
  if Iterator_not_end it then
    match fuel with
    | O => Undefined
    | S fuel =>
      x <- Iterator_deref it ;;
      let seed := Utility.hash_combine seed (hash x) in
      it <- Iterator_next false it ;;
      hash_loop fuel hash seed it
    end
  else Ok seed.

(** [HashIterable<Sequence>()(xs)], which is [std::hash<Sequence>]. *)
Definition HashIterable (hash : Value -> Z) (xs : Sequence) : result Z :=
  let seed := 2654435769 in
  it <- Iterator_begin false xs ;;
  hash_loop (stack_weight it) hash seed it.

(** [equal_iterator(xs, xl, ys, yl)] with [xl] and [yl] the end iterators
    and [Equal] the comparison of two values. *)
Fixpoint equal_iterator_loop (fuel : nat) (Equal : Value -> Value -> bool)
  (xs ys : Iterator) : result bool :=
  if Iterator_not_end xs && Iterator_not_end ys then
    match fuel with
    | O => Undefined
    | S fuel =>
      x <- Iterator_deref xs ;;
      y <- Iterator_deref ys ;;
      if negb (Equal x y) then Ok false
      else
        xs <- Iterator_next false xs ;;
        ys <- Iterator_next false ys ;;
        equal_iterator_loop fuel Equal xs ys
    end
  else Ok (negb (Iterator_not_end xs) && negb (Iterator_not_end ys)).

(** [seq == that]. *)
Definition Sequence_equal (Equal : Value -> Value -> bool) (s that : Sequence)
  : result bool :=
  xs <- Iterator_begin false s ;;
  ys <- Iterator_begin false that ;;
  equal_iterator_loop (stack_weight xs) Equal xs ys.

(** *** The structural invariants and the elements of a sequence

    These follow [check] and [tolist] of [tests/psequence_test.cpp]: every
    cached size is the number of elements below it, a digit has [order]
    items (between one and four) and null pointers after them, and the nodes
    of a tree at depth [d] have depth [d]. A cached size is a [size_t]. *)

Definition NodePtr_size (p : NodePtr) : Z :=
  match p with
  | Some n => Node_size n
  | None => 0
  end.

Fixpoint Node_to_list (n : Node) : list Value :=
  match n with
  | Leaf v => [v]
  | Branch _ i0 i1 i2 =>
    Node_to_list i0 ++ Node_to_list i1
    ++ match i2 with Some i2 => Node_to_list i2 | None => [] end
  end.

Definition NodePtr_to_list (p : NodePtr) : list Value :=
  match p with
  | Some n => Node_to_list n
  | None => []
  end.

Definition Digit_to_list (d : Digit) : list Value :=
  NodePtr_to_list (Digit_item d 0)
  ++ (if Digit_order d >=? 2 then NodePtr_to_list (Digit_item d 1) else [])
  ++ (if Digit_order d >=? 3 then NodePtr_to_list (Digit_item d 2) else [])
  ++ (if Digit_order d >=? 4 then NodePtr_to_list (Digit_item d 3) else []).

Fixpoint Tree_to_list (t : Tree) : list Value :=
  match t with
  | Empty => []
  | Single node => Node_to_list node
  | Deep _ ldigit middle rdigit =>
    Digit_to_list ldigit ++ Tree_to_list middle ++ Digit_to_list rdigit
  end.

Definition to_list (s : Sequence) : list Value := Tree_to_list s.

Fixpoint Node_wf (depth : nat) (n : Node) : Prop :=
  match n, depth with
  | Leaf _, O => True
  | Branch size i0 i1 i2, S depth =>
    Node_wf depth i0 /\ Node_wf depth i1
    /\ match i2 with Some i2 => Node_wf depth i2 | None => True end
    /\ size = Node_size i0 + Node_size i1 + NodePtr_size i2
    /\ size < size_modulus
  | _, _ => False
  end.

Definition NodePtr_wf (depth : nat) (p : NodePtr) : Prop :=
  match p with
  | Some n => Node_wf depth n
  | None => True
  end.

Definition Digit_wf (depth : nat) (d : Digit) : Prop :=
  match d with
  | mkDigit size 1 [Some n0; None; None; None] =>
    Node_wf depth n0 /\ size = Node_size n0
  | mkDigit size 2 [Some n0; Some n1; None; None] =>
    Node_wf depth n0 /\ Node_wf depth n1
    /\ size = Node_size n0 + Node_size n1 /\ size < size_modulus
  | mkDigit size 3 [Some n0; Some n1; Some n2; None] =>
    Node_wf depth n0 /\ Node_wf depth n1 /\ Node_wf depth n2
    /\ size = Node_size n0 + Node_size n1 + Node_size n2 /\ size < size_modulus
  | mkDigit size 4 [Some n0; Some n1; Some n2; Some n3] =>
    Node_wf depth n0 /\ Node_wf depth n1 /\ Node_wf depth n2 /\ Node_wf depth n3
    /\ size = Node_size n0 + Node_size n1 + Node_size n2 + Node_size n3
    /\ size < size_modulus
  | _ => False
  end.

Fixpoint Tree_wf (depth : nat) (t : Tree) : Prop :=
  match t with
  | Empty => True
  | Single node => Node_wf depth node
  | Deep size ldigit middle rdigit =>
    Digit_wf depth ldigit /\ Tree_wf (S depth) middle /\ Digit_wf depth rdigit
    /\ size = Digit_size ldigit + Tree_size middle + Digit_size rdigit
    /\ size < size_modulus
  end.

(** A well-formed sequence: a tree of leaves. *)
Definition Sequence_wf (s : Sequence) : Prop := Tree_wf 0 s.

(** A sequence from a list of values, by [push_back]. *)
Fixpoint from_list_loop (s : Sequence) (values : list Value) : result Sequence :=
  match values with
  | [] => Ok s
  | v :: values => s' <- push_back s v ;; from_list_loop s' values
  end.

Definition from_list (values : list Value) : result Sequence :=
  from_list_loop Empty values.

(** *** Reference operations on lists *)

Definition list_insert {A : Type} (i : Z) (v : A) (l : list A) : list A :=
  firstn (Z.to_nat i) l ++ v :: skipn (Z.to_nat i) l.

Definition list_erase {A : Type} (i : Z) (l : list A) : list A :=
  firstn (Z.to_nat i) l ++ skipn (S (Z.to_nat i)) l.

Definition list_take {A : Type} (i : Z) (l : list A) : list A :=
  firstn (Z.to_nat i) l.

Definition list_drop {A : Type} (i : Z) (l : list A) : list A :=
  skipn (Z.to_nat i) l.

(** The four shapes of a well-formed digit. *)
Inductive Digit_shape (depth : nat) : Digit -> Prop :=
| Digit_shape1 n0 :
    Node_wf depth n0 ->
    Digit_shape depth (mkDigit (Node_size n0) 1 [Some n0; None; None; None])
| Digit_shape2 n0 n1 :
    Node_wf depth n0 -> Node_wf depth n1 ->
    Node_size n0 + Node_size n1 < size_modulus ->
    Digit_shape depth
      (mkDigit (Node_size n0 + Node_size n1) 2 [Some n0; Some n1; None; None])
| Digit_shape3 n0 n1 n2 :
    Node_wf depth n0 -> Node_wf depth n1 -> Node_wf depth n2 ->
    Node_size n0 + Node_size n1 + Node_size n2 < size_modulus ->
    Digit_shape depth
      (mkDigit (Node_size n0 + Node_size n1 + Node_size n2) 3
         [Some n0; Some n1; Some n2; None])
| Digit_shape4 n0 n1 n2 n3 :
    Node_wf depth n0 -> Node_wf depth n1 -> Node_wf depth n2 -> Node_wf depth n3 ->
    Node_size n0 + Node_size n1 + Node_size n2 + Node_size n3 < size_modulus ->
    Digit_shape depth
      (mkDigit (Node_size n0 + Node_size n1 + Node_size n2 + Node_size n3) 4
         [Some n0; Some n1; Some n2; Some n3]).

(** The elements the frames of an iterator stack stand for. *)
Definition Frame_to_list (f : Frame) : list Value :=
  match f with
  | FNode p => NodePtr_to_list p
  | FDigit d => Digit_to_list d
  | FTree t => Tree_to_list t
  end.

Definition stack_to_list (stack : list Frame) : list Value :=
  flat_map Frame_to_list stack.

(** A frame of well-formed parts, at any depth. *)
Definition Frame_wf (f : Frame) : Prop :=
  match f with
  | FNode p => exists depth n, p = Some n /\ Node_wf depth n
  | FDigit d => exists depth, Digit_wf depth d
  | FTree t => exists depth, Tree_wf depth t
  end.

(** [p] is a prefix, [s] a suffix of [l]. *)
Definition is_prefix {A : Type} (p l : list A) : Prop :=
  exists rest, l = p ++ rest.

Definition is_suffix {A : Type} (s l : list A) : Prop :=
  exists rest, l = rest ++ s.

(** What the proofs ask of a [view_front] and of a [view_back]. *)
Definition view_front_ok (vf : Tree -> result (Node * Tree)) d t : Prop :=
  Tree_wf d t -> t <> Empty ->
  exists n t',
    vf t = Ok (n, t') /\ Node_wf d n /\ Tree_wf d t'
    /\ Tree_to_list t = Node_to_list n ++ Tree_to_list t'
    /\ Tree_size t = Node_size n + Tree_size t'.

Definition view_back_ok (vb : Tree -> result (Tree * Node)) d t : Prop :=
  Tree_wf d t -> t <> Empty ->
  exists t' n,
    vb t = Ok (t', n) /\ Node_wf d n /\ Tree_wf d t'
    /\ Tree_to_list t = Tree_to_list t' ++ Node_to_list n
    /\ Tree_size t = Tree_size t' + Node_size n.


(** The node an underfull [erase] hands to its caller at depth [depth]:
    nothing below a leaf, and a node one level down otherwise. *)
Definition NodePtr_below (depth : nat) (p : NodePtr) : Prop :=
  match depth with
  | O => p = None
  | S depth => exists n, p = Some n /\ Node_wf depth n
  end.

(** The result [(full, node)] of an [erase] at depth [d]. *)
Definition erased_ok d (full : bool) (node : NodePtr) : Prop :=
  if full then exists n', node = Some n' /\ Node_wf d n' else NodePtr_below d node.


(** The result of [digit->erase(index)] at depth [d]: a digit without the
    element at [index], or, from a digit of one item, the node its caller
    has to absorb. *)
Definition digit_erased_ok d (dg : Digit) (index : Z) (e : NodePtr + Digit) : Prop :=
  match e with
  | inr dg' =>
    Digit_wf d dg'
    /\ Digit_to_list dg' = list_erase index (Digit_to_list dg)
    /\ Digit_size dg' = Digit_size dg - 1
  | inl node =>
    Digit_order dg = 1 /\ NodePtr_below d node
    /\ NodePtr_to_list node = list_erase index (Digit_to_list dg)
    /\ NodePtr_size node = Digit_size dg - 1
  end.

(** The result [(full, tree)] of [tree.erase(index)] at depth [d]. *)
Definition tree_erased_ok d (full : bool) (t : Tree) : Prop :=
  if full then Tree_wf d t
  else match d with
       | O => t = Empty
       | S d => exists n, t = Single n /\ Node_wf d n
       end.

(** The head of an iterator that [advance(0)] has run on: the end, or a
    leaf. *)
Definition Iterator_ready (it : Iterator) : Prop :=
  it = [] \/ exists v rest, it = FNode (Some (Leaf v)) :: rest.

(** Element-wise comparison of two lists with [Equal]. *)
Fixpoint list_equal (Equal : Value -> Value -> bool) (xs ys : list Value) : bool :=
  match xs, ys with
  | [], [] => true
  | x :: xs, y :: ys => Equal x y && list_equal Equal xs ys
  | _, _ => false
  end.

(** The hash step as the specification words it, in [size_t] arithmetic:
    [hash(elem) + 0x9e3779b9 + (seed << 6) + (seed >> 2)]. *)
Definition spec_hash_step (seed h : Z) : Z :=
  (h + 2654435769 + seed * 2 ^ 6 + seed / 2 ^ 2) mod 2 ^ 64.

(** The position an [insert] at the Python index [i] lands on in a sequence
    of length [n], as the specification words it: a negative index counts
    from the end, and the result is clamped to [[0, n]]. *)
Definition spec_insert_position (n i : Z) : Z :=
  Z.max 0 (Z.min n (if i <? 0 then i + n else i)).

(** *** Element access, update and reversal *)

(** The subscript [operator [](index)] of a node. *)
Fixpoint Node_get (node : Node) (index : Z) : result Value :=
  match node with
  | Leaf value => Ok value
  | Branch _ i0 i1 i2 =>
    let '(c, index) := check_index index (Node_size i0) in
    if c then Node_get i0 index else
    let '(c, index) := check_index index (Node_size i1) in
    if c then Node_get i1 index else
    match i2 with
    | None => Undefined
    | Some i2 => Node_get i2 index
    end
  end.

(** The subscript [operator [](index)] of a digit. *)
Definition Digit_get (d : Digit) (index : Z) : result Value :=
  i0 <- deref (Digit_item d 0) ;;
  let '(c, index) := check_index index (Node_size i0) in
  if c then Node_get i0 index else
  i1 <- deref (Digit_item d 1) ;;
  let '(c, index) := check_index index (Node_size i1) in
  if c then Node_get i1 index else
  i2 <- deref (Digit_item d 2) ;;
  let '(c, index) := check_index index (Node_size i2) in
  if c then Node_get i2 index else
  i3 <- deref (Digit_item d 3) ;;
  Node_get i3 index.

(** [tree[index]]. *)
Fixpoint Tree_get (t : Tree) (index : Z) : result Value :=
  match t with
  | Empty => Throw out_of_range
  | Single node => Node_get node index
  | Deep _ ldigit middle rdigit =>
    let '(c, index) := check_index index (Digit_size ldigit) in
    if c then Digit_get ldigit index else
    let '(c, index) := check_index index (Tree_size middle) in
    if c then Tree_get middle index else Digit_get rdigit index
  end.

(** [node->set(index, value)]. *)
Fixpoint Node_set (node : Node) (index : Z) (value : Value) : result Node :=
  match node with
  | Leaf _ => Ok (Leaf value)
  | Branch size i0 i1 i2 =>
    let '(c, index) := check_index index (Node_size i0) in
    if c then
      i0' <- Node_set i0 index value ;;
      Ok (Branch size i0' i1 i2)
    else
    let '(c, index) := check_index index (Node_size i1) in
    if c then
      i1' <- Node_set i1 index value ;;
      Ok (Branch size i0 i1' i2)
    else
      match i2 with
      | None => Undefined
      | Some i2 =>
        i2' <- Node_set i2 index value ;;
        Ok (Branch size i0 i1 (Some i2'))
      end
  end.

(** [digit->set(index, value)]. *)
Definition Digit_set (d : Digit) (index : Z) (value : Value) : result Digit :=
  let size := Digit_size d in
  let order := Digit_order d in
  let item i := Digit_item d i in
  i0 <- deref (item 0) ;;
  let '(c, index) := check_index index (Node_size i0) in
  if c then
    i0' <- Node_set i0 index value ;;
    Ok (Digit_make size order (Some i0') (item 1) (item 2) (item 3))
  else
  i1 <- deref (item 1) ;;
  let '(c, index) := check_index index (Node_size i1) in
  if c then
    i1' <- Node_set i1 index value ;;
    Ok (Digit_make size order (item 0) (Some i1') (item 2) (item 3))
  else
  i2 <- deref (item 2) ;;
  let '(c, index) := check_index index (Node_size i2) in
  if c then
    i2' <- Node_set i2 index value ;;
    Ok (Digit_make size order (item 0) (item 1) (Some i2') (item 3))
  else
  i3 <- deref (item 3) ;;
  i3' <- Node_set i3 index value ;;
  Ok (Digit_make size order (item 0) (item 1) (item 2) (Some i3')).

(** [tree.set(index, value)]. *)
Fixpoint Tree_set (t : Tree) (index : Z) (value : Value) : result Tree :=
  match t with
  | Empty => Throw out_of_range
  | Single node =>
    node' <- Node_set node index value ;;
    Ok (Single node')
  | Deep size ldigit middle rdigit =>
    let '(c, index) := check_index index (Digit_size ldigit) in
    if c then
      ldigit' <- Digit_set ldigit index value ;;
      Ok (Deep size ldigit' middle rdigit)
    else
    let '(c, index) := check_index index (Tree_size middle) in
    if c then
      middle' <- Tree_set middle index value ;;
      Ok (Deep size ldigit middle' rdigit)
    else
      rdigit' <- Digit_set rdigit index value ;;
      Ok (Deep size ldigit middle rdigit')
  end.

(** [Node::reverse(node)]. *)
Fixpoint Node_reverse (node : Node) : Node :=
  match node with
  | Leaf _ => node
  | Branch size i0 i1 (Some i2) =>
    Branch size (Node_reverse i2) (Node_reverse i1) (Some (Node_reverse i0))
  | Branch size i0 i1 None =>
    Branch size (Node_reverse i1) (Node_reverse i0) None
  end.

(** [digit->reverse()]. *)
Definition Digit_reverse (d : Digit) : result Digit :=
  let size := Digit_size d in
  let rev i := (n <- deref (Digit_item d i) ;; Ok (Some (Node_reverse n))) in
  match Digit_order d with
  | 1 =>
    r0 <- rev 0 ;;
    Ok (Digit_make size 1 r0 None None None)
  | 2 =>
    r1 <- rev 1 ;; r0 <- rev 0 ;;
    Ok (Digit_make size 2 r1 r0 None None)
  | 3 =>
    r2 <- rev 2 ;; r1 <- rev 1 ;; r0 <- rev 0 ;;
    Ok (Digit_make size 3 r2 r1 r0 None)
  | 4 =>
    r3 <- rev 3 ;; r2 <- rev 2 ;; r1 <- rev 1 ;; r0 <- rev 0 ;;
    Ok (Digit_make size 4 r3 r2 r1 r0)
  | _ => Throw logic_error
  end.

(** [tree.reverse()]. *)
Fixpoint Tree_reverse (t : Tree) : result Tree :=
  match t with
  | Empty => Ok Empty
  | Single node => Ok (Single (Node_reverse node))
  | Deep _ ldigit middle rdigit =>
    rdigit' <- Digit_reverse rdigit ;;
    middle' <- Tree_reverse middle ;;
    ldigit' <- Digit_reverse ldigit ;;
    Ok (Deep_make rdigit' middle' ldigit')
  end.

(** *** More of [Sequence] *)

(** [seq.empty()]. *)
Definition empty (s : Sequence) : bool := negb (Tree_bool s).

(** [seq.front()] and [seq.back()]. *)
Definition front (s : Sequence) : result Value :=
  match s with
  | Empty => Throw out_of_range
  | Single node => Node_value node
  | Deep _ ldigit _ _ =>
    i0 <- deref (Digit_item ldigit 0) ;;
    Node_value i0
  end.

Definition back (s : Sequence) : result Value :=
  match s with
  | Empty => Throw out_of_range
  | Single node => Node_value node
  | Deep _ _ _ rdigit =>
    last <- deref (Digit_back rdigit) ;;
    Node_value last
  end.

(** [seq.view_front()] and [seq.view_back()]. *)
Definition view_front (s : Sequence) : result (Value * Sequence) :=
  '(head, tail) <- Tree_view_front s ;;
  value <- Node_value head ;;
  Ok (value, tail).

Definition view_back (s : Sequence) : result (Sequence * Value) :=
  '(init, last) <- Tree_view_back s ;;
  value <- Node_value last ;;
  Ok (init, value).

(** [seq[index]] and [seq.at(index)]. *)
Definition subscript (s : Sequence) (index : Z) : result Value :=
  Tree_get s index.

Definition at_index (s : Sequence) (index : Z) : result Value :=
  if index >=? Sequence_size s then Throw out_of_range
  else Tree_get s index.

(** [seq.set(index, value)]. *)
Definition set_index (s : Sequence) (index : Z) (value : Value) : result Sequence :=
  if index >=? Sequence_size s then Throw out_of_range
  else Tree_set s index value.

(** [seq.erase(left, right)]. *)
Definition erase_slice (s : Sequence) (left right : Z) : result Sequence :=
  if left >=? right then Ok s
  else if left =? 0 then drop_front s right
  else if right >=? Sequence_size s then take_front s left
  else
    front <- take_front s left ;;
    back <- drop_front s right ;;
    append front back.

(** [seq.splitat(index)]. *)
Definition splitat (s : Sequence) (index : Z) : result (Sequence * Sequence) :=
  if index >=? Sequence_size s then Ok (s, Empty)
  else
    '(ltree, value, rtree) <- split s index ;;
    rtree <- push_front rtree value ;;
    Ok (ltree, rtree).

(** [seq.reverse()]. *)
Definition reverse (s : Sequence) : result Sequence := Tree_reverse s.

(** The [while(true)] loop of [seq.repeat(times)]. Every round shifts
    [times] right by one bit and the loop ends when [times] is zero, so a
    [size_t] of 64 bits needs 64 rounds at most; [acc] is the variable
    [result] of the source. *)
Fixpoint repeat_loop (fuel : nat) (times : Z) (tree acc : Tree) : result Tree :=
  match fuel with
  | O => Undefined
  | S fuel =>
    acc <- (if negb (Z.land times 1 =? 0) then Tree_append tree acc
            else Ok acc) ;;
    let times := Z.shiftr times 1 in
    if times =? 0 then Ok acc
    else
      tree <- Tree_append tree tree ;;
      repeat_loop fuel times tree acc
  end.

(** [seq.repeat(times)]. *)
Definition repeat (s : Sequence) (times : Z) : result Sequence :=
  if times =? 0 then Ok Empty
  else repeat_loop 64 times s Empty.

(** [less_iterator(xs, xl, ys, yl)] with [xl] and [yl] the end iterators and
    [Compare] the order of two values. *)
Fixpoint less_iterator_loop (fuel : nat) (Compare : Value -> Value -> bool)
  (xs ys : Iterator) : result bool :=
  if Iterator_not_end xs && Iterator_not_end ys then
    match fuel with
    | O => Undefined
    | S fuel =>
      x <- Iterator_deref xs ;;
      y <- Iterator_deref ys ;;
      if Compare x y then Ok true
      else if Compare y x then Ok false
      else
        xs <- Iterator_next false xs ;;
        ys <- Iterator_next false ys ;;
        less_iterator_loop fuel Compare xs ys
    end
  else Ok (Iterator_not_end ys).

(** [seq < that], [seq >= that], [seq > that] and [seq <= that]. *)
Definition Sequence_less (Compare : Value -> Value -> bool) (s that : Sequence)
  : result bool :=
  xs <- Iterator_begin false s ;;
  ys <- Iterator_begin false that ;;
  less_iterator_loop (stack_weight xs) Compare xs ys.

Definition Sequence_greater_equal (Compare : Value -> Value -> bool)
  (s that : Sequence) : result bool :=
  b <- Sequence_less Compare s that ;;
  Ok (negb b).

Definition Sequence_greater (Compare : Value -> Value -> bool) (s that : Sequence)
  : result bool :=
  ys <- Iterator_begin false that ;;
  xs <- Iterator_begin false s ;;
  less_iterator_loop (stack_weight ys) Compare ys xs.

Definition Sequence_less_equal (Compare : Value -> Value -> bool)
  (s that : Sequence) : result bool :=
  b <- Sequence_greater Compare s that ;;
  Ok (negb b).

(** [seq != that]. *)
Definition Sequence_not_equal (Equal : Value -> Value -> bool) (s that : Sequence)
  : result bool :=
  b <- Sequence_equal Equal s that ;;
  Ok (negb b).

(** [for(auto x : seq) xs[n++] = x;], the loop of the [tolist] and
    [totuple] bindings, from the iterator [it] on; with [Reverse], the
    iteration of [__reversed__] from [rbegin()]. *)
Fixpoint collect_loop (fuel : nat) (Reverse : bool) (it : Iterator)
  (xs : list Value) : result (list Value) :=
  if Iterator_not_end it then
    match fuel with
    | O => Undefined
    | S fuel =>
      x <- Iterator_deref it ;;
      it <- Iterator_next Reverse it ;;
      collect_loop fuel Reverse it (xs ++ [x])
    end
  else Ok xs.

Definition tolist (s : Sequence) : result (list Value) :=
  it <- Iterator_begin false s ;;
  collect_loop (stack_weight it) false it [].

Definition reversed (s : Sequence) : result (list Value) :=
  it <- Iterator_begin true s ;;
  collect_loop (stack_weight it) true it [].

(** *** More bindings of [_psequence.cpp] *)

(** [__getitem__(index)], [set(index, value)] and [delete(index)] for an
    integer index, which is a [Py_ssize_t]. *)
Definition py_getitem (s : Sequence) (index : Z) : result Value :=
  index <- Utility.adjust_index1 true (to_ssize (Sequence_size s)) index ;;
  at_index s (usize index).

Definition py_set (s : Sequence) (index : Z) (value : Value) : result Sequence :=
  index <- Utility.adjust_index1 true (to_ssize (Sequence_size s)) index ;;
  set_index s (usize index) value.

Definition py_delete (s : Sequence) (index : Z) : result Sequence :=
  index <- Utility.adjust_index1 true (to_ssize (Sequence_size s)) index ;;
  erase s (usize index).

(** [__mul__(times)]. *)
Definition py_mul (s : Sequence) (times : Z) : result Sequence :=
  repeat s (usize (Z.max 0 times)).

(** The [splitat] binding. *)
Definition py_splitat (s : Sequence) (index : Z) : result (Sequence * Sequence) :=
  let index :=
    if index <? 0 then to_ssize (usize (usize index + Sequence_size s)) else index in
  if index <=? 0 then Ok (Empty, s)
  else if usize index >=? Sequence_size s then Ok (s, Empty)
  else
    '(ltree, value, rtree) <- split s (usize index) ;;
    rtree <- push_front rtree value ;;
    Ok (ltree, rtree).

(** *** More reference operations on lists *)

(** The element at position [i], if there is one. *)
Definition list_nth {A : Type} (i : Z) (l : list A) : option A :=
  nth_error l (Z.to_nat i).

(** The list with the element at position [i] replaced by [v]. *)
Definition list_set {A : Type} (i : Z) (v : A) (l : list A) : list A :=
  firstn (Z.to_nat i) l ++ v :: skipn (S (Z.to_nat i)) l.

(** [n] copies of [l], one after the other. *)
Fixpoint list_repeat {A : Type} (n : nat) (l : list A) : list A :=
  match n with
  | O => []
  | S n => l ++ list_repeat n l
  end.

(** The lexicographic order of two lists over [Compare], as
    [std::lexicographical_compare] defines it. *)
Fixpoint list_less (Compare : Value -> Value -> bool) (xs ys : list Value) : bool :=
  match xs, ys with
  | _, [] => false
  | [], _ :: _ => true
  | x :: xs, y :: ys =>
    if Compare x y then true
    else if Compare y x then false
    else list_less Compare xs ys
  end.

(** The elements the frames of a reverse iterator stand for: those of every
    frame from its last to its first. *)
Definition stack_to_list_rev (stack : list Frame) : list Value :=
  flat_map (fun f => rev (Frame_to_list f)) stack.

(** *** Construction from a range of known length

    The iterator [values] is the list of the values that are left to read:
    [*values] is its head, [++values] moves to its tail, and reading the
    end of the range is undefined. *)

(** [Node::from(depth, values)]: the node, and the iterator after it. *)
Fixpoint Node_from (depth : nat) (values : list Value)
  : result (Node * list Value) :=
  match depth with
  | O =>
    match values with
    | [] => Undefined
    | value :: values => Ok (Leaf value, values)
    end
  | S depth =>
    '(x, values) <- Node_from depth values ;;
    '(y, values) <- Node_from depth values ;;
    '(z, values) <- Node_from depth values ;;
    Ok (Branch (usize (3 * Node_size x)) x y (Some z), values)
  end.

(** The [switch] with fall-through that fills [nodes[k - 1]], ...,
    [nodes[0]], in this order, from [case k] on. *)
Fixpoint from_nodes (k : nat) (depth : nat) (nodes : list NodePtr)
  (values : list Value) : result (list NodePtr * list Value) :=
  match k with
  | O => Ok (nodes, values)
  | S k =>
    '(node, values) <- Node_from depth values ;;
    from_nodes k depth (array_set nodes (Z.of_nat k) (Some node)) values
  end.

(** [Tree::from(count, depth, values)]: the tree, and the iterator after
    it. A call with [count > 8] calls itself with less than a third of
    [count], so a [size_t] count needs fewer than 64 nested calls. *)
Fixpoint Tree_from_loop (fuel : nat) (count : Z) (depth : nat)
  (values : list Value) : result (Tree * list Value) :=
  match fuel with
  | O => Undefined
  | S fuel =>
    if count =? 0 then Ok (Empty, values)
    else if count <=? 8 then
      '(nodes, values) <- from_nodes (Z.to_nat count) depth (null_array 8) values ;;
      let n i := array_get nodes i in
      n0 <- deref (n 0) ;;
      let size := Node_size n0 in
      let digit1 a := Digit_make (usize (1 * size)) 1 a None None None in
      let digit2 a b := Digit_make (usize (2 * size)) 2 a b None None in
      let digit3 a b c := Digit_make (usize (3 * size)) 3 a b c None in
      let digit4 a b c d := Digit_make (usize (4 * size)) 4 a b c d in
      match count with
      | 1 => Ok (Single n0, values)
      | 2 =>
        Ok (Deep (usize (2 * size)) (digit1 (n 1)) Empty (digit1 (n 0)), values)
      | 3 =>
        Ok (Deep (usize (3 * size)) (digit1 (n 2)) Empty (digit2 (n 1) (n 0)), values)
      | 4 =>
        Ok (Deep (usize (4 * size)) (digit2 (n 3) (n 2)) Empty
              (digit2 (n 1) (n 0)), values)
      | 5 =>
        Ok (Deep (usize (5 * size)) (digit2 (n 4) (n 3)) Empty
              (digit3 (n 2) (n 1) (n 0)), values)
      | 6 =>
        Ok (Deep (usize (6 * size)) (digit3 (n 5) (n 4) (n 3)) Empty
              (digit3 (n 2) (n 1) (n 0)), values)
      | 7 =>
        Ok (Deep (usize (7 * size)) (digit3 (n 6) (n 5) (n 4)) Empty
              (digit4 (n 3) (n 2) (n 1) (n 0)), values)
      | 8 =>
        Ok (Deep (usize (8 * size)) (digit4 (n 7) (n 6) (n 5) (n 4)) Empty
              (digit4 (n 3) (n 2) (n 1) (n 0)), values)
      | _ => Throw logic_error
      end
    else
      '(n0, values) <- Node_from depth values ;;
      '(n1, values) <- Node_from depth values ;;
      '(n2, values) <- Node_from depth values ;;
      let ldigit :=
        Digit_make (usize (3 * Node_size n0)) 3 (Some n0) (Some n1) (Some n2) None in
      '(middle, values) <-
        Tree_from_loop fuel (usize (usize (count + 2) / 3 - 2)) (S depth) values ;;
      '(rdigit, values) <-
        match count mod 3 with
        | 1 =>
          '(nodes, values) <- from_nodes 1 depth (null_array 3) values ;;
          r0 <- deref (array_get nodes 0) ;;
          Ok (Digit_make1 r0, values)
        | 2 =>
          '(nodes, values) <- from_nodes 2 depth (null_array 3) values ;;
          r1 <- deref (array_get nodes 1) ;;
          r0 <- deref (array_get nodes 0) ;;
          Ok (Digit_make2 r1 r0, values)
        | 0 =>
          '(nodes, values) <- from_nodes 3 depth (null_array 3) values ;;
          r2 <- deref (array_get nodes 2) ;;
          r1 <- deref (array_get nodes 1) ;;
          r0 <- deref (array_get nodes 0) ;;
          Ok (Digit_make3 r2 r1 r0, values)
        | _ => Throw logic_error
        end ;;
      Ok (Deep_make ldigit middle rdigit, values)
  end.

Definition Tree_from (count : Z) (depth : nat) (values : list Value)
  : result (Tree * list Value) :=
  Tree_from_loop 64 count depth values.

(** [Sequence(size, left)]: the first [size] values of a range. *)
Definition from_count (size : Z) (values : list Value) : result Sequence :=
  '(tree, _) <- Tree_from size 0 values ;;
  Ok tree.

(** [Sequence(left, right)] for random access iterators: the whole range. *)
Definition from_range (values : list Value) : result Sequence :=
  from_count (usize (Z.of_nat (length values))) values.

(** *** Mapping a function over the elements

    [transform] is written for a function from [Value] to any type; the
    nodes it builds with [Node::make] are nodes of [Sequence<Value>], so it
    is modelled for a function from [Value] to [Value]. *)

(** [node->transform(func)]. *)
Fixpoint Node_transform (func : Value -> Value) (node : Node) : Node :=
  match node with
  | Leaf value => Leaf (func value)
  | Branch size i0 i1 i2 =>
    Branch size (Node_transform func i0) (Node_transform func i1)
      match i2 with
      | Some i2 => Some (Node_transform func i2)
      | None => None
      end
  end.

(** [digit->transform(func)]. *)
Definition Digit_transform (func : Value -> Value) (d : Digit) : result Digit :=
  let item i :=
    (n <- deref (Digit_item d i) ;; Ok (Some (Node_transform func n))) in
  '(i0, i1, i2, i3) <-
    match Digit_order d with
    | 4 =>
      i3 <- item 3 ;; i2 <- item 2 ;; i1 <- item 1 ;; i0 <- item 0 ;;
      Ok (i0, i1, i2, i3)
    | 3 =>
      i2 <- item 2 ;; i1 <- item 1 ;; i0 <- item 0 ;;
      Ok (i0, i1, i2, None)
    | 2 =>
      i1 <- item 1 ;; i0 <- item 0 ;;
      Ok (i0, i1, None, None)
    | 1 =>
      i0 <- item 0 ;;
      Ok (i0, None, None, None)
    | _ => Throw logic_error
    end ;;
  Ok (Digit_make (Digit_size d) (Digit_order d) i0 i1 i2 i3).

(** [tree.transform(func)]. *)
Fixpoint Tree_transform (func : Value -> Value) (t : Tree) : result Tree :=
  match t with
  | Empty => Ok Empty
  | Single node => Ok (Single (Node_transform func node))
  | Deep size ldigit middle rdigit =>
    ldigit' <- Digit_transform func ldigit ;;
    middle' <- Tree_transform func middle ;;
    rdigit' <- Digit_transform func rdigit ;;
    Ok (Deep size ldigit' middle' rdigit')
  end.

(** [seq.transform(func)]. *)
Definition transform (func : Value -> Value) (s : Sequence) : result Sequence :=
  Tree_transform func s.

End Sequence.


(** Two sequences of integers: 1 to 12 built by [push_back], and the
    three elements 7, 8, 9. *)
Definition sample : @Sequence Z :=
  Eval vm_compute in
    match from_list [1; 2; 3; 4; 5; 6; 7; 8; 9; 10; 11; 12] with
    | Ok s => s
    | _ => Empty
    end.

Definition sample_789 : @Sequence Z :=
  Eval vm_compute in
    match from_list [7; 8; 9] with
    | Ok s => s
    | _ => Empty
    end.

End Sequence.

(** * Properties *)

(** ** Facts about the machine model *)

Module CxxFacts.

Lemma usize_small x : 0 <= x < size_modulus -> usize x = x.
Proof. intros H. unfold usize. now apply Z.mod_small. Qed.

Lemma size_modulus_eq : size_modulus = 18446744073709551616.
Proof. reflexivity. Qed.

Lemma usize_eq x : usize x = x mod 18446744073709551616.
Proof. reflexivity. Qed.

Lemma usize_range x : 0 <= usize x < size_modulus.
Proof. unfold usize. apply Z.mod_pos_bound. reflexivity. Qed.

Lemma ssize_ok x : ssize_min <= x <= ssize_max -> ssize x = Ok x.
Proof.
  intros [H1 H2]. unfold ssize, in_ssize.
  apply Z.leb_le in H1. apply Z.leb_le in H2. now rewrite H1, H2.
Qed.

Lemma ssize_overflow x : ssize_max < x \/ x < ssize_min -> ssize x = Undefined.
Proof.
  intros H. unfold ssize, in_ssize.
  destruct (Z.leb_spec ssize_min x), (Z.leb_spec x ssize_max); try reflexivity; lia.
Qed.

Lemma bind_ok {A B} (c : result A) (k : A -> result B) a :
  c = Ok a -> bind c k = k a.
Proof. now intros ->. Qed.

Lemma bind_inv_ok {A B} (c : result A) (k : A -> result B) b :
  bind c k = Ok b -> exists a, c = Ok a /\ k a = Ok b.
Proof. destruct c; simpl; intros H; try discriminate. now exists a. Qed.

End CxxFacts.

Import CxxFacts.

(** ** Slice adjustment *)

Module UtilityFacts.
Import Utility.

Lemma arith_never_throws sign x e : arith sign x <> Throw e.
Proof. unfold arith, ssize. destruct sign; [destruct (in_ssize x)|]; discriminate. Qed.

Lemma bind_never_throws {A B} (c : result A) (k : A -> result B) :
  (forall e, c <> Throw e) -> (forall a e, k a <> Throw e) ->
  forall e, bind c k <> Throw e.
Proof.
  intros Hc Hk e. destruct c as [a|e'|]; simpl; [apply Hk | now destruct (Hc e') | discriminate].
Qed.

Ltac no_throw :=
  repeat first
    [ apply arith_never_throws
    | discriminate
    | apply bind_never_throws; intros
    | match goal with |- context [if ?b then _ else _] => destruct b end ].

Lemma adjust_bound_never_throws sign length step i e :
  adjust_bound sign length step i <> Throw e.
Proof. revert e. unfold adjust_bound. no_throw. Qed.

Lemma adjust_index_no_throw sign length start stop step e :
  step <> 0 -> adjust_index sign length start stop step <> Throw e.
Proof.
  intros Hs. unfold adjust_index.
  destruct (Z.eqb_spec step 0) as [|_]; [contradiction|].
  revert e. apply bind_never_throws; [intros; apply adjust_bound_never_throws|intros].
  apply bind_never_throws; [intros; apply adjust_bound_never_throws|intros].
  no_throw.
Qed.

(** The adjusted bound is the clamped index of the specification. *)
Lemma adjust_bound_spec length step i :
  0 <= length <= ssize_max -> ssize_min <= i <= ssize_max ->
  adjust_bound true length step i = Ok (spec_clamp length step i).
Proof.
  intros Hl Hi. unfold adjust_bound, spec_clamp, arith. cbn [andb].
  destruct (Z.ltb_spec i 0).
  - rewrite ssize_ok by (unfold ssize_min, ssize_max in *; lia). cbn [bind].
    destruct (Z.ltb_spec (i + length) 0), (Z.ltb_spec step 0);
      try lia; try rewrite ssize_ok by (unfold ssize_min, ssize_max in *; lia);
      f_equal; lia.
  - destruct (Z.geb_spec i length), (Z.ltb_spec step 0);
      try lia; try rewrite ssize_ok by (unfold ssize_min, ssize_max in *; lia);
      f_equal; lia.
Qed.

Lemma spec_clamp_range length step i :
  0 <= length -> -1 <= spec_clamp length step i <= length.
Proof. intros. unfold spec_clamp. destruct (i <? 0), (step <? 0); lia. Qed.

Lemma spec_clamp_range_neg length step i :
  0 <= length -> step < 0 -> -1 <= spec_clamp length step i <= length - 1.
Proof.
  intros. unfold spec_clamp. destruct (i <? 0), (Z.ltb_spec step 0); lia.
Qed.

Lemma spec_clamp_range_pos length step i :
  0 <= length -> 0 <= step -> 0 <= spec_clamp length step i <= length.
Proof.
  intros. unfold spec_clamp. destruct (i <? 0), (Z.ltb_spec step 0); lia.
Qed.

Lemma visited_reverse cs step n :
  visited (cs + (Z.of_nat n - 1) * step) (- step) n = rev (visited cs step n).
Proof.
  unfold visited. induction n as [|n IH].
  - reflexivity.
  - rewrite seq_S at 2. rewrite map_app, rev_app_distr. cbn [map rev app plus].
    cbn [seq map]. f_equal; [lia|].
    rewrite <- seq_shift, map_map, <- IH.
    apply map_ext. intros k. lia.
Qed.

Lemma ceil_div_count a s : 0 <= a -> 0 < s -> ceil_div (a + 1) s = a / s + 1.
Proof.
  intros Ha Hs. unfold ceil_div.
  replace (a + 1 + s - 1) with (a + 1 * s) by lia.
  now rewrite Z.div_add by lia.
Qed.

(** The signed arithmetic of [adjust_index] overflows for the least step,
    and for an empty reverse slice whose rewritten start is too large. *)
Lemma adjust_index_overflows length start stop step :
  0 <= length <= ssize_max ->
  ssize_min <= start <= ssize_max ->
  ssize_min <= stop <= ssize_max ->
  ssize_min <= step <= ssize_max ->
  step < 0 ->
  step = ssize_min
  \/ (spec_count (spec_clamp length step start) (spec_clamp length step stop) step = 0
      /\ ssize_max < spec_clamp length step start - step) ->
  adjust_index true length start stop step = Undefined.
Proof.
  intros Hl Hstart Hstop Hstep Hneg Hbad. unfold adjust_index.
  destruct (Z.eqb_spec step 0) as [|_]; [lia|].
  rewrite !adjust_bound_spec by assumption. cbn [bind andb].
  set (cs := spec_clamp length step start) in *.
  set (ce := spec_clamp length step stop) in *.
  assert (Hcs : -1 <= cs <= length - 1) by (apply spec_clamp_range_neg; lia).
  assert (Hce : -1 <= ce <= length - 1) by (apply spec_clamp_range_neg; lia).
  unfold arith.
  destruct (Z.ltb_spec step 0) as [_|]; [|lia].
  destruct (Z.ltb_spec ce cs) as [Hlt|Hge].
  - assert (Hs : step = ssize_min).
    { destruct Hbad as [Hs|[Hc _]]; [exact Hs|exfalso].
      unfold spec_count in Hc.
      destruct (Z.ltb_spec 0 step) as [|_]; [lia|]. cbn [andb] in Hc.
      destruct (Z.ltb_spec step 0) as [_|]; [|lia]. cbn [andb] in Hc.
      destruct (Z.ltb_spec ce cs) as [_|]; [|lia].
      replace (Z.abs (ce - cs)) with ((cs - ce - 1) + 1) in Hc by lia.
      rewrite ceil_div_count in Hc by lia.
      assert (0 <= (cs - ce - 1) / Z.abs step) by (apply Z.div_pos; lia).
      lia. }
    repeat (rewrite ssize_ok by (unfold ssize_min, ssize_max in *; lia); cbn [bind]).
    rewrite (ssize_overflow (- step)) by (unfold ssize_min, ssize_max in *; lia).
    reflexivity.
  - cbn [bind].
    repeat (rewrite ssize_ok by (unfold ssize_min, ssize_max in *; lia); cbn [bind]).
    destruct (Z.eq_dec step ssize_min) as [Hs|Hs].
    + rewrite (ssize_overflow ((0 - 1) * step)) by (unfold ssize_min, ssize_max in *; lia).
      reflexivity.
    + destruct Hbad as [|[_ Hbig]]; [contradiction|].
      rewrite (ssize_ok ((0 - 1) * step)) by (unfold ssize_min, ssize_max in *; lia).
      cbn [bind].
      rewrite (ssize_overflow (cs + (0 - 1) * step))
        by (unfold ssize_min, ssize_max in *; lia).
      reflexivity.
Qed.

(** C6. [adjust_index(n, start, stop, step)] at a signed index type throws
    exactly when [step == 0]. Otherwise, as long as no signed overflow occurs
    (the step is not the least [ssize_t], and for an empty reverse slice the
    rewritten start is representable), it returns the count
    [ceil(|stop - start| / |step|)] of the wrapped and clamped bounds when the
    direction matches the sign of the step and 0 otherwise; a positive step
    leaves the clamped bounds in place, and a negative step is rewritten to
    a forward slice with the positive step [-step] that visits the same
    indices, in the opposite order, and has the same count. For the other
    negative steps the signed arithmetic of the source overflows, which is
    undefined behaviour: the function neither throws nor returns a result
    the language defines. *)
Theorem adjust_index_spec length start stop step :
  0 <= length <= ssize_max ->
  ssize_min <= start <= ssize_max ->
  ssize_min <= stop <= ssize_max ->
  ssize_min <= step <= ssize_max ->
  let cs := spec_clamp length step start in
  let ce := spec_clamp length step stop in
  (step = 0 <-> exists e, adjust_index true length start stop step = Throw e) /\
  (step <> 0 ->
   (step < 0 -> ssize_min < step /\
                (spec_count cs ce step = 0 -> cs - step <= ssize_max)) ->
   exists count start' stop' step',
     adjust_index true length start stop step = Ok (count, start', stop', step') /\
     count = spec_count cs ce step /\
     0 <= count /\
     (0 < step -> start' = cs /\ stop' = ce /\ step' = step) /\
     (step < 0 ->
        step' = - step /\ stop' = cs + 1 /\
        (0 < count -> start' = cs + (count - 1) * step) /\
        visited start' step' (Z.to_nat count) = rev (visited cs step (Z.to_nat count)) /\
        spec_count start' stop' step' = count)) /\
  (step < 0 ->
   step = ssize_min \/ (spec_count cs ce step = 0 /\ ssize_max < cs - step) ->
   adjust_index true length start stop step = Undefined).
Proof.
  intros Hl Hstart Hstop Hstep cs ce. split.
  { split.
    - intros ->. exists out_of_range. reflexivity.
    - intros [e He]. destruct (Z.eq_dec step 0) as [|Hn]; [assumption|].
      exfalso. revert He. now apply adjust_index_no_throw. }
  split; [|apply (adjust_index_overflows length start stop step); assumption].
  intros Hnz Hov. unfold adjust_index.
  destruct (Z.eqb_spec step 0) as [|_]; [contradiction|].
  rewrite !adjust_bound_spec by assumption. cbn [bind andb].
  fold cs ce.
  assert (Hcs : -1 <= cs <= length) by (apply spec_clamp_range; lia).
  assert (Hce : -1 <= ce <= length) by (apply spec_clamp_range; lia).
  unfold arith.
  destruct (Z.ltb_spec step 0) as [Hneg|Hpos].
  - destruct (Hov Hneg) as [Hmin Hempty].
    assert (Hcs' : -1 <= cs <= length - 1) by (apply spec_clamp_range_neg; lia).
    assert (Hce' : -1 <= ce <= length - 1) by (apply spec_clamp_range_neg; lia).
    unfold spec_count in Hempty |- *.
    destruct (Z.ltb_spec 0 step) as [|_]; [lia|]. cbn [andb] in *.
    destruct (Z.ltb_spec step 0) as [_|]; [|lia]. cbn [andb] in *.
    destruct (Z.ltb_spec ce cs) as [Hlt|Hge].
    + set (q := (cs - ce - 1) / - step).
      assert (Hq : 0 <= q) by (apply Z.div_pos; lia).
      assert (Hq' : q * (- step) <= cs - ce - 1)
        by (unfold q; rewrite Z.mul_comm; apply Z.mul_div_le; lia).
      assert (Hc : ceil_div (Z.abs (ce - cs)) (Z.abs step) = q + 1).
      { replace (Z.abs (ce - cs)) with ((cs - ce - 1) + 1) by lia.
        replace (Z.abs step) with (- step) by lia.
        apply ceil_div_count; lia. }
      rewrite Hc in *.
      repeat (rewrite ssize_ok by (unfold ssize_min, ssize_max in *; nia); cbn [bind]).
      fold q.
      repeat (rewrite ssize_ok by (unfold ssize_min, ssize_max in *; nia); cbn [bind]).
      replace (q + 1 - 1) with q by lia.
      repeat (rewrite ssize_ok by (unfold ssize_min, ssize_max in *; nia); cbn [bind]).
      do 4 eexists. split; [reflexivity|].
      split; [reflexivity|]. split; [lia|]. split; [lia|]. intros _.
      split; [reflexivity|]. split; [reflexivity|]. split; [intros; f_equal; lia|].
      split.
      * replace (cs + q * step) with (cs + (Z.of_nat (Z.to_nat (q + 1)) - 1) * step)
          by (rewrite Z2Nat.id by lia; f_equal; lia).
        apply visited_reverse.
      * destruct (Z.ltb_spec 0 (- step)) as [_|]; [|lia].
        destruct (Z.ltb_spec (cs + q * step) (cs + 1)) as [_|]; [|nia].
        cbn [andb].
        replace (Z.abs (cs + 1 - (cs + q * step))) with (q * (- step) + 1) by nia.
        replace (Z.abs (- step)) with (- step) by lia.
        rewrite ceil_div_count by nia. now rewrite Z.div_mul by lia.
    + specialize (Hempty eq_refl).
      cbn [bind].
      repeat (rewrite ssize_ok by (unfold ssize_min, ssize_max in *; nia); cbn [bind]).
      do 4 eexists. split; [reflexivity|].
      split; [reflexivity|]. split; [lia|]. split; [lia|]. intros _.
      split; [reflexivity|]. split; [reflexivity|]. split; [lia|].
      split; [reflexivity|].
      destruct (Z.ltb_spec 0 (- step)) as [_|]; [|lia].
      destruct (Z.ltb_spec (cs + (0 - 1) * step) (cs + 1)); [lia|].
      destruct (Z.ltb_spec (- step) 0); [lia|]. reflexivity.
  - assert (Hp : 0 < step) by lia.
    assert (Hcs' : 0 <= cs <= length) by (apply spec_clamp_range_pos; lia).
    assert (Hce' : 0 <= ce <= length) by (apply spec_clamp_range_pos; lia).
    unfold spec_count.
    destruct (Z.ltb_spec 0 step) as [_|]; [|lia]. cbn [andb].
    destruct (Z.ltb_spec cs ce) as [Hlt|Hge].
    + set (q := (ce - cs - 1) / step).
      assert (Hq : 0 <= q) by (apply Z.div_pos; lia).
      assert (Hq' : q * step <= ce - cs - 1)
        by (unfold q; rewrite Z.mul_comm; apply Z.mul_div_le; lia).
      assert (Hc : ceil_div (Z.abs (ce - cs)) (Z.abs step) = q + 1).
      { replace (Z.abs (ce - cs)) with ((ce - cs - 1) + 1) by lia.
        replace (Z.abs step) with step by lia.
        apply ceil_div_count; lia. }
      rewrite Hc.
      repeat (rewrite ssize_ok by (unfold ssize_min, ssize_max in *; nia); cbn [bind]).
      fold q.
      repeat (rewrite ssize_ok by (unfold ssize_min, ssize_max in *; nia); cbn [bind]).
      do 4 eexists. split; [reflexivity|].
      split; [reflexivity|]. split; [lia|]. split; [auto|]. lia.
    + cbn [bind]. destruct (Z.ltb_spec step 0) as [|_]; [lia|]. cbn [andb].
      do 4 eexists. split; [reflexivity|].
      split; [reflexivity|]. split; [lia|]. split; [auto|]. lia.
Qed.

(** The slice [8:1:-3] of a sequence of length 10 visits 8, 5, 2; it is
    rewritten to the forward slice [2:9:3]. *)
Lemma adjust_index_spec_witness :
  0 <= 10 <= ssize_max /\ (-3 <> 0) /\
  adjust_index true 10 8 1 (-3) = Ok (3, 2, 9, 3) /\
  visited 2 3 3 = rev (visited 8 (-3) 3).
Proof.
  assert (R : forall x, -10 <= x <= 10 -> ssize_min <= x <= ssize_max)
    by (unfold ssize_min, ssize_max; lia).
  assert (L : 0 <= 10 <= ssize_max) by (unfold ssize_max; lia).
  assert (N : -3 <> 0) by lia.
  split; [exact L|]. split; [exact N|].
  destruct (adjust_index_spec 10 8 1 (-3) L (R 8 ltac:(lia)) (R 1 ltac:(lia))
              (R (-3) ltac:(lia))) as [_ [H _]].
  destruct (H N) as (count & start' & stop' & step' & E & C & _ & _ & V).
  { intros _. vm_compute. split; [reflexivity|]. intros _. discriminate. }
  destruct (V ltac:(lia)) as (S1 & S2 & S3 & S4 & _).
  assert (C3 : count = 3) by (rewrite C; vm_compute; reflexivity).
  subst count. rewrite S3 in E by lia.
  rewrite S1, S2 in E. rewrite S1, S3 in S4 by lia.
  split; [exact E|exact S4].
Defined.

(** Not every non-zero step returns: for the least step, and for an empty
    reverse slice with a step of large magnitude, the call neither throws
    nor returns, since [- step] and [start + (count - 1) * step] overflow. *)
Lemma adjust_index_spec_counterexample :
  (ssize_min =? 0) = false
  /\ adjust_index true 5 0 5 ssize_min = Undefined
  /\ adjust_index true 10 5 5 (- ssize_max) = Undefined.
Proof. repeat split. Qed.

End UtilityFacts.

(** ** The sorted map *)

Module SortedMapFacts.
Import SortedMap.

(** [balance] never returns a null pointer, so [notnone] passes its result
    through. *)
Lemma balance_not_null {Key Value : Type} (k : Key) (v : Value) l r p :
  balance k v l r = Ok p -> p <> nullptr.
Proof.
  unfold balance, make, make_sized.
  repeat match goal with
  | |- context [if ?b then _ else _] => destruct b
  | |- context [bind ?c _] => destruct c; cbn [bind]
  end; intros H; inversion H; discriminate.
Qed.

(** C8. Size consistency fails after three node-level inserts: inserting
    the keys 1, 2, 3 into the empty tree gives the root 2 of size 3 whose
    left child, the node of key 1, has the cached size 0 instead of 1,
    because a node built from a key, a value and two children gets the size
    [sizes(left) + sizes(right)], without the one for the node itself. *)
Theorem insert_breaks_size_consistency :
  map_123
  = Ok (node 2 20 3 (node 1 10 0 nullptr nullptr) (node 3 30 1 nullptr nullptr))
  /\ (exists t, map_123 = Ok t /\ size_consistent t = false).
Proof.
  split; [reflexivity|]. eexists. split; reflexivity.
Qed.

(** C10. Inserting a key that is present changes the size and the shape of
    a tree built by inserts: the tree of the keys 1 to 7 contains the key 1
    and has a root of size 3; after inserting the key 1 again it has the
    same keys, but its root has size 6 and its shape has changed (the search
    path was rotated). *)
Theorem reinsert_changes_size_and_shape :
  exists t t',
    map_1_to_7 = Ok t /\ contains Z.ltb t 1 = true
    /\ insert Z.ltb t 1 77 = Ok t'
    /\ keys t' = keys t /\ count t' = count t
    /\ sizes t = 3 /\ sizes t' = 6
    /\ shape_of t' <> shape_of t.
Proof.
  do 2 eexists. split; [reflexivity|]. split; [reflexivity|].
  split; [reflexivity|]. repeat split; discriminate.
Qed.

End SortedMapFacts.

(** ** The finger tree *)

Module SequenceFacts.
Import Sequence.

#[local] Opaque usize size_modulus.

Section Facts.

Context {Value : Type}.

Implicit Types (n : @Node Value) (dg : @Digit Value) (t : @Tree Value).

(** *** Sizes *)

Lemma Node_wf_size d n :
  Node_wf d n ->
  Node_size n = Z.of_nat (length (Node_to_list n)) /\ 1 <= Node_size n < size_modulus.
Proof.
  revert n. induction d as [|d IH]; intros [v|s a b c]; simpl; try contradiction.
  - intros _. split; [reflexivity|]. pose proof size_modulus_eq. lia.
  - intros (Ha & Hb & Hc & Hs & Hlt).
    destruct (IH _ Ha) as [Ea Ra], (IH _ Hb) as [Eb Rb].
    rewrite !length_app.
    destruct c as [c|]; simpl in *.
    + destruct (IH _ Hc) as [Ec Rc]. lia.
    + lia.
Qed.

Lemma Digit_wf_shape d dg : Digit_wf d dg -> Digit_shape d dg.
Proof.
  destruct dg as [s o its]. unfold Digit_wf. intros H.
  destruct o as [|p|p]; try contradiction.
  destruct p as [[[p|p|]|[p|p|]|]|[[p|p|]|[p|p|]|]|]; try contradiction;
    destruct its as [|[n0|] [|[n1|] [|[n2|] [|[n3|] [|? ?]]]]]; try contradiction.
  all: decompose [and] H; clear H; subst s.
  - now constructor.
  - now constructor.
  - now constructor.
  - now constructor.
Qed.

Lemma Digit_shape_wf d dg : Digit_shape d dg -> Digit_wf d dg.
Proof.
  intros []; simpl; repeat split; auto.
Qed.

Lemma Digit_wf_size d dg :
  Digit_wf d dg ->
  Digit_size dg = Z.of_nat (length (Digit_to_list dg)) /\ 1 <= Digit_size dg < size_modulus.
Proof.
  intros H. apply Digit_wf_shape in H. destruct H;
    repeat match goal with
    | H : Node_wf _ _ |- _ => apply Node_wf_size in H; destruct H
    end;
    cbn; rewrite ?length_app; cbn [length]; lia.
Qed.

Lemma Tree_wf_size t : forall d,
  Tree_wf d t ->
  Tree_size t = Z.of_nat (length (Tree_to_list t)) /\ 0 <= Tree_size t < size_modulus.
Proof.
  induction t as [|n|s l m IH r]; intros d; simpl.
  - intros _. split; [reflexivity|]. pose proof size_modulus_eq. lia.
  - intros H. apply Node_wf_size in H. lia.
  - intros (Hl & Hm & Hr & Hs & Hlt).
    apply Digit_wf_size in Hl, Hr. apply IH in Hm.
    rewrite !length_app. lia.
Qed.

End Facts.

(** *** Proof automation *)

(** Record the size facts of every well-formed part in the context. *)
Ltac size_facts :=
  repeat match goal with
  | H : Node_wf ?d ?n |- _ =>
    lazymatch goal with
    | _ : Node_size n = Z.of_nat (length (Node_to_list n)) |- _ => fail
    | _ => destruct (Node_wf_size d n H) as [? ?]
    end
  | H : Digit_wf ?d ?dg |- _ =>
    lazymatch goal with
    | _ : Digit_size dg = Z.of_nat (length (Digit_to_list dg)) |- _ => fail
    | _ => destruct (Digit_wf_size d dg H) as [? ?]
    end
  | H : Tree_wf ?d ?t |- _ =>
    lazymatch goal with
    | _ : Tree_size t = Z.of_nat (length (Tree_to_list t)) |- _ => fail
    | _ => destruct (Tree_wf_size t d H) as [? ?]
    end
  end.

(** Remove the [size_t] wrap-around where the value is in range. *)
Ltac usz :=
  repeat match goal with
  | |- context [usize ?x] => rewrite (usize_small x) by lia
  end.

Ltac usz_in H :=
  repeat match type of H with
  | context [usize ?x] => rewrite (usize_small x) in H by lia
  end.

(** Replace a well-formed digit by one of its four shapes. *)
Ltac inv_digit H :=
  apply Digit_wf_shape in H; destruct H.

Ltac app_nil :=
  repeat match goal with
  | |- context [?l ++ []] => rewrite (app_nil_r l)
  end.

Ltac list_norm := rewrite <- ?app_assoc; app_nil; cbn [app]; app_nil.

Ltac finish :=
  cbn; usz; repeat split; auto; try lia; try (list_norm; reflexivity).

Section Facts.

Context {Value : Type}.
Implicit Types (n : @Node Value) (dg : @Digit Value) (t : @Tree Value).

(** *** Pushing at the ends *)

Lemma Tree_push_front_spec t : forall d x,
  Tree_wf d t -> Node_wf d x -> Tree_size t + Node_size x < size_modulus ->
  exists t',
    Tree_push_front t x = Ok t' /\ Tree_wf d t'
    /\ Tree_to_list t' = Node_to_list x ++ Tree_to_list t
    /\ Tree_size t' = Tree_size t + Node_size x.
Proof.
  induction t as [|n|s l m IH r]; intros d x Ht Hx Hb.
  - eexists. split; [reflexivity|]. finish.
  - cbn in *. size_facts. eexists. split; [reflexivity|]. finish.
  - cbn in Ht, Hb. destruct Ht as (Hl & Hm & Hr & Hs & Hlt).
    inv_digit Hl; size_facts; cbn in *.
    1-3: eexists; split; [reflexivity|]; finish.
    destruct (IH (S d) (Branch (usize (Node_size n0 + Node_size n1 + Node_size n2 + Node_size n3 - Node_size n0)) n1 n2 (Some n3)))
      as (m' & Em & Hm' & Lm & Sm); auto.
    { finish. }
    { cbn. usz. lia. }
    rewrite Em. cbn. eexists; split; [reflexivity|]. cbn in *. usz_in Sm.
    finish. rewrite Lm. finish.
Qed.

Lemma Tree_push_back_spec t : forall d x,
  Tree_wf d t -> Node_wf d x -> Tree_size t + Node_size x < size_modulus ->
  exists t',
    Tree_push_back t x = Ok t' /\ Tree_wf d t'
    /\ Tree_to_list t' = Tree_to_list t ++ Node_to_list x
    /\ Tree_size t' = Tree_size t + Node_size x.
Proof.
  induction t as [|n|s l m IH r]; intros d x Ht Hx Hb.
  - eexists. split; [reflexivity|]. finish.
  - cbn in *. size_facts. eexists. split; [reflexivity|]. finish.
  - cbn in Ht, Hb. destruct Ht as (Hl & Hm & Hr & Hs & Hlt).
    inv_digit Hr; size_facts; cbn in *.
    1-3: eexists; split; [reflexivity|]; finish.
    destruct (IH (S d) (Branch (usize (Node_size n0 + Node_size n1 + Node_size n2 + Node_size n3 - Node_size n3)) n0 n1 (Some n2)))
      as (m' & Em & Hm' & Lm & Sm); auto.
    { finish. }
    { cbn. usz. lia. }
    rewrite Em. cbn. eexists; split; [reflexivity|]. cbn in *. usz_in Sm.
    finish. rewrite Lm. finish.
Qed.

End Facts.

(** *** Concatenation *)

(** Run the next [push_front] of the goal through its specification. *)
Ltac step_push_front d :=
  match goal with
  | |- context [Tree_push_front ?t ?x] =>
    let t' := fresh "t" in
    let E := fresh "E" in
    let W := fresh "W" in
    let L := fresh "L" in
    let Sz := fresh "Sz" in
    destruct (Tree_push_front_spec t d x) as (t' & E & W & L & Sz);
    [ assumption
    | cbn; usz; repeat split; auto; lia
    | cbn; usz; lia
    | rewrite E; cbn [bind]; cbn in Sz; usz_in Sz ]
  end.

Section Facts.

Context {Value : Type}.
Implicit Types (n : @Node Value) (dg : @Digit Value) (t : @Tree Value).

Lemma Tree_append_spec s : forall d t,
  Tree_wf d s -> Tree_wf d t -> Tree_size s + Tree_size t < size_modulus ->
  exists r,
    Tree_append s t = Ok r /\ Tree_wf d r
    /\ Tree_to_list r = Tree_to_list s ++ Tree_to_list t
    /\ Tree_size r = Tree_size s + Tree_size t.
Proof.
  induction s as [|n|ls ll lm IH lr]; intros d t Hs Ht Hb.
  - exists t. cbn. auto.
  - cbn in *. destruct (Tree_push_front_spec t d n) as (r & E & W & L & Sz); auto; [lia|].
    exists r. repeat split; auto. lia.
  - destruct t as [|n|rs rl rm rr].
    + exists (Deep ls ll lm lr). split; [reflexivity|]. split; [assumption|].
      split; [simpl; now rewrite app_nil_r|]. simpl. lia.
    + cbn [Tree_append].
      destruct (Tree_push_back_spec (Deep ls ll lm lr) d n) as (r & E & W & L & Sz); auto.
      exists r. repeat split; auto.
    + cbn in Hs, Ht, Hb.
      destruct Hs as (Hll & Hlm & Hlr & Hls & Hllt).
      destruct Ht as (Hrl & Hrm & Hrr & Hrs & Hrlt).
      inv_digit Hlr; inv_digit Hrl; size_facts; cbn in *.
      all: repeat step_push_front (S d).
      all: match goal with
           | IH' : forall d t, Tree_wf d ?m -> _ |- context [Tree_append ?m ?x] =>
             destruct (IH' (S d) x) as (m' & Em & Wm & Lm & Sm); [assumption|assumption|lia|]
           end.
      all: rewrite Em; cbn [bind]; eexists; split; [reflexivity|].
      all: finish.
      all: rewrite Lm; repeat match goal with H : Tree_to_list _ = _ |- _ => rewrite H end.
      all: cbn; list_norm; reflexivity.
Qed.

(** *** Views of the ends *)

Lemma Tree_from_digit_spec d dg :
  Digit_wf d dg ->
  exists t,
    Tree_from_digit dg = Ok t /\ Tree_wf d t
    /\ Tree_to_list t = Digit_to_list dg /\ Tree_size t = Digit_size dg.
Proof.
  intros H. inv_digit H; size_facts; eexists; (split; [reflexivity|]); finish.
Qed.

Lemma Digit_from_node_spec d n :
  Node_wf (S d) n ->
  exists dg,
    Digit_from_node n = Ok dg /\ Digit_wf d dg
    /\ Digit_to_list dg = Node_to_list n /\ Digit_size dg = Node_size n.
Proof.
  destruct n as [v|s a b [c|]]; cbn; try contradiction;
    intros (Ha & Hb & Hc & Hs & Hlt); size_facts;
    eexists; (split; [reflexivity|]); finish.
Qed.

Lemma pull_left_with_spec vf d m r :
  view_front_ok vf (S d) m ->
  Tree_wf (S d) m -> Digit_wf d r -> Tree_size m + Digit_size r < size_modulus ->
  exists t,
    pull_left_with vf m r = Ok t /\ Tree_wf d t
    /\ Tree_to_list t = Tree_to_list m ++ Digit_to_list r
    /\ Tree_size t = Tree_size m + Digit_size r.
Proof.
  intros Hvf Hm Hr Hb. unfold pull_left_with.
  destruct (Tree_bool m) eqn:Eb; cbn [negb].
  - destruct Hvf as (n & t' & E & Hn & Ht' & L & Sz); auto.
    { intros ->. discriminate. }
    rewrite E. cbn [bind].
    destruct (Digit_from_node_spec d n Hn) as (dg & Ed & Hdg & Ld & Sd).
    rewrite Ed. cbn [bind]. size_facts.
    eexists. split; [reflexivity|]. finish.
    rewrite L, Ld. now list_norm.
  - destruct m; try discriminate.
    destruct (Tree_from_digit_spec d r Hr) as (t & E & Ht & L & Sz).
    exists t. repeat split; auto.
Qed.

Lemma Tree_view_front_ok t : forall d, view_front_ok Tree_view_front d t.
Proof.
  induction t as [|n|s l m IH r]; intros d Ht Hne.
  - contradiction.
  - cbn in *. do 2 eexists. split; [reflexivity|]. finish.
  - cbn in Ht. destruct Ht as (Hl & Hm & Hr & Hs & Hlt).
    inv_digit Hl; size_facts; cbn.
    2-4: do 2 eexists; (split; [reflexivity|]); cbn in *; finish.
    cbn in *.
    destruct (pull_left_with_spec Tree_view_front d m r) as (t & E & Ht & L & Sz);
      auto; [lia|].
    rewrite E. cbn [bind]. do 2 eexists. split; [reflexivity|].
    repeat split; auto; [rewrite L; now list_norm | lia].
Qed.

Lemma Tree_pull_left_spec d m r :
  Tree_wf (S d) m -> Digit_wf d r -> Tree_size m + Digit_size r < size_modulus ->
  exists t,
    Tree_pull_left m r = Ok t /\ Tree_wf d t
    /\ Tree_to_list t = Tree_to_list m ++ Digit_to_list r
    /\ Tree_size t = Tree_size m + Digit_size r.
Proof. apply pull_left_with_spec, Tree_view_front_ok. Qed.

Lemma pull_right_with_spec vb d m l :
  view_back_ok vb (S d) m ->
  Tree_wf (S d) m -> Digit_wf d l -> Tree_size m + Digit_size l < size_modulus ->
  exists t,
    pull_right_with vb m l = Ok t /\ Tree_wf d t
    /\ Tree_to_list t = Digit_to_list l ++ Tree_to_list m
    /\ Tree_size t = Digit_size l + Tree_size m.
Proof.
  intros Hvb Hm Hl Hb. unfold pull_right_with.
  destruct (Tree_bool m) eqn:Eb; cbn [negb].
  - destruct Hvb as (t' & n & E & Hn & Ht' & L & Sz); auto.
    { intros ->. discriminate. }
    rewrite E. cbn [bind].
    destruct (Digit_from_node_spec d n Hn) as (dg & Ed & Hdg & Ld & Sd).
    rewrite Ed. cbn [bind]. size_facts.
    eexists. split; [reflexivity|]. finish.
    rewrite L, Ld. now list_norm.
  - destruct m; try discriminate.
    destruct (Tree_from_digit_spec d l Hl) as (t & E & Ht & L & Sz).
    exists t. repeat split; auto; cbn; [now rewrite app_nil_r | lia].
Qed.

Lemma Tree_view_back_ok t : forall d, view_back_ok Tree_view_back d t.
Proof.
  induction t as [|n|s l m IH r]; intros d Ht Hne.
  - contradiction.
  - cbn in *. do 2 eexists. split; [reflexivity|]. finish.
  - cbn in Ht. destruct Ht as (Hl & Hm & Hr & Hs & Hlt).
    inv_digit Hr; size_facts; cbn.
    2-4: do 2 eexists; (split; [reflexivity|]); cbn in *; finish.
    cbn in *.
    destruct (pull_right_with_spec Tree_view_back d m l) as (t & E & Ht & L & Sz);
      auto; [lia|].
    rewrite E. cbn [bind]. do 2 eexists. split; [reflexivity|].
    repeat split; auto; [rewrite L; now list_norm | lia].
Qed.

Lemma Tree_pull_right_spec d m l :
  Tree_wf (S d) m -> Digit_wf d l -> Tree_size m + Digit_size l < size_modulus ->
  exists t,
    Tree_pull_right m l = Ok t /\ Tree_wf d t
    /\ Tree_to_list t = Digit_to_list l ++ Tree_to_list m
    /\ Tree_size t = Digit_size l + Tree_size m.
Proof. apply pull_right_with_spec, Tree_view_back_ok. Qed.

(** *** Splitting *)

Lemma check_index_lt i s : i < s -> check_index i s = (true, i).
Proof. intros H. unfold check_index. now destruct (Z.ltb_spec i s); [|lia]. Qed.

Lemma check_index_ge i s :
  0 <= s <= i -> i < size_modulus -> check_index i s = (false, i - s).
Proof.
  intros H1 H2. unfold check_index. destruct (Z.ltb_spec i s); [lia|].
  now rewrite usize_small by lia.
Qed.

End Facts.

#[local] Opaque check_index.

(** Decide the next [check_index] of the goal, by cases if need be. *)
Ltac step_check :=
  usz;
  match goal with
  | |- context [check_index ?i ?s] =>
    first
      [ rewrite (check_index_lt i s) by lia
      | rewrite (check_index_ge i s) by lia
      | destruct (Z.lt_ge_cases i s);
        [ rewrite (check_index_lt i s) by lia
        | rewrite (check_index_ge i s) by lia ] ];
    cbn
  end.

(** Run the next call of the goal through its specification. *)
Ltac step_call :=
  let t' := fresh "t" in
  let E := fresh "E" in
  let W := fresh "W" in
  let L := fresh "L" in
  let Sz := fresh "Sz" in
  match goal with
  | Hr : Digit_wf ?d ?r |- context [Tree_pull_left ?m ?r] =>
    destruct (Tree_pull_left_spec d m r) as (t' & E & W & L & Sz);
    [ assumption | assumption | lia | rewrite E; cbn ]
  | Hl : Digit_wf ?d ?l |- context [Tree_pull_right ?m ?l] =>
    destruct (Tree_pull_right_spec d m l) as (t' & E & W & L & Sz);
    [ assumption | assumption | lia | rewrite E; cbn ]
  end.

Ltac list_rw :=
  repeat match goal with
  | H : Tree_to_list _ = _ |- _ => rewrite H
  | H : Digit_to_list _ = _ |- _ => rewrite H
  | H : Node_to_list _ = _ |- _ => rewrite H
  end.

Ltac finish_list := list_rw; cbn; list_norm; reflexivity.

Ltac done :=
  cbn; usz; repeat split; auto; try lia; try (list_norm; reflexivity);
  try finish_list.

Section Facts.

Context {Value : Type}.
Implicit Types (n : @Node Value) (dg : @Digit Value) (t : @Tree Value).

Lemma Tree_split_spec t : forall d index,
  Tree_wf d t -> 0 <= index < Tree_size t ->
  exists l n r,
    Tree_split t index = Ok (l, n, r)
    /\ Tree_wf d l /\ Node_wf d n /\ Tree_wf d r
    /\ Tree_to_list t = Tree_to_list l ++ Node_to_list n ++ Tree_to_list r
    /\ Tree_size l <= index < Tree_size l + Node_size n.
Proof.
  induction t as [|n|s l m IH r]; intros d index Ht Hi.
  - cbn in Hi. lia.
  - cbn in *. do 3 eexists. split; [reflexivity|]. done.
  - cbn in Ht, Hi. destruct Ht as (Hl & Hm & Hr & Hs & Hlt).
    size_facts. cbn [Tree_split]. step_check.
    + (* in the left digit *)
      inv_digit Hl; size_facts; cbn in *.
      all: repeat step_check.
      all: try step_call.
      all: do 3 eexists; (split; [reflexivity|]); size_facts; done.
    + step_check.
      * (* in the middle *)
        destruct (IH (S d) (index - Digit_size l)) as (lt & n & rt & E & Wl & Wn & Wr & L & Hn);
          [assumption|lia|].
        rewrite E. cbn [bind].
        destruct n as [v|sn a b c]; cbn in Wn; [contradiction|].
        destruct Wn as (Ha & Hb & Hc & Hsn & Hsnlt).
        size_facts. cbn in Hn |- *.
        assert (Hlen := f_equal (@length _) L).
        rewrite !length_app in Hlen. cbn [Node_to_list] in Hlen. rewrite !length_app in Hlen.
        destruct c as [c|]; cbn in Hc, Hsn, Hlen; size_facts.
        all: repeat step_check.
        all: repeat step_call.
        all: do 3 eexists; (split; [reflexivity|]); size_facts; done.
      * (* in the right digit *)
        inv_digit Hr; size_facts; cbn in *.
        all: repeat step_check.
        all: try step_call.
        all: do 3 eexists; (split; [reflexivity|]); size_facts; done.
Qed.

Lemma is_prefix_refl {A} (l : list A) : is_prefix l l.
Proof. exists []. now rewrite app_nil_r. Qed.

Lemma is_prefix_nil {A} (l : list A) : is_prefix [] l.
Proof. now exists l. Qed.

Lemma is_prefix_here {A} (p l : list A) : is_prefix p (p ++ l).
Proof. now exists l. Qed.

Lemma is_prefix_app {A} (a p l : list A) : is_prefix p l -> is_prefix (a ++ p) (a ++ l).
Proof. intros [r ->]. exists r. now rewrite app_assoc. Qed.

Lemma is_suffix_refl {A} (l : list A) : is_suffix l l.
Proof. now exists []. Qed.

Lemma is_suffix_app {A} (a s l : list A) : is_suffix s l -> is_suffix s (a ++ l).
Proof. intros [r ->]. exists (a ++ r). now rewrite app_assoc. Qed.

Lemma is_prefix_firstn {A} (p l : list A) :
  is_prefix p l -> p = firstn (length p) l.
Proof.
  intros [r ->]. rewrite firstn_app, Nat.sub_diag, firstn_all. cbn. now rewrite app_nil_r.
Qed.

Lemma is_suffix_skipn {A} (s l : list A) :
  is_suffix s l -> s = skipn (length l - length s) l.
Proof.
  intros [r ->]. rewrite length_app.
  replace (length r + length s - length s)%nat with (length r) by lia.
  rewrite skipn_app, Nat.sub_diag, skipn_all. reflexivity.
Qed.

Lemma is_prefix_elim {A} (p l : list A) : is_prefix p l -> exists rest, l = p ++ rest.
Proof. trivial. Qed.

Lemma is_suffix_elim {A} (s l : list A) : is_suffix s l -> exists rest, l = rest ++ s.
Proof. trivial. Qed.

End Facts.

#[local] Opaque is_prefix is_suffix.

Ltac solve_prefix :=
  list_rw; cbn; list_norm;
  repeat first
    [ apply is_prefix_refl | apply is_prefix_nil | apply is_prefix_here
    | apply is_prefix_app ].

Ltac solve_suffix :=
  list_rw; cbn; list_norm;
  repeat first [ apply is_suffix_refl | apply is_suffix_app ].

Section Facts.

Context {Value : Type}.
Implicit Types (n : @Node Value) (dg : @Digit Value) (t : @Tree Value).

Lemma Tree_take_front_spec t : forall d index,
  Tree_wf d t -> 0 <= index < Tree_size t ->
  exists l n,
    Tree_take_front t index = Ok (l, n)
    /\ Tree_wf d l /\ Node_wf d n
    /\ is_prefix (Tree_to_list l ++ Node_to_list n) (Tree_to_list t)
    /\ Tree_size l <= index < Tree_size l + Node_size n.
Proof.
  induction t as [|n|s l m IH r]; intros d index Ht Hi.
  - cbn in Hi. lia.
  - cbn in *. do 2 eexists. split; [reflexivity|].
    cbn; repeat split; auto; try lia. apply is_prefix_refl.
  - cbn in Ht, Hi. destruct Ht as (Hl & Hm & Hr & Hs & Hlt).
    size_facts. cbn [Tree_take_front]. step_check.
    + inv_digit Hl; size_facts; cbn in *.
      all: repeat step_check.
      all: do 2 eexists; (split; [reflexivity|]); size_facts.
      all: cbn; usz; repeat split; auto; try lia.
      all: solve_prefix.
    + step_check.
      * destruct (IH (S d) (index - Digit_size l)) as (lt & n & E & Wl & Wn & (rest & L)%is_prefix_elim & Hn);
          [assumption|lia|].
        rewrite E. cbn [bind].
        destruct n as [v|sn a b c]; cbn in Wn; [contradiction|].
        destruct Wn as (Ha & Hb & Hc & Hsn & Hsnlt).
        size_facts. cbn in Hn |- *.
        assert (Hlen := f_equal (@length _) L).
        rewrite !length_app in Hlen. cbn [Node_to_list] in Hlen. rewrite !length_app in Hlen.
        destruct c as [c|]; cbn in Hc, Hsn, Hlen; size_facts.
        all: repeat step_check.
        all: repeat step_call.
        all: do 2 eexists; (split; [reflexivity|]); size_facts.
        all: cbn; usz; repeat split; auto; try lia.
        all: solve_prefix.
      * inv_digit Hr; size_facts; cbn in *.
        all: repeat step_check.
        all: try step_call.
        all: do 2 eexists; (split; [reflexivity|]); size_facts.
        all: cbn; usz; repeat split; auto; try lia.
        all: solve_prefix.
Qed.

Lemma Tree_take_back_spec t : forall d index,
  Tree_wf d t -> 0 <= index < Tree_size t ->
  exists n r,
    Tree_take_back t index = Ok (n, r)
    /\ Node_wf d n /\ Tree_wf d r
    /\ is_suffix (Node_to_list n ++ Tree_to_list r) (Tree_to_list t)
    /\ Tree_size r <= index < Tree_size r + Node_size n.
Proof.
  induction t as [|n|s l m IH r]; intros d index Ht Hi.
  - cbn in Hi. lia.
  - cbn in *. do 2 eexists. split; [reflexivity|].
    cbn; repeat split; auto; try lia. rewrite app_nil_r. apply is_suffix_refl.
  - cbn in Ht, Hi. destruct Ht as (Hl & Hm & Hr & Hs & Hlt).
    size_facts. cbn [Tree_take_back]. step_check.
    + inv_digit Hr; size_facts; cbn in *.
      all: repeat step_check.
      all: do 2 eexists; (split; [reflexivity|]); size_facts.
      all: cbn; usz; repeat split; auto; try lia.
      all: solve_suffix.
    + step_check.
      * destruct (IH (S d) (index - Digit_size r)) as (n & rt & E & Wn & Wr & (rest & L)%is_suffix_elim & Hn);
          [assumption|lia|].
        rewrite E. cbn [bind].
        destruct n as [v|sn a b c]; cbn in Wn; [contradiction|].
        destruct Wn as (Ha & Hb & Hc & Hsn & Hsnlt).
        size_facts. cbn in Hn |- *.
        assert (Hlen := f_equal (@length _) L).
        rewrite !length_app in Hlen. cbn [Node_to_list] in Hlen. rewrite !length_app in Hlen.
        destruct c as [c|]; cbn in Hc, Hsn, Hlen; size_facts.
        all: repeat step_check.
        all: repeat step_call.
        all: do 2 eexists; (split; [reflexivity|]); size_facts.
        all: cbn; usz; repeat split; auto; try lia.
        all: solve_suffix.
      * inv_digit Hl; size_facts; cbn in *.
        all: repeat step_check.
        all: try step_call.
        all: do 2 eexists; (split; [reflexivity|]); size_facts.
        all: cbn; usz; repeat split; auto; try lia.
        all: solve_suffix.
Qed.

(** *** The sequence operations *)

Lemma Node_wf_leaf n : Node_wf 0 n -> exists v, n = Leaf v.
Proof. destruct n; cbn; [eauto|contradiction]. Qed.

Lemma Sequence_wf_size (s : @Sequence Value) :
  Sequence_wf s ->
  Sequence_size s = Z.of_nat (length (to_list s)) /\ 0 <= Sequence_size s < size_modulus.
Proof. apply Tree_wf_size. Qed.

Lemma push_front_spec (s : @Sequence Value) v :
  Sequence_wf s -> Sequence_size s + 1 < size_modulus ->
  exists r, push_front s v = Ok r /\ Sequence_wf r /\ to_list r = v :: to_list s.
Proof.
  intros Hs Hb.
  destruct (Tree_push_front_spec s 0%nat (Leaf v)) as (r & E & W & L & Sz); cbn; auto.
  exists r. auto.
Qed.

Lemma push_back_spec (s : @Sequence Value) v :
  Sequence_wf s -> Sequence_size s + 1 < size_modulus ->
  exists r, push_back s v = Ok r /\ Sequence_wf r /\ to_list r = to_list s ++ [v].
Proof.
  intros Hs Hb.
  destruct (Tree_push_back_spec s 0%nat (Leaf v)) as (r & E & W & L & Sz); cbn; auto.
  exists r. auto.
Qed.

Lemma append_spec (s t : @Sequence Value) :
  Sequence_wf s -> Sequence_wf t -> Sequence_size s + Sequence_size t < size_modulus ->
  exists r, append s t = Ok r /\ Sequence_wf r /\ to_list r = to_list s ++ to_list t.
Proof.
  intros Hs Ht Hb.
  destruct (Tree_append_spec s 0%nat t) as (r & E & W & L & Sz); auto.
  exists r. auto.
Qed.

Lemma take_front_spec (s : @Sequence Value) index :
  Sequence_wf s -> 0 <= index ->
  exists r,
    take_front s index = Ok r /\ Sequence_wf r
    /\ to_list r = list_take index (to_list s).
Proof.
  intros Hs Hi. unfold take_front, list_take.
  destruct (Sequence_wf_size s Hs) as [Hlen Hr].
  destruct (Z.eqb_spec index 0) as [->|Hnz].
  { exists Empty. cbn. auto. }
  destruct (Z.geb_spec index (Sequence_size s)) as [Hge|Hlt].
  { exists s. repeat split; auto. rewrite firstn_all2; [reflexivity|]. unfold to_list in *. lia. }
  destruct (Tree_take_front_spec s 0%nat index Hs) as (l & n & E & Wl & Wn & P & Hn);
    [unfold Sequence_size in *; lia|].
  rewrite E. cbn [bind]. exists l. split; [reflexivity|]. split; [assumption|].
  destruct (Node_wf_leaf n Wn) as [v ->]. cbn in Hn.
  destruct (Tree_wf_size l 0%nat Wl) as [Hll _].
  apply is_prefix_elim in P. destruct P as [rest P]. unfold to_list. rewrite P.
  replace (Z.to_nat index) with (length (Tree_to_list l)) by lia.
  rewrite <- app_assoc, firstn_app, Nat.sub_diag, firstn_all. cbn. now rewrite app_nil_r.
Qed.

Lemma take_back_spec (s : @Sequence Value) index :
  Sequence_wf s -> 0 <= index ->
  exists r,
    take_back s index = Ok r /\ Sequence_wf r
    /\ to_list r = skipn (length (to_list s) - Z.to_nat index) (to_list s).
Proof.
  intros Hs Hi. unfold take_back.
  destruct (Sequence_wf_size s Hs) as [Hlen Hr].
  destruct (Z.eqb_spec index 0) as [->|Hnz].
  { exists Empty. cbn. rewrite Nat.sub_0_r, skipn_all. auto. }
  destruct (Z.geb_spec index (Sequence_size s)) as [Hge|Hlt].
  { exists s. repeat split; auto.
    replace (length (to_list s) - Z.to_nat index)%nat with 0%nat by lia. reflexivity. }
  destruct (Tree_take_back_spec s 0%nat index Hs) as (n & r & E & Wn & Wr & P & Hn);
    [unfold Sequence_size in *; lia|].
  rewrite E. cbn [bind]. exists r. split; [reflexivity|]. split; [assumption|].
  destruct (Node_wf_leaf n Wn) as [v ->]. cbn in Hn.
  destruct (Tree_wf_size r 0%nat Wr) as [Hlr _].
  apply is_suffix_elim in P. destruct P as [rest P]. unfold to_list in *. rewrite P.
  rewrite !length_app. cbn [Node_to_list length].
  replace (length rest + (1 + length (Tree_to_list r)) - Z.to_nat index)%nat
    with (length (rest ++ [v])).
  - change (Leaf v :: nil) with [Leaf v].
    replace (rest ++ [v] ++ Tree_to_list r) with ((rest ++ [v]) ++ Tree_to_list r)
      by now rewrite <- app_assoc.
    now rewrite skipn_app, Nat.sub_diag, skipn_all.
  - rewrite length_app. cbn. lia.
Qed.

Lemma drop_front_spec (s : @Sequence Value) index :
  Sequence_wf s -> 0 <= index ->
  exists r,
    drop_front s index = Ok r /\ Sequence_wf r
    /\ to_list r = list_drop index (to_list s).
Proof.
  intros Hs Hi. unfold drop_front, list_drop.
  destruct (Sequence_wf_size s Hs) as [Hlen Hr].
  rewrite usize_small by lia.
  destruct (take_back_spec s (Sequence_size s - Z.min (Sequence_size s) index) Hs)
    as (r & E & W & L); [lia|].
  exists r. repeat split; auto. rewrite L.
  destruct (Z.le_gt_cases (Sequence_size s) index).
  - rewrite Z.min_l by lia. rewrite Z.sub_diag. cbn [Z.to_nat].
    rewrite Nat.sub_0_r, skipn_all. rewrite skipn_all2; [reflexivity|lia].
  - rewrite Z.min_r by lia. f_equal. lia.
Qed.

End Facts.
End SequenceFacts.

(** ** Insertion and deletion in the finger tree *)

Module SequenceEdit.
Import Sequence SequenceFacts.

#[local] Opaque usize size_modulus check_index.

Section Edit.

Context {Value : Type}.
Implicit Types (n : @Node Value) (dg : @Digit Value) (t : @Tree Value).

(** *** The reference operations under concatenation *)

Lemma list_insert_app_l {A} i (v : A) l1 l2 :
  0 <= i < Z.of_nat (length l1) ->
  list_insert i v (l1 ++ l2) = list_insert i v l1 ++ l2.
Proof.
  intros H. unfold list_insert.
  rewrite firstn_app, skipn_app.
  replace (Z.to_nat i - length l1)%nat with 0%nat by lia.
  cbn. rewrite app_nil_r, <- app_assoc. reflexivity.
Qed.

Lemma list_insert_app_r {A} i (v : A) l1 l2 :
  Z.of_nat (length l1) <= i ->
  list_insert i v (l1 ++ l2) = l1 ++ list_insert (i - Z.of_nat (length l1)) v l2.
Proof.
  intros H. unfold list_insert.
  rewrite firstn_app, skipn_app.
  rewrite firstn_all2 by lia. rewrite skipn_all2 by lia.
  replace (Z.to_nat i - length l1)%nat with (Z.to_nat (i - Z.of_nat (length l1))) by lia.
  cbn. now rewrite <- app_assoc.
Qed.

Lemma list_erase_app_l {A} i (l1 l2 : list A) :
  0 <= i < Z.of_nat (length l1) ->
  list_erase i (l1 ++ l2) = list_erase i l1 ++ l2.
Proof.
  intros H. unfold list_erase.
  rewrite firstn_app, skipn_app.
  replace (Z.to_nat i - length l1)%nat with 0%nat by lia.
  replace (S (Z.to_nat i) - length l1)%nat with 0%nat by lia.
  cbn. rewrite app_nil_r, <- app_assoc. reflexivity.
Qed.

Lemma list_erase_app_r {A} i (l1 l2 : list A) :
  Z.of_nat (length l1) <= i ->
  list_erase i (l1 ++ l2) = l1 ++ list_erase (i - Z.of_nat (length l1)) l2.
Proof.
  intros H. unfold list_erase.
  rewrite firstn_app, skipn_app.
  rewrite firstn_all2 by lia. rewrite skipn_all2 by lia.
  replace (Z.to_nat i - length l1)%nat with (Z.to_nat (i - Z.of_nat (length l1))) by lia.
  replace (S (Z.to_nat i) - length l1)%nat with (S (Z.to_nat (i - Z.of_nat (length l1)))) by lia.
  cbn. now rewrite <- app_assoc.
Qed.

Lemma list_erase_insert {A} i (v : A) l :
  0 <= i <= Z.of_nat (length l) -> list_erase i (list_insert i v l) = l.
Proof.
  intros H. unfold list_erase, list_insert.
  assert (Hl : length (firstn (Z.to_nat i) l) = Z.to_nat i) by (apply firstn_length_le; lia).
  set (F := firstn (Z.to_nat i) l) in *.
  rewrite firstn_app, skipn_app, Hl, Nat.sub_diag.
  replace (S (Z.to_nat i) - Z.to_nat i)%nat with 1%nat by lia.
  rewrite (firstn_all2 (n := Z.to_nat i) F) by lia.
  rewrite (skipn_all2 (n := S (Z.to_nat i)) F) by lia.
  cbn. rewrite app_nil_r. apply firstn_skipn.
Qed.

Lemma list_insert_length {A} i (v : A) l :
  length (list_insert i v l) = S (length l).
Proof.
  unfold list_insert. rewrite length_app. cbn [length].
  rewrite <- (firstn_skipn (Z.to_nat i) l) at 3. rewrite length_app. lia.
Qed.

Lemma list_insert_end {A} i (v : A) l :
  Z.of_nat (length l) <= i -> list_insert i v l = l ++ [v].
Proof.
  intros H. unfold list_insert.
  rewrite firstn_all2 by lia. now rewrite skipn_all2 by lia.
Qed.

Lemma list_insert_0 {A} (v : A) l : list_insert 0 v l = v :: l.
Proof. reflexivity. Qed.

End Edit.

(** Push [list_insert] and [list_erase] through the concatenations of the
    goal, and state the indices with the cached sizes again. *)
Ltac list_edit :=
  repeat match goal with
  | |- context [list_insert ?i ?v (?l1 ++ ?l2)] =>
    first [ rewrite (list_insert_app_l i v l1 l2) by lia
          | rewrite (list_insert_app_r i v l1 l2) by lia ]
  | |- context [list_erase ?i (?l1 ++ ?l2)] =>
    first [ rewrite (list_erase_app_l i l1 l2) by lia
          | rewrite (list_erase_app_r i l1 l2) by lia ]
  end;
  repeat match goal with
  | H : ?s = Z.of_nat (length ?l) |- context [Z.of_nat (length ?l)] => rewrite <- H
  end.

(** Rewrite the goal with [H : a ++ b = r], also where [a ++ b] is
    followed by more elements. *)
Ltac rewrite_app H :=
  rewrite ?app_nil_r in H;
  first
    [ rewrite H
    | match type of H with
      | ?a ++ ?b = ?r =>
        let H' := fresh in
        assert (H' : forall z, a ++ b ++ z = r ++ z)
          by (intro; rewrite app_assoc, H; reflexivity);
        rewrite H'; clear H'
      end ].

#[local] Opaque list_insert list_erase.

(** *** Insertion *)

Section Edit.

Context {Value : Type}.
Implicit Types (n : @Node Value) (dg : @Digit Value) (t : @Tree Value).

Lemma Node_insert_spec d : forall n index v,
  Node_wf d n -> 0 <= index < Node_size n -> Node_size n + 1 < size_modulus ->
  exists n' extra,
    Node_insert n index v = Ok (n', extra)
    /\ Node_wf d n' /\ NodePtr_wf d extra
    /\ Node_size n' + NodePtr_size extra = Node_size n + 1
    /\ Node_to_list n' ++ NodePtr_to_list extra = list_insert index v (Node_to_list n).
Proof.
  induction d as [|d IH]; intros [x|s a b c] index v Hn Hi Hb; cbn in Hn; try contradiction.
  - cbn in Hi. assert (index = 0) by lia. subst index.
    do 2 eexists. split; [reflexivity|]. cbn. auto.
  - destruct Hn as (Ha & Hb' & Hc & Hs & Hlt). cbn in Hi, Hb.
    destruct c as [c|]; cbn in Hc, Hs; size_facts; cbn [Node_insert].
    all: repeat step_check.
    all: match goal with
         | |- context [Node_insert ?n ?i ?v] =>
           destruct (IH n i v) as (n' & extra & E & Wn & We & Sz & L); [assumption|lia|lia|];
           rewrite E; cbn [bind]; destruct extra as [extra|]; cbn in We, Sz, L |- *
         end.
    all: size_facts.
    all: do 2 eexists; (split; [reflexivity|]).
    all: cbn; usz; repeat split; auto; try lia.
    all: list_edit; rewrite <- L; list_norm; reflexivity.
Qed.

Lemma Digit_insert_spec d Left dg index v :
  Digit_wf d dg -> 0 <= index < Digit_size dg -> Digit_size dg + 1 < size_modulus ->
  exists dg' extra,
    Digit_insert Left dg index v = Ok (dg', extra)
    /\ Digit_wf d dg' /\ NodePtr_wf (S d) extra
    /\ Digit_size dg' + NodePtr_size extra = Digit_size dg + 1
    /\ (if Left then Digit_to_list dg' ++ NodePtr_to_list extra
        else NodePtr_to_list extra ++ Digit_to_list dg')
       = list_insert index v (Digit_to_list dg).
Proof.
  intros Hd Hi Hb. unfold Digit_insert.
  inv_digit Hd; size_facts; cbn in Hi, Hb |- *.
  all: repeat step_check.
  all: match goal with
       | |- context [Node_insert ?n ?i ?v] =>
         destruct (Node_insert_spec d n i v) as (n' & extra & E & Wn & We & Sz & L);
         [assumption|lia|lia|];
         rewrite E; cbn [bind]; destruct extra as [extra|]; cbn in We, Sz, L |- *
       end.
  all: size_facts.
  all: destruct Left; do 2 eexists; (split; [reflexivity|]).
  all: cbn; usz; repeat split; auto; try lia.
  all: list_edit; rewrite <- L; list_norm; reflexivity.
Qed.

Lemma Tree_insert_spec t : forall d index v,
  Tree_wf d t -> 0 <= index < Tree_size t -> Tree_size t + 1 < size_modulus ->
  exists t',
    Tree_insert t index v = Ok t' /\ Tree_wf d t'
    /\ Tree_size t' = Tree_size t + 1
    /\ Tree_to_list t' = list_insert index v (Tree_to_list t).
Proof.
  induction t as [|n|s l m IH r]; intros d index v Ht Hi Hb.
  - cbn in Hi. lia.
  - cbn in Ht, Hi, Hb |- *.
    destruct (Node_insert_spec d n index v) as (n' & extra & E & Wn & We & Sz & L); auto.
    rewrite E. cbn [bind]. destruct extra as [extra|]; cbn in We, Sz, L |- *.
    all: size_facts; eexists; (split; [reflexivity|]).
    all: cbn; usz; repeat split; auto; try lia.
    all: rewrite <- L; list_norm; reflexivity.
  - cbn in Ht, Hi, Hb. destruct Ht as (Hl & Hm & Hr & Hs & Hlt).
    size_facts. cbn [Tree_insert]. step_check; [|step_check].
    + destruct (Digit_insert_spec d true l index v) as (l' & extra & E & Wl & We & Sz & L);
        [assumption|lia|lia|].
      rewrite E. cbn [bind]. destruct extra as [extra|]; cbn in We, Sz, L |- *.
      * destruct (Tree_push_front_spec m (S d) extra) as (m' & Em & Wm & Lm & Sm);
          [assumption|assumption|size_facts; lia|].
        rewrite Em. cbn [bind]. size_facts. eexists. split; [reflexivity|].
        cbn; usz; repeat split; auto; try lia.
        list_edit. rewrite <- L, Lm. list_norm. reflexivity.
      * size_facts. eexists. split; [reflexivity|].
        cbn; usz; repeat split; auto; try lia.
        list_edit. rewrite <- L. list_norm. reflexivity.
    + destruct (IH (S d) (index - Digit_size l) v) as (m' & Em & Wm & Sm & Lm);
        [assumption|lia|lia|].
      rewrite Em. cbn [bind]. size_facts. eexists. split; [reflexivity|].
      cbn; usz; repeat split; auto; try lia.
      list_edit. rewrite <- Lm. reflexivity.
    + destruct (Digit_insert_spec d false r (index - Digit_size l - Tree_size m) v)
        as (r' & extra & E & Wr & We & Sz & L); [assumption|lia|lia|].
      rewrite E. cbn [bind]. destruct extra as [extra|]; cbn in We, Sz, L |- *.
      * destruct (Tree_push_back_spec m (S d) extra) as (m' & Em & Wm & Lm & Sm);
          [assumption|assumption|size_facts; lia|].
        rewrite Em. cbn [bind]. size_facts. eexists. split; [reflexivity|].
        cbn; usz; repeat split; auto; try lia.
        list_edit. rewrite <- L, Lm. list_norm. reflexivity.
      * size_facts. eexists. split; [reflexivity|].
        cbn; usz; repeat split; auto; try lia.
        list_edit. rewrite <- L. list_norm. reflexivity.
Qed.

(** *** Deletion *)

Lemma Node_merge_left_spec d (left : @NodePtr Value) (node : @Node Value) :
  NodePtr_below d left -> Node_wf d node ->
  NodePtr_size left + Node_size node < size_modulus ->
  exists m extra,
    Node_merge_left left node = Ok (m, extra)
    /\ Node_wf d m /\ NodePtr_wf d extra
    /\ Node_to_list m ++ NodePtr_to_list extra = NodePtr_to_list left ++ Node_to_list node
    /\ Node_size m + NodePtr_size extra = NodePtr_size left + Node_size node.
Proof.
  intros Hl Hn Hb. destruct d as [|d]; cbn in Hl.
  - subst left. do 2 eexists. split; [reflexivity|]. cbn. rewrite app_nil_r.
    repeat split; auto; lia.
  - destruct Hl as (l & -> & Hl). destruct node as [x|s a b c]; cbn in Hn; [contradiction|].
    destruct Hn as (Ha & Hb' & Hc & Hs & Hlt). cbn in Hb.
    destruct c as [c|]; cbn in Hc, Hs; size_facts.
    all: do 2 eexists; (split; [reflexivity|]).
    all: cbn; usz; repeat split; auto; try lia; list_norm; reflexivity.
Qed.

Lemma Node_merge_right_spec d (node : @Node Value) (right : @NodePtr Value) :
  Node_wf d node -> NodePtr_below d right ->
  Node_size node + NodePtr_size right < size_modulus ->
  exists m extra,
    Node_merge_right node right = Ok (m, extra)
    /\ Node_wf d m /\ NodePtr_wf d extra
    /\ Node_to_list m ++ NodePtr_to_list extra = Node_to_list node ++ NodePtr_to_list right
    /\ Node_size m + NodePtr_size extra = Node_size node + NodePtr_size right.
Proof.
  intros Hn Hr Hb. destruct d as [|d]; cbn in Hr.
  - subst right. do 2 eexists. split; [reflexivity|]. cbn. rewrite !app_nil_r.
    repeat split; auto; lia.
  - destruct Hr as (r & -> & Hr). destruct node as [x|s a b c]; cbn in Hn; [contradiction|].
    destruct Hn as (Ha & Hb' & Hc & Hs & Hlt). cbn in Hb.
    destruct c as [c|]; cbn in Hc, Hs; size_facts.
    all: do 2 eexists; (split; [reflexivity|]).
    all: cbn; usz; repeat split; auto; try lia; list_norm; reflexivity.
Qed.

Lemma Node_meld_right_spec d (m : @Node Value) (extra : option (@Node Value))
  (node : @NodePtr Value) :
  Node_wf d m -> NodePtr_wf d extra -> NodePtr_wf d node ->
  Node_size m + NodePtr_size extra + NodePtr_size node < size_modulus ->
  exists full n',
    Node_meld_right (m, extra) node = (full, n')
    /\ Node_to_list n' = Node_to_list m ++ NodePtr_to_list extra ++ NodePtr_to_list node
    /\ Node_size n' = Node_size m + NodePtr_size extra + NodePtr_size node
    /\ (if full : bool then Node_wf (S d) n' else Node_wf d n').
Proof.
  intros Hm He Hn Hb.
  destruct extra as [e|], node as [n|]; cbn in He, Hn, Hb; size_facts.
  all: do 2 eexists; (split; [reflexivity|]).
  all: cbn; usz; repeat split; auto; try lia; list_norm; reflexivity.
Qed.

Lemma Node_meld_left_spec d (node : @NodePtr Value) (m : @Node Value)
  (extra : option (@Node Value)) :
  NodePtr_wf d node -> Node_wf d m -> NodePtr_wf d extra ->
  NodePtr_size node + Node_size m + NodePtr_size extra < size_modulus ->
  exists full n',
    Node_meld_left node (m, extra) = (full, n')
    /\ Node_to_list n' = NodePtr_to_list node ++ Node_to_list m ++ NodePtr_to_list extra
    /\ Node_size n' = NodePtr_size node + Node_size m + NodePtr_size extra
    /\ (if full : bool then Node_wf (S d) n' else Node_wf d n').
Proof.
  intros Hn Hm He Hb.
  destruct extra as [e|], node as [n|]; cbn in He, Hn, Hb; size_facts.
  all: do 2 eexists; (split; [reflexivity|]).
  all: cbn; usz; repeat split; auto; try lia; list_norm; reflexivity.
Qed.

Lemma NodePtr_below_size d (p : @NodePtr Value) :
  NodePtr_below d p -> 0 <= NodePtr_size p < size_modulus.
Proof.
  destruct d; cbn.
  - intros ->. cbn. pose proof size_modulus_eq. lia.
  - intros (n & -> & Hn). cbn. size_facts. lia.
Qed.

Lemma Node_erase_spec d : forall n index,
  Node_wf d n -> 0 <= index < Node_size n ->
  exists full node,
    Node_erase n index = Ok (full, node)
    /\ NodePtr_to_list node = list_erase index (Node_to_list n)
    /\ NodePtr_size node = Node_size n - 1
    /\ erased_ok d full node.
Proof.
  induction d as [|d IH]; intros [x|s a b c] index Hn Hi; cbn in Hn; try contradiction.
  - cbn in Hi. assert (index = 0) by lia. subst index.
    do 2 eexists. split; [reflexivity|]. cbn. auto.
  - destruct Hn as (Ha & Hb & Hc & Hs & Hlt). cbn in Hi.
    destruct c as [c|]; cbn in Hc, Hs; size_facts; cbn [Node_erase].
    all: repeat step_check.
    all: match goal with
         | |- context [Node_erase ?n ?i] =>
           destruct (IH n i) as (full & node & E & L & Sz & Hok); [assumption|lia|];
           rewrite E; cbn [bind]; destruct full; cbn in Hok
         end.
    all: try (destruct Hok as (n' & -> & Wn'); cbn in L, Sz |- *; size_facts;
              do 2 eexists; (split; [reflexivity|]);
              cbn; usz; repeat split; auto; try lia;
              [ list_edit; rewrite <- L; list_norm; reflexivity
              | eexists; split; [reflexivity|]; cbn; repeat split; auto; lia ]).
    all: pose proof (NodePtr_below_size _ _ Hok).
    all: match goal with
         | |- context [Node_merge_left ?l ?n] =>
           destruct (Node_merge_left_spec d l n) as (m & extra & Em & Wm & We & Lm & Sm);
           [assumption|assumption|lia|]; rewrite Em
         | |- context [Node_merge_right ?n ?r] =>
           destruct (Node_merge_right_spec d n r) as (m & extra & Em & Wm & We & Lm & Sm);
           [assumption|assumption|lia|]; rewrite Em
         end; cbn [bind].
    all: match goal with
         | |- context [Node_meld_right (?m, ?e) ?n] =>
           destruct (Node_meld_right_spec d m e n) as (full & r & Er & Lr & Sr & Wr);
           [assumption|assumption|cbn; auto|cbn; lia|]; rewrite Er
         | |- context [Node_meld_left ?n (?m, ?e)] =>
           destruct (Node_meld_left_spec d n m e) as (full & r & Er & Lr & Sr & Wr);
           [cbn; auto|assumption|assumption|cbn; lia|]; rewrite Er
         end.
    all: cbn in Lr, Sr |- *.
    all: do 2 eexists; (split; [reflexivity|]).
    all: cbn; repeat split; try lia.
    all: try (list_edit; rewrite <- L, Lr; list_norm;
              first [ reflexivity
                    | rewrite <- Lm; list_norm; reflexivity
                    | rewrite app_assoc, Lm; list_norm; reflexivity ]).
    all: destruct full; cbn; eauto.
Qed.

Lemma Digit_erase_spec d dg index :
  Digit_wf d dg -> 0 <= index < Digit_size dg ->
  exists e, Digit_erase dg index = Ok e /\ digit_erased_ok d dg index e.
Proof.
  intros Hd Hi. unfold Digit_erase.
  inv_digit Hd; size_facts; cbn in Hi |- *.
  all: repeat step_check.
  all: match goal with
       | |- context [Node_erase ?n ?i] =>
         destruct (Node_erase_spec d n i) as (full & node & E & L & Sz & Hok); [assumption|lia|];
         rewrite E; cbn [bind]; destruct full; cbn in Hok
       end.
  all: try (destruct Hok as (n' & -> & Wn'); cbn in L, Sz |- *; size_facts;
            eexists; (split; [reflexivity|]);
            cbn; usz; repeat split; auto; try lia;
            list_edit; rewrite <- L; list_norm; reflexivity).
  all: pose proof (NodePtr_below_size _ _ Hok).
  all: cbn.
  all: try (eexists; (split; [reflexivity|]); cbn; repeat split; auto; try lia;
            list_edit; rewrite <- L; list_norm; reflexivity).
  all: match goal with
       | |- context [Node_merge_left ?l ?n] =>
         destruct (Node_merge_left_spec d l n) as (m & extra & Em & Wm & We & Lm & Sm);
         [assumption|assumption|lia|]; rewrite Em
       | |- context [Node_merge_right ?n ?r] =>
         destruct (Node_merge_right_spec d n r) as (m & extra & Em & Wm & We & Lm & Sm);
         [assumption|assumption|lia|]; rewrite Em
       end; cbn [bind].
  all: destruct extra as [extra|]; cbn in We, Lm, Sm |- *; size_facts.
  all: eexists; (split; [reflexivity|]).
  all: cbn; usz; repeat split; auto; try lia.
  all: list_edit; rewrite <- L; list_norm.
  all: rewrite_app Lm; list_norm; reflexivity.
Qed.

Lemma Digit_merge_left_spec d (left : @NodePtr Value) (node : @Node Value) :
  NodePtr_below d left -> Node_wf (S d) node ->
  NodePtr_size left + Node_size node < size_modulus ->
  exists dg,
    Digit_merge_left left node = Ok dg /\ Digit_wf d dg
    /\ Digit_to_list dg = NodePtr_to_list left ++ Node_to_list node
    /\ Digit_size dg = NodePtr_size left + Node_size node.
Proof.
  intros Hl Hn Hb. unfold Digit_merge_left.
  destruct left as [l|].
  - destruct node as [x|s a b c]; cbn in Hn; [contradiction|].
    destruct Hn as (Ha & Hb' & Hc & Hs & Hlt). cbn in Hb.
    assert (Hsz : NodePtr_size (Some l) + Node_size a < size_modulus).
    { pose proof (NodePtr_below_size _ _ Hl). size_facts.
      destruct c as [c|]; cbn in Hc, Hs |- *; size_facts; cbn in *; lia. }
    destruct (Node_merge_left_spec d (Some l) a) as (m & extra & Em & Wm & We & Lm & Sm);
      [assumption|assumption|assumption|].
    rewrite Em. cbn [bind].
    destruct extra as [extra|], c as [c|]; cbn in We, Lm, Sm, Hc, Hs, Hb |- *; size_facts.
    all: eexists; (split; [reflexivity|]).
    all: cbn; usz; repeat split; auto; try lia.
    all: list_norm; rewrite_app Lm; list_norm; reflexivity.
  - destruct (Digit_from_node_spec d node Hn) as (dg & E & W & L & Sz).
    exists dg. cbn. repeat split; auto.
Qed.

Lemma Digit_merge_right_spec d (node : @Node Value) (right : @NodePtr Value) :
  Node_wf (S d) node -> NodePtr_below d right ->
  Node_size node + NodePtr_size right < size_modulus ->
  exists dg,
    Digit_merge_right node right = Ok dg /\ Digit_wf d dg
    /\ Digit_to_list dg = Node_to_list node ++ NodePtr_to_list right
    /\ Digit_size dg = Node_size node + NodePtr_size right.
Proof.
  intros Hn Hr Hb. unfold Digit_merge_right.
  destruct right as [r|].
  - destruct node as [x|s a b c]; cbn in Hn; [contradiction|].
    destruct Hn as (Ha & Hb' & Hc & Hs & Hlt). cbn in Hb.
    pose proof (NodePtr_below_size _ _ Hr) as Hrs. cbn in Hrs.
    destruct c as [c|]; cbn in Hc, Hs; size_facts.
    + destruct (Node_merge_right_spec d c (Some r)) as (m & extra & Em & Wm & We & Lm & Sm);
        [assumption|assumption|cbn; lia|].
      rewrite Em. cbn [bind].
      destruct extra as [extra|]; cbn in We, Lm, Sm |- *; size_facts.
      all: eexists; (split; [reflexivity|]).
      all: cbn; usz; repeat split; auto; try lia.
      all: list_norm; rewrite_app Lm; list_norm; reflexivity.
    + destruct (Node_merge_right_spec d b (Some r)) as (m & extra & Em & Wm & We & Lm & Sm);
        [assumption|assumption|cbn; lia|].
      rewrite Em. cbn [bind].
      destruct extra as [extra|]; cbn in We, Lm, Sm |- *; size_facts.
      all: eexists; (split; [reflexivity|]).
      all: cbn; usz; repeat split; auto; try lia.
      all: list_norm; rewrite_app Lm; list_norm; reflexivity.
  - destruct (Digit_from_node_spec d node Hn) as (dg & E & W & L & Sz).
    exists dg. cbn. rewrite app_nil_r. repeat split; auto. lia.
Qed.

Lemma Tree_erase_spec t : forall d index,
  Tree_wf d t -> 0 <= index < Tree_size t ->
  exists full t',
    Tree_erase t index = Ok (full, t')
    /\ Tree_to_list t' = list_erase index (Tree_to_list t)
    /\ Tree_size t' = Tree_size t - 1
    /\ tree_erased_ok d full t'.
Proof.
  induction t as [|n|s l m IH r]; intros d index Ht Hi.
  - cbn in Hi. lia.
  - cbn in Ht, Hi |- *.
    destruct (Node_erase_spec d n index) as (full & node & E & L & Sz & Hok); auto.
    rewrite E. cbn [bind].
    destruct full; cbn in Hok.
    + destruct Hok as (n' & -> & Wn'). do 2 eexists. split; [reflexivity|]. cbn. auto.
    + destruct d as [|d]; cbn in Hok.
      * subst node. do 2 eexists. split; [reflexivity|]. cbn in *. auto.
      * destruct Hok as (n' & -> & Wn'). do 2 eexists. split; [reflexivity|].
        cbn. repeat split; eauto.
  - cbn in Ht, Hi. destruct Ht as (Hl & Hm & Hr & Hs & Hlt).
    size_facts. cbn [Tree_erase]. step_check; [|step_check].
    + (* in the left digit *)
      destruct (Digit_erase_spec d l index) as (e & E & He); [assumption|lia|].
      rewrite E. cbn [bind]. destruct e as [node|l']; cbn in He.
      * destruct He as (Ho & Hok & L & Sz).
        pose proof (NodePtr_below_size _ _ Hok).
        destruct m as [|mn|ms ml mm mr]; cbn [Tree_bool].
        -- (* the middle is empty: borrow from the right digit *)
           inv_digit Hr; size_facts; cbn in Hs, Hlt |- *.
           all: match goal with
                | |- context [Node_merge_left ?x ?y] =>
                  destruct (Node_merge_left_spec d x y) as (mg & extra & Em & Wm & We & Lm & Sm);
                  [assumption|assumption|lia|]; rewrite Em; cbn [bind]
                end.
           all: destruct extra as [extra|]; cbn in We, Lm, Sm |- *; size_facts.
           all: do 2 eexists; (split; [reflexivity|]).
           all: cbn; usz; repeat split; auto; try lia.
           all: list_edit; rewrite <- L; list_norm; rewrite_app Lm; list_norm; reflexivity.
        -- destruct (Tree_view_front_ok (Single mn) (S d)) as (h & tl & Ev & Wh & Wt & Lv & Sv);
             [assumption|discriminate|].
           rewrite Ev. cbn [bind]. size_facts.
           destruct (Digit_merge_left_spec d node h) as (dg & Ed & Wd & Ld & Sd);
             [assumption|assumption|cbn [Tree_size] in *; lia|].
           rewrite Ed. cbn [bind]. size_facts.
           do 2 eexists. split; [reflexivity|].
           cbn in *; usz; repeat split; auto; try lia.
           list_edit. rewrite <- L, Ld, Lv. list_norm. reflexivity.
        -- destruct (Tree_view_front_ok (Deep ms ml mm mr) (S d)) as (h & tl & Ev & Wh & Wt & Lv & Sv);
             [assumption|discriminate|].
           rewrite Ev. cbn [bind]. size_facts.
           destruct (Digit_merge_left_spec d node h) as (dg & Ed & Wd & Ld & Sd);
             [assumption|assumption|cbn [Tree_size] in *; lia|].
           rewrite Ed. cbn [bind]. size_facts.
           do 2 eexists. split; [reflexivity|].
           cbn [Tree_size Tree_to_list Tree_wf tree_erased_ok] in *; usz;
             repeat split; auto; try lia.
           list_edit. rewrite <- L, Ld, Lv. list_norm. reflexivity.
      * destruct He as (Wl' & L & Sz). size_facts.
        do 2 eexists. split; [reflexivity|].
        cbn; usz; repeat split; auto; try lia.
        list_edit. now rewrite <- L.
    + (* in the middle *)
      destruct (IH (S d) (index - Digit_size l)) as (full & meld & E & L & Sz & Hok);
        [assumption|lia|].
      rewrite E. cbn [bind]. destruct full; cbn in Hok.
      * size_facts. do 2 eexists. split; [reflexivity|].
        cbn; usz; repeat split; auto; try lia.
        list_edit. now rewrite <- L.
      * destruct Hok as (n & -> & Wn). cbn in L, Sz |- *.
        inv_digit Hl; size_facts; cbn in *.
        all: do 2 eexists; (split; [reflexivity|]).
        all: cbn; usz; repeat split; auto; try lia.
        all: list_edit; rewrite <- L; list_norm; reflexivity.
    + (* in the right digit *)
      destruct (Digit_erase_spec d r (index - Digit_size l - Tree_size m)) as (e & E & He);
        [assumption|lia|].
      rewrite E. cbn [bind]. destruct e as [node|r']; cbn in He.
      * destruct He as (Ho & Hok & L & Sz).
        pose proof (NodePtr_below_size _ _ Hok).
        destruct m as [|mn|ms ml mm mr]; cbn [Tree_bool].
        -- inv_digit Hl; size_facts; cbn in *; rewrite ?Z.sub_0_r in L.
           all: match goal with
                | |- context [Node_merge_right ?x ?y] =>
                  destruct (Node_merge_right_spec d x y) as (mg & extra & Em & Wm & We & Lm & Sm);
                  [assumption|assumption|lia|]; rewrite Em; cbn [bind]
                end.
           all: destruct extra as [extra|]; cbn in We, Lm, Sm |- *; size_facts.
           all: do 2 eexists; (split; [reflexivity|]).
           all: cbn; usz; repeat split; auto; try lia.
           all: list_edit; rewrite <- L; list_norm; rewrite_app Lm; list_norm; reflexivity.
        -- destruct (Tree_view_back_ok (Single mn) (S d)) as (tl & h & Ev & Wh & Wt & Lv & Sv);
             [assumption|discriminate|].
           rewrite Ev. cbn [bind]. size_facts.
           destruct (Digit_merge_right_spec d h node) as (dg & Ed & Wd & Ld & Sd);
             [assumption|assumption|cbn [Tree_size] in *; lia|].
           rewrite Ed. cbn [bind]. size_facts.
           do 2 eexists. split; [reflexivity|].
           cbn in *; usz; repeat split; auto; try lia.
           list_edit. rewrite <- L, Ld, Lv. list_norm. reflexivity.
        -- destruct (Tree_view_back_ok (Deep ms ml mm mr) (S d)) as (tl & h & Ev & Wh & Wt & Lv & Sv);
             [assumption|discriminate|].
           rewrite Ev. cbn [bind]. size_facts.
           destruct (Digit_merge_right_spec d h node) as (dg & Ed & Wd & Ld & Sd);
             [assumption|assumption|cbn [Tree_size] in *; lia|].
           rewrite Ed. cbn [bind]. size_facts.
           do 2 eexists. split; [reflexivity|].
           cbn [Tree_size Tree_to_list Tree_wf tree_erased_ok] in *; usz;
             repeat split; auto; try lia.
           list_edit. rewrite <- L, Ld, Lv. list_norm. reflexivity.
      * destruct He as (Wr' & L & Sz). size_facts.
        do 2 eexists. split; [reflexivity|].
        cbn; usz; repeat split; auto; try lia.
        list_edit. now rewrite <- L.
Qed.

End Edit.
End SequenceEdit.

(** ** Iteration, hashing and comparison *)

Module SequenceIter.
Import Sequence SequenceFacts.

#[local] Opaque usize size_modulus.

Section Iter.

Context {Value : Type}.
Implicit Types (n : @Node Value) (dg : @Digit Value) (t : @Tree Value)
  (it stack xs ys : list (@Frame Value)).

Lemma check_index_0 s : 0 < s -> check_index 0 s = (true, 0).
Proof. intros H. unfold check_index. now destruct (Z.ltb_spec 0 s); [|lia]. Qed.

Lemma check_index_0_0 : check_index 0 0 = (false, 0).
Proof. reflexivity. Qed.

Lemma Node_weight_pos n : (0 < Node_weight n)%nat.
Proof. destruct n; cbn; lia. Qed.

Lemma Frame_weight_pos (f : @Frame Value) : (0 < Frame_weight f)%nat.
Proof.
  destruct f as [[n|]|dg|t]; cbn [Frame_weight NodePtr_weight].
  - apply Node_weight_pos.
  - lia.
  - unfold Digit_weight. lia.
  - destruct t; cbn; lia.
Qed.

Lemma stack_to_list_cons (f : @Frame Value) stack :
  stack_to_list (f :: stack) = Frame_to_list f ++ stack_to_list stack.
Proof. reflexivity. Qed.

Lemma stack_weight_cons (f : @Frame Value) stack :
  stack_weight (f :: stack) = (Frame_weight f + stack_weight stack)%nat.
Proof. reflexivity. Qed.

Lemma Frame_wf_node d n : Node_wf d n -> Frame_wf (FNode (Some n)).
Proof. intros H. cbn. eauto. Qed.

End Iter.

(** Unfold the weights of the stacks in the context. *)
Ltac weigh :=
  cbn [push_opt] in *;
  rewrite ?stack_weight_cons in *;
  cbn [Frame_weight NodePtr_weight Node_weight Tree_weight] in *;
  unfold Digit_weight in *;
  cbn [Digit_item Digit_items array_get Z.eqb Z.sub Z.add Z.opp Z.pos_sub
       Pos.pred_double NodePtr_weight] in *.

Section Iter.

Context {Value : Type}.
Implicit Types (n : @Node Value) (dg : @Digit Value) (t : @Tree Value)
  (it stack xs ys : list (@Frame Value)).

(** [advance(0)] keeps the elements and stops at the end or on a leaf. *)
Lemma advance_loop_spec fuel : forall stack,
  Forall Frame_wf stack -> (stack_weight stack <= fuel)%nat ->
  exists stack',
    advance_loop fuel false 0 stack = Ok stack'
    /\ stack_to_list stack' = stack_to_list stack
    /\ Forall Frame_wf stack' /\ Iterator_ready stack'
    /\ (stack_weight stack' <= stack_weight stack)%nat.
Proof.
  induction fuel as [|fuel IH]; intros [|head tail] Hwf Hfuel.
  - exists []. cbn. repeat split; auto. now left.
  - pose proof (Frame_weight_pos head). rewrite stack_weight_cons in Hfuel. lia.
  - exists []. cbn. repeat split; auto. now left.
  - inversion Hwf as [|? ? Hh Ht]; subst.
    cbn [advance_loop].
    destruct head as [p|dg|t]; cbn in Hh.
    + destruct Hh as (d & n & -> & Hn). cbn [deref bind].
      destruct n as [v|s a b c].
      * cbn. eexists. split; [reflexivity|]. repeat split; auto.
        right. eauto.
      * destruct d as [|d]; cbn in Hn; [contradiction|].
        destruct Hn as (Ha & Hb & Hc & Hs & Hlt). size_facts.
        rewrite check_index_0 by (destruct c; cbn in *; size_facts; lia).
        cbn [negb].
        destruct (IH (FNode (Some a) :: FNode (Some b) :: push_opt c tail))
          as (st & E & L & W & R & Wt).
        { repeat constructor; eauto using Frame_wf_node.
          destruct c; cbn; auto. constructor; eauto using Frame_wf_node. }
        { destruct c; weigh; lia. }
        rewrite E. exists st. repeat split; auto.
        -- rewrite L. destruct c; cbn; now rewrite <- ?app_assoc.
        -- etransitivity; [exact Wt|]. destruct c; weigh; lia.
    + destruct Hh as (d & Hd). pose proof (Digit_wf_size d dg Hd) as [_ Hsz].
      rewrite check_index_0 by lia.
      inv_digit Hd; cbn [Digit_order Digit_item Digit_items array_get Z.eqb Z.sub
                           Z.add Z.opp Z.pos_sub Pos.pred_double bind] in *.
      all: match goal with
           | |- context [advance_loop _ false 0 ?st] =>
             destruct (IH st) as (st' & E & L & W & R & Wt);
             [ repeat constructor; eauto using Frame_wf_node
             | weigh; lia
             | rewrite E; exists st'; repeat split; auto;
               [ rewrite L; cbn; now rewrite <- ?app_assoc, ?app_nil_r
               | etransitivity; [exact Wt|]; weigh; lia ] ]
           end.
    + destruct Hh as (d & Hd).
      destruct t as [|n|s l m r]; cbn [Tree_size].
      * rewrite check_index_0_0.
        destruct (IH tail) as (st' & E & L & W & R & Wt); auto; [weigh; lia|].
        rewrite E. exists st'. repeat split; auto. weigh. lia.
      * cbn in Hd. size_facts. rewrite check_index_0 by lia.
        destruct (IH (FNode (Some n) :: tail)) as (st' & E & L & W & R & Wt).
        { constructor; eauto using Frame_wf_node. }
        { weigh. lia. }
        rewrite E. exists st'. repeat split; auto. weigh. lia.
      * cbn in Hd. destruct Hd as (Hl & Hm & Hr & Hs & Hlt). size_facts.
        rewrite check_index_0 by lia.
        destruct (IH (FDigit l :: FTree m :: FDigit r :: tail)) as (st' & E & L & W & R & Wt).
        { repeat constructor; cbn; eauto. }
        { rewrite ?stack_weight_cons in *.
          cbn [Frame_weight Tree_weight] in *. lia. }
        rewrite E. exists st'. repeat split; auto.
        -- rewrite L. cbn. now rewrite <- ?app_assoc.
        -- rewrite ?stack_weight_cons in *.
           cbn [Frame_weight Tree_weight] in *. lia.
Qed.

Lemma advance_spec stack :
  Forall Frame_wf stack ->
  exists stack',
    advance false 0 stack = Ok stack'
    /\ stack_to_list stack' = stack_to_list stack
    /\ Forall Frame_wf stack' /\ Iterator_ready stack'
    /\ (stack_weight stack' <= stack_weight stack)%nat.
Proof. intros H. apply advance_loop_spec; auto. Qed.

Lemma Iterator_begin_spec (s : @Sequence Value) :
  Sequence_wf s ->
  exists it,
    Iterator_begin false s = Ok it /\ stack_to_list it = to_list s
    /\ Forall Frame_wf it /\ Iterator_ready it.
Proof.
  intros Hs. unfold Iterator_begin.
  destruct (advance_spec [FTree s]) as (it & E & L & W & R & _).
  { constructor; [|constructor]. cbn. exists 0%nat. exact Hs. }
  exists it. repeat split; auto. rewrite L. cbn. now rewrite app_nil_r.
Qed.

(** One round of a loop over the elements: the element under the iterator
    and the iterator after [++]. *)
Lemma Iterator_step it :
  Forall Frame_wf it -> Iterator_ready it -> Iterator_not_end it = true ->
  exists v it',
    Iterator_deref it = Ok v /\ Iterator_next false it = Ok it'
    /\ stack_to_list it = v :: stack_to_list it'
    /\ Forall Frame_wf it' /\ Iterator_ready it'
    /\ (stack_weight it' < stack_weight it)%nat.
Proof.
  intros Hwf [->|(v & rest & ->)] Hne; [discriminate|].
  inversion Hwf as [|? ? Hh Ht]; subst.
  destruct (advance_spec rest Ht) as (it' & E & L & W & R & Wt).
  exists v, it'. cbn [Iterator_deref Iterator_next deref bind Node_value].
  repeat split; auto.
  - cbn. now rewrite L.
  - rewrite stack_weight_cons. cbn. lia.
Qed.

Lemma Iterator_at_end it :
  Iterator_not_end it = false -> stack_to_list it = [].
Proof. destruct it; [reflexivity|discriminate]. Qed.

Lemma hash_loop_spec hash fuel : forall seed it,
  Forall Frame_wf it -> Iterator_ready it -> (stack_weight it <= fuel)%nat ->
  hash_loop fuel hash seed it
  = Ok (fold_left (fun seed x => Utility.hash_combine seed (hash x))
          (stack_to_list it) seed).
Proof.
  induction fuel as [|fuel IH]; intros seed it Hwf Hr Hfuel.
  - destruct it as [|f it]; [reflexivity|].
    pose proof (Frame_weight_pos f). rewrite stack_weight_cons in Hfuel. lia.
  - cbn [hash_loop]. destruct (Iterator_not_end it) eqn:Hne.
    + destruct (Iterator_step it Hwf Hr Hne) as (v & it' & Ed & En & L & W & R & Wt).
      rewrite Ed, En. cbn [bind]. rewrite IH by (auto; lia).
      now rewrite L.
    + now rewrite (Iterator_at_end it Hne).
Qed.

Lemma HashIterable_spec hash (s : @Sequence Value) :
  Sequence_wf s ->
  HashIterable hash s
  = Ok (fold_left (fun seed x => Utility.hash_combine seed (hash x))
          (to_list s) 2654435769).
Proof.
  intros Hs. unfold HashIterable.
  destruct (Iterator_begin_spec s Hs) as (it & E & L & W & R).
  rewrite E. cbn [bind]. rewrite hash_loop_spec by auto. now rewrite L.
Qed.

Lemma equal_iterator_loop_spec Equal fuel : forall xs ys,
  Forall Frame_wf xs -> Iterator_ready xs ->
  Forall Frame_wf ys -> Iterator_ready ys ->
  (stack_weight xs <= fuel)%nat ->
  equal_iterator_loop fuel Equal xs ys
  = Ok (list_equal Equal (stack_to_list xs) (stack_to_list ys)).
Proof.
  induction fuel as [|fuel IH]; intros xs ys Wx Rx Wy Ry Hfuel.
  - destruct xs as [|f xs].
    + cbn. destruct ys as [|g ys]; [reflexivity|].
      destruct (Iterator_step (g :: ys) Wy Ry eq_refl) as (v & it' & _ & _ & L & _).
      now rewrite L.
    + pose proof (Frame_weight_pos f). rewrite stack_weight_cons in Hfuel. lia.
  - cbn [equal_iterator_loop].
    destruct (Iterator_not_end xs) eqn:Hx; cbn [andb negb].
    + destruct (Iterator_step xs Wx Rx Hx) as (x & xs' & Edx & Enx & Lx & Wx' & Rx' & Wtx).
      destruct (Iterator_not_end ys) eqn:Hy.
      * destruct (Iterator_step ys Wy Ry Hy) as (y & ys' & Edy & Eny & Ly & Wy' & Ry' & Wty).
        rewrite Edx, Edy. cbn [bind]. rewrite Lx, Ly. cbn [list_equal].
        destruct (Equal x y); cbn [negb andb]; [|reflexivity].
        rewrite Enx, Eny. cbn [bind]. apply IH; auto. lia.
      * rewrite (Iterator_at_end ys Hy), Lx. reflexivity.
    + rewrite (Iterator_at_end xs Hx).
      destruct (Iterator_not_end ys) eqn:Hy.
      * destruct (Iterator_step ys Wy Ry Hy) as (y & ys' & _ & _ & Ly & _).
        now rewrite Ly.
      * now rewrite (Iterator_at_end ys Hy).
Qed.

Lemma Sequence_equal_spec Equal (s t : @Sequence Value) :
  Sequence_wf s -> Sequence_wf t ->
  Sequence_equal Equal s t = Ok (list_equal Equal (to_list s) (to_list t)).
Proof.
  intros Hs Ht. unfold Sequence_equal.
  destruct (Iterator_begin_spec s Hs) as (xs & Ex & Lx & Wx & Rx).
  destruct (Iterator_begin_spec t Ht) as (ys & Ey & Ly & Wy & Ry).
  rewrite Ex, Ey. cbn [bind].
  rewrite equal_iterator_loop_spec by auto. now rewrite Lx, Ly.
Qed.

Lemma list_equal_refl Equal (l : list Value) :
  (forall x, Equal x x = true) -> list_equal Equal l l = true.
Proof. intros H. induction l; cbn; [reflexivity|]. now rewrite H. Qed.

Lemma hash_combine_spec seed h :
  Utility.hash_combine seed h = spec_hash_step seed h.
Proof.
  unfold Utility.hash_combine, spec_hash_step.
  rewrite !usize_eq.
  rewrite Z.shiftl_mul_pow2, Z.shiftr_div_pow2 by lia.
  change (2 ^ 64) with 18446744073709551616.
  rewrite <- Zplus_mod, Zplus_mod_idemp_l. reflexivity.
Qed.

End Iter.
End SequenceIter.

(** ** The operations of a sequence *)

Module SequenceLaws.
Import Sequence SequenceFacts SequenceEdit SequenceIter.

#[local] Opaque usize size_modulus.

Section Laws.

Context {Value : Type}.
Implicit Types (s t u vs : @Sequence Value) (v : Value).

Lemma insert_spec s index v :
  Sequence_wf s -> 0 <= index < Sequence_size s ->
  Sequence_size s + 1 < size_modulus ->
  exists r,
    insert s index v = Ok r /\ Sequence_wf r
    /\ to_list r = list_insert index v (to_list s)
    /\ Sequence_size r = Sequence_size s + 1.
Proof.
  intros Hs Hi Hb. unfold insert.
  destruct (Z.geb_spec index (Sequence_size s)); [lia|].
  destruct (Tree_insert_spec s 0%nat index v) as (r & E & W & Sz & L); auto.
  exists r. auto.
Qed.

(** The [insert] of the C++ sequence itself does not clamp. *)
Lemma insert_out_of_range s index v :
  Sequence_size s <= index -> insert s index v = Throw out_of_range.
Proof.
  intros H. unfold insert.
  now destruct (Z.geb_spec index (Sequence_size s)); [|lia].
Qed.

Lemma erase_spec s index :
  Sequence_wf s -> 0 <= index < Sequence_size s ->
  exists r,
    erase s index = Ok r /\ Sequence_wf r
    /\ to_list r = list_erase index (to_list s).
Proof.
  intros Hs Hi. unfold erase.
  destruct (Z.geb_spec index (Sequence_size s)); [lia|].
  destruct (Tree_erase_spec s 0%nat index) as (full & r & E & L & Sz & Hok); auto.
  rewrite E. cbn [bind]. destruct full; cbn in Hok.
  - exists r. auto.
  - subst r. exists Empty. cbn. auto.
Qed.

Lemma split_spec s index :
  Sequence_wf s -> 0 <= index < Sequence_size s ->
  exists l v r,
    split s index = Ok (l, v, r) /\ Sequence_wf l /\ Sequence_wf r
    /\ to_list s = to_list l ++ v :: to_list r
    /\ Sequence_size l = index.
Proof.
  intros Hs Hi. unfold split.
  destruct (Z.geb_spec index (Sequence_size s)); [lia|].
  destruct (Tree_split_spec s 0%nat index) as (l & n & r & E & Wl & Wn & Wr & L & Hn); auto.
  rewrite E. cbn [bind].
  destruct (Node_wf_leaf n Wn) as [v ->]. cbn in Hn |- *.
  exists l, v, r. repeat split; auto. unfold Sequence_size. lia.
Qed.

Lemma Sequence_equal_same Equal s t :
  Sequence_wf s -> Sequence_wf t -> (forall x, Equal x x = true) ->
  to_list s = to_list t -> Sequence_equal Equal s t = Ok true.
Proof.
  intros Hs Ht Hrefl L. rewrite Sequence_equal_spec by assumption.
  rewrite L. now rewrite list_equal_refl.
Qed.

(** C1. For a well-formed sequence [s] and an index [i < |s|], [s.split(i)]
    returns [(left, v, right)] with [left] of length [i], and
    [left.push_back(v).append(right)] is a sequence with the elements of
    [s], equal to [s] under [==]; for an index [i >= |s|] the call throws
    [out_of_range]. *)
Theorem split_rejoin s index :
  Sequence_wf s -> 0 <= index ->
  (index < Sequence_size s ->
   exists left v right pushed joined,
     split s index = Ok (left, v, right)
     /\ Z.of_nat (length (to_list left)) = index
     /\ push_back left v = Ok pushed
     /\ append pushed right = Ok joined
     /\ to_list joined = to_list s
     /\ forall Equal, (forall x, Equal x x = true) ->
                      Sequence_equal Equal joined s = Ok true)
  /\ (Sequence_size s <= index -> split s index = Throw out_of_range).
Proof.
  intros Hs Hi. split.
  - intros Hlt.
    destruct (split_spec s index) as (l & v & r & E & Wl & Wr & L & Sl); [assumption|lia|].
    destruct (Sequence_wf_size s Hs) as [Es Rs].
    destruct (Sequence_wf_size l Wl) as [El Rl].
    destruct (Sequence_wf_size r Wr) as [Er Rr].
    assert (Hlen : Sequence_size s = Sequence_size l + 1 + Sequence_size r).
    { rewrite Es, El, Er, L, length_app. cbn [length]. lia. }
    destruct (push_back_spec l v) as (p & Ep & Wp & Lp); [assumption|lia|].
    destruct (Sequence_wf_size p Wp) as [Epz Rp].
    destruct (append_spec p r) as (j & Ej & Wj & Lj); [assumption|assumption| |].
    { rewrite Epz, Lp, length_app. cbn [length]. lia. }
    exists l, v, r, p, j. repeat split; auto; try lia.
    + rewrite Lj, Lp, L, <- app_assoc. reflexivity.
    + intros Equal Hrefl. apply Sequence_equal_same; auto.
      rewrite Lj, Lp, L, <- app_assoc. reflexivity.
  - intros Hge. unfold split.
    now destruct (Z.geb_spec index (Sequence_size s)); [|lia].
Qed.

Lemma append_Empty_r s : append s Empty = Ok s.
Proof. destruct s; reflexivity. Qed.

(** C2. Concatenation is a monoid up to the elements: [s.append(Empty)] and
    [Empty.append(s)] return [s], and [s.append(t).append(u)] and
    [s.append(t.append(u))] have the same elements and are equal under
    [==]. *)
Theorem append_monoid s t u :
  Sequence_wf s -> Sequence_wf t -> Sequence_wf u ->
  Sequence_size s + Sequence_size t + Sequence_size u < size_modulus ->
  append s Empty = Ok s
  /\ append Empty s = Ok s
  /\ exists st st_u tu s_tu,
       append s t = Ok st /\ append st u = Ok st_u
       /\ append t u = Ok tu /\ append s tu = Ok s_tu
       /\ to_list st_u = to_list s_tu
       /\ forall Equal, (forall x, Equal x x = true) ->
                        Sequence_equal Equal st_u s_tu = Ok true.
Proof.
  intros Hs Ht Hu Hb.
  destruct (Sequence_wf_size s Hs) as [Es Rs].
  destruct (Sequence_wf_size t Ht) as [Et Rt].
  destruct (Sequence_wf_size u Hu) as [Eu Ru].
  split; [apply append_Empty_r|]. split; [reflexivity|].
  destruct (append_spec s t) as (st & E1 & W1 & L1); [assumption|assumption|lia|].
  destruct (Sequence_wf_size st W1) as [Est _].
  destruct (append_spec st u) as (stu & E2 & W2 & L2); [assumption|assumption| |].
  { rewrite Est, L1, length_app. lia. }
  destruct (append_spec t u) as (tu & E3 & W3 & L3); [assumption|assumption|lia|].
  destruct (Sequence_wf_size tu W3) as [Etu _].
  destruct (append_spec s tu) as (stu' & E4 & W4 & L4); [assumption|assumption| |].
  { rewrite Etu, L3, length_app. lia. }
  exists st, stu, tu, stu'. repeat split; auto.
  - rewrite L2, L1, L4, L3. now rewrite app_assoc.
  - intros Equal Hrefl. apply Sequence_equal_same; auto.
    rewrite L2, L1, L4, L3. now rewrite app_assoc.
Qed.

(** C3. The [insert] binding never throws: for a well-formed sequence of
    length [n] and every [Py_ssize_t] index it returns the sequence with the
    value inserted at the index, counted from the end when negative and
    clamped to [[0, n]]. In particular [insert(n, v)] is [push_back(v)], and
    [insert(0, v)] on the empty sequence is the one-element sequence. *)
Theorem py_insert_clamps s index v :
  Sequence_wf s ->
  Sequence_size s <= ssize_max ->
  ssize_min <= index <= ssize_max ->
  (exists r,
     py_insert s index v = Ok r /\ Sequence_wf r
     /\ to_list r
        = list_insert (spec_insert_position (Sequence_size s) index) v (to_list s))
  /\ py_insert s (Sequence_size s) v = push_back s v
  /\ py_insert Empty 0 v = Ok (Single (Leaf v)).
Proof.
  intros Hs Hmax Hi.
  destruct (Sequence_wf_size s Hs) as [Es Rs].
  assert (Hb : Sequence_size s + 1 < size_modulus).
  { pose proof size_modulus_eq. unfold ssize_max in *. lia. }
  split; [|split].
  - unfold py_insert, spec_insert_position.
    assert (Hidx : (if index <? 0
                    then to_ssize (usize (usize index + Sequence_size s))
                    else index)
                   = if index <? 0 then index + Sequence_size s else index).
    { destruct (Z.ltb_spec index 0) as [Hneg|Hpos]; [|reflexivity].
      rewrite !usize_eq, Zplus_mod_idemp_l. unfold to_ssize.
      rewrite size_modulus_eq in *. unfold ssize_max, ssize_min in *.
      destruct (Z.le_gt_cases 0 (index + Sequence_size s)).
      - rewrite Z.mod_small by lia.
        destruct (Z.leb_spec (index + Sequence_size s) 9223372036854775807); lia.
      - replace ((index + Sequence_size s) mod 18446744073709551616)
          with (index + Sequence_size s + 18446744073709551616).
        + destruct (Z.leb_spec (index + Sequence_size s + 18446744073709551616)
                      9223372036854775807); lia.
        + apply Z.mod_unique with (q := -1); lia. }
    rewrite Hidx. clear Hidx.
    set (i := if index <? 0 then index + Sequence_size s else index).
    assert (Hi' : ssize_min <= i <= ssize_max).
    { unfold i, ssize_min, ssize_max in *. destruct (Z.ltb_spec index 0); lia. }
    destruct (Z.ltb_spec i 0) as [Hneg|Hpos].
    + destruct (push_front_spec s v) as (r & E & W & L); [assumption|lia|].
      exists r. repeat split; auto. rewrite L.
      replace (Z.max 0 (Z.min (Sequence_size s) i)) with 0 by lia.
      reflexivity.
    + assert (Hu : usize i = i).
      { apply usize_small. pose proof size_modulus_eq.
        unfold ssize_max in *. lia. }
      rewrite Hu.
      destruct (Z.geb_spec i (Sequence_size s)) as [Hge|Hlt].
      * destruct (push_back_spec s v) as (r & E & W & L); [assumption|lia|].
        exists r. repeat split; auto. rewrite L.
        replace (Z.max 0 (Z.min (Sequence_size s) i)) with (Sequence_size s) by lia.
        rewrite list_insert_end; [reflexivity|lia].
      * destruct (insert_spec s i v) as (r & E & W & L & _); [assumption|lia|lia|].
        exists r. repeat split; auto. rewrite L.
        replace (Z.max 0 (Z.min (Sequence_size s) i)) with i by lia.
        reflexivity.
  - assert (E0 : (Sequence_size s <? 0) = false) by (apply Z.ltb_ge; lia).
    assert (E1 : (Sequence_size s >=? Sequence_size s) = true)
      by (rewrite Z.geb_leb; apply Z.leb_le; lia).
    unfold py_insert. rewrite !E0, usize_small by lia. now rewrite E1.
  - reflexivity.
Qed.

(** C4. The two-index slice [s.at(l, r)] returns what
    [s.take_front(r).drop_front(l)] returns: the elements of [s] from
    position [l] up to position [r], both clamped to the length of [s]; when
    [l >= r] this is the empty sequence. The three statements of the source
    that discard their value change nothing. *)
Theorem at_slice_is_take_drop s l r :
  Sequence_wf s -> 0 <= l -> 0 <= r ->
  exists front res,
    take_front s r = Ok front /\ drop_front front l = Ok res
    /\ at_slice s l r = Ok res
    /\ Sequence_wf res
    /\ to_list res = list_drop l (list_take r (to_list s))
    /\ to_list res
       = list_drop (Z.min l (Sequence_size s))
           (list_take (Z.min r (Sequence_size s)) (to_list s))
    /\ (r <= l -> to_list res = []).
Proof.
  intros Hs Hl Hr.
  destruct (Sequence_wf_size s Hs) as [Es Rs].
  destruct (take_front_spec s r Hs Hr) as (front & Ef & Wf & Lf).
  destruct (drop_front_spec front l Wf Hl) as (res & Er & Wr & Lr).
  destruct (drop_front_spec s l Hs Hl) as (d & Ed & Wd & Ld).
  exists front, res. split; [assumption|]. split; [assumption|].
  split.
  { unfold at_slice. rewrite Ef, Ed.
    destruct (l >=? r), (l =? 0), (r >=? Sequence_size s); cbn [bind]; exact Er. }
  split; [assumption|].
  assert (L : to_list res = list_drop l (list_take r (to_list s))) by now rewrite Lr, Lf.
  split; [assumption|]. split.
  - rewrite L. unfold list_drop, list_take.
    destruct (Z.le_gt_cases r (Sequence_size s)) as [Hr'|Hr'].
    + rewrite (Z.min_l r) by lia.
      destruct (Z.le_gt_cases l (Sequence_size s)) as [Hl'|Hl'].
      * now rewrite (Z.min_l l) by lia.
      * rewrite (Z.min_r l) by lia.
        rewrite !skipn_all2; [reflexivity| |]; rewrite length_firstn; lia.
    + rewrite (Z.min_r r) by lia.
      rewrite (firstn_all2 (n := Z.to_nat r)) by lia.
      rewrite (firstn_all2 (n := Z.to_nat (Sequence_size s))) by lia.
      destruct (Z.le_gt_cases l (Sequence_size s)) as [Hl'|Hl'].
      * now rewrite (Z.min_l l) by lia.
      * rewrite (Z.min_r l) by lia. rewrite !skipn_all2; [reflexivity| |]; lia.
  - intros Hrl. rewrite L. unfold list_drop, list_take.
    apply skipn_all2. rewrite length_firstn. lia.
Qed.

(** C5. For a well-formed sequence [s], an index [i < |s|] and a value [v],
    [s.insert(i, v).erase(i)] has the elements of [s] and is equal to [s]
    under [==]. *)
Theorem insert_erase_roundtrip s index v :
  Sequence_wf s -> 0 <= index < Sequence_size s ->
  Sequence_size s + 1 < size_modulus ->
  exists inserted erased,
    insert s index v = Ok inserted /\ erase inserted index = Ok erased
    /\ to_list erased = to_list s
    /\ forall Equal, (forall x, Equal x x = true) ->
                     Sequence_equal Equal erased s = Ok true.
Proof.
  intros Hs Hi Hb.
  destruct (Sequence_wf_size s Hs) as [Es Rs].
  destruct (insert_spec s index v) as (a & Ea & Wa & La & Sa); auto.
  destruct (erase_spec a index) as (b & Eb & Wb & Lb); [assumption|lia|].
  assert (L : to_list b = to_list s).
  { rewrite Lb, La. apply list_erase_insert. lia. }
  exists a, b. repeat split; auto.
  intros Equal Hrefl. now apply Sequence_equal_same.
Qed.

(** C7. The hash of a well-formed sequence is the left-to-right fold of
    [seed = hash(elem) + 0x9e3779b9 + (seed << 6) + (seed >> 2)], in [size_t]
    arithmetic, over its elements, from the seed [0x9e3779b9]; two
    well-formed sequences with the same elements have the same hash, whatever
    the shapes of their trees. *)
Theorem hash_is_fold (hash : Value -> Z) s :
  Sequence_wf s ->
  HashIterable hash s
  = Ok (fold_left (fun seed x => spec_hash_step seed (hash x)) (to_list s) 2654435769)
  /\ forall t, Sequence_wf t -> to_list t = to_list s ->
               HashIterable hash t = HashIterable hash s.
Proof.
  intros Hs. split.
  - rewrite HashIterable_spec by assumption. f_equal.
    generalize 2654435769.
    induction (to_list s) as [|x xs IH]; intros seed; cbn [fold_left].
    + reflexivity.
    + rewrite hash_combine_spec. apply IH.
  - intros t Ht L. rewrite !HashIterable_spec by assumption. now rewrite L.
Qed.

(** C9. With [l > r] the slice assignment [s.set(l, r, vs)] deletes nothing:
    it returns what [s.take_front(l).append(vs).append(s.drop_front(l))]
    returns, the elements of [s] before position [l], then those of [vs],
    then the elements of [s] from position [l] on. *)
Theorem set_slice_reversed_keeps_all s l r vs :
  Sequence_wf s -> Sequence_wf vs ->
  0 <= r < l ->
  Sequence_size s + Sequence_size vs < size_modulus ->
  exists front mid back res,
    take_front s l = Ok front /\ append front vs = Ok mid
    /\ drop_front s l = Ok back /\ append mid back = Ok res
    /\ set_slice s l r vs = Ok res
    /\ to_list res = list_take l (to_list s) ++ to_list vs ++ list_drop l (to_list s)
    /\ list_take l (to_list s) ++ list_drop l (to_list s) = to_list s.
Proof.
  intros Hs Hvs Hrl Hb.
  destruct (Sequence_wf_size s Hs) as [Es Rs].
  destruct (Sequence_wf_size vs Hvs) as [Ev Rv].
  destruct (take_front_spec s l Hs) as (front & Ef & Wf & Lf); [lia|].
  destruct (drop_front_spec s l Hs) as (back & Eb & Wb & Lb); [lia|].
  destruct (Sequence_wf_size front Wf) as [Efz _].
  destruct (Sequence_wf_size back Wb) as [Ebz _].
  assert (Hsplit : list_take l (to_list s) ++ list_drop l (to_list s) = to_list s)
    by apply firstn_skipn.
  assert (Hlen : (length (to_list front) + length (to_list back) = length (to_list s))%nat).
  { rewrite Lf, Lb, <- length_app, Hsplit. reflexivity. }
  destruct (append_spec front vs) as (mid & Em & Wm & Lm); [assumption|assumption|lia|].
  destruct (Sequence_wf_size mid Wm) as [Emz _].
  destruct (append_spec mid back) as (res & Er & Wr & Lr); [assumption|assumption| |].
  { rewrite Emz, Lm, length_app. lia. }
  exists front, mid, back, res. repeat split; auto.
  - unfold set_slice. destruct (Z.gtb_spec l r); [|lia].
    now rewrite Ef, Eb; cbn [bind]; rewrite Em; cbn [bind].
  - rewrite Lr, Lm, Lf, Lb. now rewrite app_assoc.
Qed.

End Laws.
(** *** The theorems at the sequence 1, ..., 12 *)

Lemma sample_wf : Sequence_wf sample.
Proof. vm_compute. repeat split. Qed.

Lemma sample_789_wf : Sequence_wf sample_789.
Proof. vm_compute. repeat split. Qed.

Lemma split_rejoin_witness :
  Sequence_wf sample /\ 0 <= 5 < Sequence_size sample /\
  exists left v right pushed joined,
    split sample 5 = Ok (left, v, right) /\ push_back left v = Ok pushed
    /\ append pushed right = Ok joined /\ to_list joined = to_list sample.
Proof.
  assert (B : 0 <= 5 < Sequence_size sample) by (vm_compute; split; [discriminate|reflexivity]).
  split; [exact sample_wf|]. split; [exact B|].
  destruct (split_rejoin sample 5 sample_wf (proj1 B)) as [H _].
  destruct (H (proj2 B)) as (l & v & r & p & j & E1 & _ & E2 & E3 & E4 & _).
  exists l, v, r, p, j. auto.
Defined.

Lemma append_monoid_witness :
  Sequence_wf sample /\ Sequence_wf sample_789 /\
  append sample Empty = Ok sample /\ append Empty sample = Ok sample /\
  exists st st_u tu s_tu,
    append sample sample_789 = Ok st /\ append st sample = Ok st_u
    /\ append sample_789 sample = Ok tu /\ append sample tu = Ok s_tu
    /\ to_list st_u = to_list s_tu.
Proof.
  split; [exact sample_wf|]. split; [exact sample_789_wf|].
  destruct (append_monoid sample sample_789 sample sample_wf sample_789_wf sample_wf)
    as (E1 & E2 & st & st_u & tu & s_tu & A1 & A2 & A3 & A4 & L & _).
  { vm_compute. reflexivity. }
  split; [exact E1|]. split; [exact E2|].
  exists st, st_u, tu, s_tu. auto.
Defined.

Lemma py_insert_clamps_witness :
  Sequence_wf sample /\
  (exists r, py_insert sample (-3) 100 = Ok r
             /\ to_list r = [1; 2; 3; 4; 5; 6; 7; 8; 9; 100; 10; 11; 12])
  /\ py_insert sample 12 100 = push_back sample 100.
Proof.
  split; [exact sample_wf|].
  destruct (py_insert_clamps sample (-3) 100 sample_wf) as [(r & E & _ & L) [P _]].
  { vm_compute. discriminate. }
  { vm_compute. split; discriminate. }
  split; [|exact P].
  exists r. split; [exact E|]. rewrite L. vm_compute. reflexivity.
Defined.

Lemma at_slice_is_take_drop_witness :
  Sequence_wf sample /\
  exists res, at_slice sample 3 8 = Ok res /\ to_list res = [4; 5; 6; 7; 8].
Proof.
  split; [exact sample_wf|].
  destruct (at_slice_is_take_drop sample 3 8 sample_wf)
    as (front & res & _ & _ & E & _ & L & _); [lia|lia|].
  exists res. split; [exact E|]. rewrite L. vm_compute. reflexivity.
Defined.

Lemma insert_erase_roundtrip_witness :
  Sequence_wf sample /\
  exists inserted erased,
    insert sample 5 100 = Ok inserted /\ erase inserted 5 = Ok erased
    /\ to_list erased = to_list sample
    /\ Sequence_equal Z.eqb erased sample = Ok true.
Proof.
  split; [exact sample_wf|].
  destruct (insert_erase_roundtrip sample 5 100 sample_wf)
    as (a & b & E1 & E2 & L & Q).
  { vm_compute. split; [discriminate|reflexivity]. }
  { vm_compute. reflexivity. }
  exists a, b. repeat split; auto. apply Q. apply Z.eqb_refl.
Defined.

Lemma hash_is_fold_witness :
  Sequence_wf sample_789 /\
  HashIterable (fun x : Z => x) sample_789
  = Ok (spec_hash_step
          (spec_hash_step (spec_hash_step 2654435769 7) 8) 9).
Proof.
  split; [exact sample_789_wf|].
  exact (proj1 (hash_is_fold (fun x : Z => x) sample_789 sample_789_wf)).
Defined.

Lemma set_slice_reversed_keeps_all_witness :
  Sequence_wf sample /\ Sequence_wf sample_789 /\
  exists res, set_slice sample 8 3 sample_789 = Ok res
              /\ to_list res = [1; 2; 3; 4; 5; 6; 7; 8; 7; 8; 9; 9; 10; 11; 12].
Proof.
  split; [exact sample_wf|]. split; [exact sample_789_wf|].
  destruct (set_slice_reversed_keeps_all sample 8 3 sample_789 sample_wf sample_789_wf)
    as (front & mid & back & res & _ & _ & _ & _ & E & L & _).
  { lia. }
  { vm_compute. reflexivity. }
  exists res. split; [exact E|]. rewrite L. vm_compute. reflexivity.
Defined.

End SequenceLaws.

(** ** Element access, update and reversal *)

Module SequenceAccess.
Import Sequence SequenceFacts SequenceEdit.

#[local] Opaque usize size_modulus check_index.

Lemma list_nth_app_l {A} i (a b : list A) :
  0 <= i < Z.of_nat (length a) -> list_nth i (a ++ b) = list_nth i a.
Proof. intros H. unfold list_nth. apply nth_error_app1. lia. Qed.

Lemma list_nth_app_r {A} i (a b : list A) :
  Z.of_nat (length a) <= i ->
  list_nth i (a ++ b) = list_nth (i - Z.of_nat (length a)) b.
Proof.
  intros H. unfold list_nth. rewrite nth_error_app2 by lia. f_equal. lia.
Qed.

Lemma list_set_app_l {A} i (v : A) (a b : list A) :
  0 <= i < Z.of_nat (length a) -> list_set i v (a ++ b) = list_set i v a ++ b.
Proof.
  intros H. unfold list_set.
  rewrite firstn_app, skipn_app.
  replace (Z.to_nat i - length a)%nat with 0%nat by lia.
  replace (S (Z.to_nat i) - length a)%nat with 0%nat by lia.
  cbn. rewrite app_nil_r, <- app_assoc. reflexivity.
Qed.

Lemma list_set_app_r {A} i (v : A) (a b : list A) :
  Z.of_nat (length a) <= i ->
  list_set i v (a ++ b) = a ++ list_set (i - Z.of_nat (length a)) v b.
Proof.
  intros H. unfold list_set.
  rewrite firstn_app, skipn_app.
  rewrite firstn_all2 by lia. rewrite (skipn_all2 (n := S (Z.to_nat i))) by lia.
  replace (Z.to_nat i - length a)%nat with (Z.to_nat (i - Z.of_nat (length a))) by lia.
  replace (S (Z.to_nat i) - length a)%nat
    with (S (Z.to_nat (i - Z.of_nat (length a)))) by lia.
  cbn. rewrite <- app_assoc. reflexivity.
Qed.

Lemma list_set_length {A} i (v : A) (l : list A) :
  0 <= i < Z.of_nat (length l) -> length (list_set i v l) = length l.
Proof.
  intros H. unfold list_set.
  rewrite length_app. cbn [length]. rewrite length_firstn, length_skipn. lia.
Qed.

Lemma list_nth_set {A} i (v : A) (l : list A) :
  0 <= i < Z.of_nat (length l) -> list_nth i (list_set i v l) = Some v.
Proof.
  intros H. unfold list_nth, list_set.
  rewrite nth_error_app2 by (rewrite length_firstn; lia).
  rewrite length_firstn. replace (Z.to_nat i - Nat.min (Z.to_nat i) (length l))%nat
    with 0%nat by lia. reflexivity.
Qed.

Lemma list_nth_set_other {A} i j (v : A) (l : list A) :
  0 <= i < Z.of_nat (length l) -> 0 <= j -> i <> j ->
  list_nth j (list_set i v l) = list_nth j l.
Proof.
  intros Hi Hj Hne. unfold list_nth, list_set.
  rewrite <- (firstn_skipn (Z.to_nat i) l) at 3.
  destruct (Z.lt_ge_cases j i).
  - rewrite !nth_error_app1 by (rewrite length_firstn; lia). reflexivity.
  - rewrite !nth_error_app2 by (rewrite length_firstn; lia).
    rewrite length_firstn.
    replace (Z.to_nat j - Nat.min (Z.to_nat i) (length l))%nat
      with (S (Z.to_nat j - S (Z.to_nat i)))%nat by lia.
    cbn [nth_error].
    rewrite <- (Nat.add_1_l (Z.to_nat i)), <- skipn_skipn.
    destruct (skipn (Z.to_nat i) l) as [|x rest] eqn:E.
    + apply (f_equal (@length A)) in E. rewrite length_skipn in E. cbn in E. lia.
    + reflexivity.
Qed.

Lemma list_nth_single {A} (v : A) : list_nth 0 [v] = Some v.
Proof. reflexivity. Qed.

Lemma list_set_single {A} (v w : A) : list_set 0 v [w] = [v].
Proof. reflexivity. Qed.

#[local] Opaque list_nth list_set.

Section Access.

Context {Value : Type}.
Implicit Types (n : @Node Value) (dg : @Digit Value) (t : @Tree Value).

Lemma Node_get_spec d : forall n index,
  Node_wf d n -> 0 <= index < Node_size n ->
  exists v, Node_get n index = Ok v /\ list_nth index (Node_to_list n) = Some v.
Proof.
  induction d as [|d IH]; intros [v|s a b c] index; cbn [Node_wf]; try contradiction.
  - intros _ H. cbn in H. replace index with 0 by lia.
    exists v. split; [reflexivity|apply list_nth_single].
  - intros (Ha & Hb & Hc & Hs & Hlt) H. cbn [Node_size] in H.
    size_facts. cbn [Node_get Node_to_list].
    step_check.
    + destruct (IH a index Ha) as (v & E & L); [lia|].
      exists v. split; [assumption|]. rewrite list_nth_app_l by lia. assumption.
    + rewrite list_nth_app_r by lia.
      step_check.
      * destruct (IH b (index - Node_size a) Hb) as (v & E & L); [lia|].
        exists v. split; [assumption|]. rewrite list_nth_app_l by lia.
        now replace (index - Z.of_nat (length (Node_to_list a)))
          with (index - Node_size a) by lia.
      * destruct c as [c|]; cbn in Hs.
        -- size_facts.
           destruct (IH c (index - Node_size a - Node_size b) Hc) as (v & E & L); [lia|].
           exists v. split; [assumption|]. rewrite list_nth_app_r by lia.
           now replace (index - Z.of_nat (length (Node_to_list a))
                        - Z.of_nat (length (Node_to_list b)))
             with (index - Node_size a - Node_size b) by lia.
        -- lia.
Qed.

End Access.

(** Locate position [i] of a concatenation in the part it falls in. *)
Ltac nth_split :=
  repeat first [ rewrite list_nth_app_l by lia | rewrite list_nth_app_r by lia ].

Ltac set_split :=
  repeat first [ rewrite list_set_app_l by lia | rewrite list_set_app_r by lia ].

(** Run the [Node_get] of the goal through its specification. *)
Ltac step_get :=
  match goal with
  | Hn : Node_wf ?d ?n |- context [Node_get ?n ?i] =>
    let v := fresh "v" in
    let E := fresh "E" in
    let L := fresh "L" in
    destruct (Node_get_spec d n i Hn) as (v & E & L); [lia|];
    exists v; split; [exact E|];
    list_norm; nth_split; rewrite <- L; f_equal; lia
  end.

Section Access.

Context {Value : Type}.
Implicit Types (n : @Node Value) (dg : @Digit Value) (t : @Tree Value).

Lemma Digit_get_spec d dg index :
  Digit_wf d dg -> 0 <= index < Digit_size dg ->
  exists v, Digit_get dg index = Ok v /\ list_nth index (Digit_to_list dg) = Some v.
Proof.
  intros H Hi. inv_digit H; cbn in Hi; size_facts; unfold Digit_get; cbn;
    repeat (step_check; try step_get); try lia.
Qed.

Lemma Tree_get_spec t : forall d index,
  Tree_wf d t -> 0 <= index < Tree_size t ->
  exists v, Tree_get t index = Ok v /\ list_nth index (Tree_to_list t) = Some v.
Proof.
  induction t as [|n|s l m IH r]; intros d index; cbn [Tree_wf Tree_size].
  - lia.
  - intros H Hi. now apply (Node_get_spec d).
  - intros (Hl & Hm & Hr & Hs & Hlt) Hi. size_facts.
    cbn [Tree_get Tree_to_list]. step_check.
    + destruct (Digit_get_spec d l index Hl) as (v & E & L); [lia|].
      exists v. split; [exact E|]. nth_split. exact L.
    + step_check.
      * destruct (IH (S d) (index - Digit_size l) Hm) as (v & E & L); [lia|].
        exists v. split; [exact E|]. nth_split. rewrite <- L. f_equal. lia.
      * destruct (Digit_get_spec d r (index - Digit_size l - Tree_size m) Hr)
          as (v & E & L); [lia|].
        exists v. split; [exact E|]. nth_split. rewrite <- L. f_equal. lia.
Qed.

Lemma Node_set_spec d : forall n index v,
  Node_wf d n -> 0 <= index < Node_size n ->
  exists n',
    Node_set n index v = Ok n' /\ Node_wf d n'
    /\ Node_to_list n' = list_set index v (Node_to_list n)
    /\ Node_size n' = Node_size n.
Proof.
  induction d as [|d IH]; intros [w|s a b c] index v; cbn [Node_wf]; try contradiction.
  - intros _ H. cbn in H. replace index with 0 by lia.
    exists (Leaf v). repeat split. 
  - intros (Ha & Hb & Hc & Hs & Hlt) H. cbn [Node_size] in H.
    size_facts. cbn [Node_set Node_to_list].
    step_check.
    + destruct (IH a index v Ha) as (a' & E & W & L & Sz); [lia|].
      rewrite E. cbn. eexists. split; [reflexivity|].
      cbn. rewrite L, Sz. set_split. repeat split; auto.
    + step_check.
      * destruct (IH b (index - Node_size a) v Hb) as (b' & E & W & L & Sz); [lia|].
        rewrite E. cbn. eexists. split; [reflexivity|].
        cbn. rewrite L, Sz. set_split. repeat split; auto.
        do 3 f_equal. lia.
      * destruct c as [c|]; cbn in Hs; [|lia].
        size_facts.
        destruct (IH c (index - Node_size a - Node_size b) v Hc)
          as (c' & E & W & L & Sz); [lia|].
        rewrite E. cbn. eexists. split; [reflexivity|].
        cbn. rewrite L, Sz. set_split. repeat split; auto.
        do 3 f_equal. lia.
Qed.

End Access.

(** Run the [Node_set] of the goal through its specification. *)
Ltac step_set :=
  match goal with
  | Hn : Node_wf ?d ?n |- context [Node_set ?n ?i ?v] =>
    let n' := fresh "n" in
    let E := fresh "E" in
    let W := fresh "W" in
    let L := fresh "L" in
    let Sz := fresh "Sz" in
    destruct (Node_set_spec d n i v Hn) as (n' & E & W & L & Sz); [lia|];
    rewrite E; cbn; eexists; split; [reflexivity|];
    cbn; rewrite ?L, ?Sz; list_norm; set_split;
    repeat split; auto; try lia;
    repeat (f_equal; try lia)
  end.

Section Access.

Context {Value : Type}.
Implicit Types (n : @Node Value) (dg : @Digit Value) (t : @Tree Value).

Lemma Digit_set_spec d dg index v :
  Digit_wf d dg -> 0 <= index < Digit_size dg ->
  exists dg',
    Digit_set dg index v = Ok dg' /\ Digit_wf d dg'
    /\ Digit_to_list dg' = list_set index v (Digit_to_list dg)
    /\ Digit_size dg' = Digit_size dg.
Proof.
  intros H Hi. inv_digit H; cbn in Hi; size_facts; unfold Digit_set; cbn;
    repeat (step_check; try step_set); try lia.
Qed.

Lemma Tree_set_spec t : forall d index v,
  Tree_wf d t -> 0 <= index < Tree_size t ->
  exists t',
    Tree_set t index v = Ok t' /\ Tree_wf d t'
    /\ Tree_to_list t' = list_set index v (Tree_to_list t)
    /\ Tree_size t' = Tree_size t.
Proof.
  induction t as [|n|s l m IH r]; intros d index v; cbn [Tree_wf Tree_size].
  - lia.
  - intros H Hi.
    destruct (Node_set_spec d n index v H Hi) as (n' & E & W & L & Sz).
    cbn. rewrite E. cbn. eexists. split; [reflexivity|]. cbn. auto.
  - intros (Hl & Hm & Hr & Hs & Hlt) Hi. size_facts.
    cbn [Tree_set Tree_to_list]. step_check.
    + destruct (Digit_set_spec d l index v Hl) as (l' & E & W & L & Sz); [lia|].
      rewrite E. cbn. eexists. split; [reflexivity|].
      cbn. rewrite L, Sz. set_split. repeat split; auto.
    + step_check.
      * destruct (IH (S d) (index - Digit_size l) v Hm) as (m' & E & W & L & Sz); [lia|].
        rewrite E. cbn. eexists. split; [reflexivity|].
        cbn. rewrite L, Sz. set_split. repeat split; auto.
        do 3 f_equal. lia.
      * destruct (Digit_set_spec d r (index - Digit_size l - Tree_size m) v Hr)
          as (r' & E & W & L & Sz); [lia|].
        rewrite E. cbn. eexists. split; [reflexivity|].
        cbn. rewrite L, Sz. set_split. repeat split; auto.
        do 3 f_equal. lia.
Qed.

(** *** Reversal *)

Lemma Node_reverse_involutive n : Node_reverse (Node_reverse n) = n.
Proof.
  revert n. fix IH 1. intros [v|s a b [c|]]; cbn.
  - reflexivity.
  - now rewrite (IH a), (IH b), (IH c).
  - now rewrite (IH a), (IH b).
Qed.

Lemma Node_reverse_spec d : forall n,
  Node_wf d n ->
  Node_wf d (Node_reverse n)
  /\ Node_to_list (Node_reverse n) = rev (Node_to_list n)
  /\ Node_size (Node_reverse n) = Node_size n.
Proof.
  induction d as [|d IH]; intros [v|s a b c]; cbn [Node_wf]; try contradiction.
  - intros _. repeat split.
  - intros (Ha & Hb & Hc & Hs & Hlt).
    destruct (IH a Ha) as (Wa & La & Sa). destruct (IH b Hb) as (Wb & Lb & Sb).
    destruct c as [c|]; cbn in *.
    + destruct (IH c Hc) as (Wc & Lc & Sc).
      rewrite La, Lb, Lc, Sa, Sb, Sc, !rev_app_distr, <- app_assoc.
      repeat split; auto; lia.
    + rewrite La, Lb, Sa, Sb, app_nil_r, !rev_app_distr.
      repeat split; auto; lia.
Qed.

Lemma Digit_reverse_spec d dg :
  Digit_wf d dg ->
  exists dg',
    Digit_reverse dg = Ok dg' /\ Digit_wf d dg'
    /\ Digit_to_list dg' = rev (Digit_to_list dg)
    /\ Digit_size dg' = Digit_size dg
    /\ Digit_reverse dg' = Ok dg.
Proof.
  intros H. inv_digit H; unfold Digit_reverse; cbn;
    eexists; (split; [reflexivity|]); cbn;
    repeat match goal with
    | Hn : Node_wf d ?n |- _ =>
      is_var n;
      let W := fresh "W" in
      let L := fresh "L" in
      let Sz := fresh "Sz" in
      destruct (Node_reverse_spec d n Hn) as (W & L & Sz); clear Hn
    end;
    rewrite ?Node_reverse_involutive;
    repeat match goal with
    | L : Node_to_list (Node_reverse _) = _ |- _ => rewrite L; clear L
    | Sz : Node_size (Node_reverse _) = _ |- _ => rewrite Sz in *; clear Sz
    end;
    rewrite ?app_nil_r, ?rev_app_distr, <- ?app_assoc;
    repeat split; auto; try lia.
Qed.

Lemma Tree_reverse_spec t : forall d,
  Tree_wf d t ->
  exists t',
    Tree_reverse t = Ok t' /\ Tree_wf d t'
    /\ Tree_to_list t' = rev (Tree_to_list t)
    /\ Tree_size t' = Tree_size t
    /\ Tree_reverse t' = Ok t.
Proof.
  induction t as [|n|s l m IH r]; intros d; cbn [Tree_wf].
  - intros _. exists Empty. repeat split.
  - intros H. destruct (Node_reverse_spec d n H) as (W & L & Sz).
    eexists. split; [reflexivity|]. cbn. rewrite Node_reverse_involutive. auto.
  - intros (Hl & Hm & Hr & Hs & Hlt). size_facts.
    destruct (Digit_reverse_spec d l Hl) as (l' & El & Wl & Ll & Sl & Rl).
    destruct (Digit_reverse_spec d r Hr) as (r' & Er & Wr & Lr & Sr & Rr).
    destruct (IH (S d) Hm) as (m' & Em & Wm & Lm & Sm & Rm).
    cbn [Tree_reverse]. rewrite Er, Em, El. cbn [bind].
    eexists. split; [reflexivity|].
    unfold Deep_make. cbn [Tree_wf Tree_to_list Tree_size Tree_reverse].
    rewrite Rl, Rm, Rr. cbn [bind]. unfold Deep_make.
    rewrite Ll, Lm, Lr, Sl, Sm, Sr, !rev_app_distr, <- app_assoc.
    usz. repeat split; auto; try lia.
    do 2 f_equal. lia.
Qed.

End Access.
End SequenceAccess.

(** ** More operations of a sequence *)

Module SequenceMore.
Import Sequence SequenceFacts SequenceEdit SequenceIter SequenceLaws SequenceAccess.

#[local] Opaque usize size_modulus.

Section More.

Context {Value : Type}.
Implicit Types (s t u vs : @Sequence Value) (v : Value).

Lemma Sequence_empty_list s : Sequence_wf s -> to_list s = [] -> s = Empty.
Proof.
  intros Hs L. destruct s as [|n|sz l m r]; [reflexivity| |]; exfalso.
  - destruct (Node_wf_size 0%nat n Hs) as [H1 H2].
    change (Node_to_list n = []) in L. rewrite L in H1. cbn in H1. lia.
  - destruct Hs as (Hl & _). destruct (Digit_wf_size 0%nat l Hl) as [H1 H2].
    change (Digit_to_list l ++ Tree_to_list m ++ Digit_to_list r = []) in L.
    apply app_eq_nil in L. destruct L as [L _].
    rewrite L in H1. cbn in H1. lia.
Qed.

(** X1. [seq.push_front(value)] returns a well-formed sequence that is
    [value] followed by the elements of [seq], one element longer. *)
Theorem push_front_elements s v :
  Sequence_wf s -> Sequence_size s + 1 < size_modulus ->
  exists r,
    push_front s v = Ok r /\ Sequence_wf r /\ to_list r = v :: to_list s
    /\ Sequence_size r = Sequence_size s + 1.
Proof.
  intros Hs Hb. destruct (push_front_spec s v Hs Hb) as (r & E & W & L).
  exists r. repeat split; auto.
  destruct (Sequence_wf_size s Hs) as [Es _].
  destruct (Sequence_wf_size r W) as [Er _].
  rewrite Er, Es, L. cbn [length]. lia.
Qed.

(** X2. [seq.push_back(value)] returns a well-formed sequence that is the
    elements of [seq] followed by [value], one element longer. *)
Theorem push_back_elements s v :
  Sequence_wf s -> Sequence_size s + 1 < size_modulus ->
  exists r,
    push_back s v = Ok r /\ Sequence_wf r /\ to_list r = to_list s ++ [v]
    /\ Sequence_size r = Sequence_size s + 1.
Proof.
  intros Hs Hb. destruct (push_back_spec s v Hs Hb) as (r & E & W & L).
  exists r. repeat split; auto.
  destruct (Sequence_wf_size s Hs) as [Es _].
  destruct (Sequence_wf_size r W) as [Er _].
  rewrite Er, Es, L, length_app. cbn [length]. lia.
Qed.

Lemma from_list_loop_spec vals : forall s,
  Sequence_wf s -> Sequence_size s + Z.of_nat (length vals) < size_modulus ->
  exists r,
    from_list_loop s vals = Ok r /\ Sequence_wf r /\ to_list r = to_list s ++ vals.
Proof.
  induction vals as [|v vals IH]; intros s Hs Hb; cbn [from_list_loop].
  - exists s. rewrite app_nil_r. auto.
  - cbn [length] in Hb.
    destruct (push_back_spec s v Hs) as (s' & E & W & L); [lia|].
    rewrite E. cbn [bind].
    destruct (Sequence_wf_size s Hs) as [Es _].
    destruct (Sequence_wf_size s' W) as [Es' _].
    destruct (IH s' W) as (r & Er & Wr & Lr).
    { rewrite Es', L, length_app. cbn [length]. lia. }
    exists r. repeat split; auto. rewrite Lr, L, <- app_assoc. reflexivity.
Qed.

(** X3. The constructor from a range of input iterators, which pushes the
    values on the back one by one, returns a well-formed sequence whose
    elements are the values in their order and whose size is their
    number. *)
Theorem from_list_elements (values : list Value) :
  Z.of_nat (length values) < size_modulus ->
  exists s,
    from_list values = Ok s /\ Sequence_wf s /\ to_list s = values
    /\ Sequence_size s = Z.of_nat (length values).
Proof.
  intros Hb.
  destruct (from_list_loop_spec values Empty) as (s & E & W & L).
  { exact I. }
  { cbn. lia. }
  exists s. cbn in L. repeat split; auto.
  destruct (Sequence_wf_size s W) as [Es _]. now rewrite Es, L.
Qed.

Lemma front_is_head s :
  Sequence_wf s ->
  front s = match to_list s with
            | [] => Throw out_of_range
            | v :: _ => Ok v
            end.
Proof.
  intros Hs. destruct s as [|n|sz l m r].
  - reflexivity.
  - destruct (Node_wf_leaf n Hs) as [v ->]. reflexivity.
  - destruct Hs as (Hl & _). unfold to_list. cbn [Tree_to_list front].
    inv_digit Hl;
      repeat match goal with
      | H : Node_wf 0 ?n |- _ => destruct (Node_wf_leaf n H) as [? ->]; clear H
      end; reflexivity.
Qed.

Lemma back_is_last s :
  Sequence_wf s ->
  back s = match rev (to_list s) with
           | [] => Throw out_of_range
           | v :: _ => Ok v
           end.
Proof.
  intros Hs. destruct s as [|n|sz l m r].
  - reflexivity.
  - destruct (Node_wf_leaf n Hs) as [v ->]. reflexivity.
  - destruct Hs as (_ & _ & Hr & _). unfold to_list. cbn [Tree_to_list back].
    rewrite !rev_app_distr.
    inv_digit Hr;
      repeat match goal with
      | H : Node_wf 0 ?n |- _ => destruct (Node_wf_leaf n H) as [? ->]; clear H
      end; reflexivity.
Qed.

(** X4. [seq.front()] returns the first and [seq.back()] the last element
    of a sequence; both throw [out_of_range] on the empty sequence. *)
Theorem front_back_elements s :
  Sequence_wf s ->
  front s = match to_list s with
            | [] => Throw out_of_range
            | v :: _ => Ok v
            end
  /\ back s = match rev (to_list s) with
              | [] => Throw out_of_range
              | v :: _ => Ok v
              end.
Proof. intros Hs. split; [now apply front_is_head|now apply back_is_last]. Qed.

(** X5. [seq.view_front()] throws [out_of_range] on the empty sequence and
    otherwise returns the first element and a well-formed sequence of the
    elements after it. *)
Theorem view_front_spec s :
  Sequence_wf s ->
  match to_list s with
  | [] => view_front s = Throw out_of_range
  | v :: rest =>
    exists tail,
      view_front s = Ok (v, tail) /\ Sequence_wf tail /\ to_list tail = rest
  end.
Proof.
  intros Hs. destruct (to_list s) as [|v rest] eqn:L.
  - now rewrite (Sequence_empty_list s Hs L).
  - assert (Hne : s <> Empty) by (intros ->; discriminate).
    destruct (Tree_view_front_ok s 0%nat Hs Hne) as (n & tail & E & Wn & Wt & Ln & _).
    destruct (Node_wf_leaf n Wn) as [w ->].
    unfold to_list in L. rewrite Ln in L. cbn in L. inversion L; subst.
    exists tail. unfold view_front. rewrite E. cbn. auto.
Qed.

(** X6. [seq.view_back()] throws [out_of_range] on the empty sequence and
    otherwise returns a well-formed sequence of the elements before the
    last one, and the last element. *)
Theorem view_back_spec s :
  Sequence_wf s ->
  match rev (to_list s) with
  | [] => view_back s = Throw out_of_range
  | v :: rest =>
    exists init,
      view_back s = Ok (init, v) /\ Sequence_wf init /\ to_list init = rev rest
  end.
Proof.
  intros Hs. destruct (rev (to_list s)) as [|v rest] eqn:L.
  - apply (f_equal (@rev Value)) in L. rewrite rev_involutive in L. cbn in L.
    now rewrite (Sequence_empty_list s Hs L).
  - assert (Hne : s <> Empty) by (intros ->; discriminate).
    destruct (Tree_view_back_ok s 0%nat Hs Hne) as (init & n & E & Wn & Wt & Ln & _).
    destruct (Node_wf_leaf n Wn) as [w ->].
    unfold to_list in L. rewrite Ln, rev_app_distr in L. cbn in L.
    inversion L; subst.
    exists init. unfold view_back. rewrite E. cbn. rewrite rev_involutive. auto.
Qed.

Lemma at_index_nth s index :
  Sequence_wf s -> 0 <= index ->
  at_index s index = match list_nth index (to_list s) with
                     | Some v => Ok v
                     | None => Throw out_of_range
                     end.
Proof.
  intros Hs Hi. destruct (Sequence_wf_size s Hs) as [Es _]. unfold at_index.
  destruct (Z.geb_spec index (Sequence_size s)) as [Hge|Hlt].
  - unfold list_nth.
    now rewrite (proj2 (nth_error_None (to_list s) (Z.to_nat index))) by lia.
  - destruct (Tree_get_spec s 0%nat index Hs) as (v & E & L); [unfold Sequence_size in *; lia|].
    unfold to_list. now rewrite L.
Qed.

(** X7. [seq.at(index)] returns the element at position [index] and throws
    [out_of_range] when [index] is not below the size. *)
Theorem at_index_spec s index :
  Sequence_wf s -> 0 <= index ->
  at_index s index = match list_nth index (to_list s) with
                     | Some v => Ok v
                     | None => Throw out_of_range
                     end.
Proof. apply at_index_nth. Qed.

(** X8. [seq.set(index, value)] returns a well-formed sequence of the same
    size with the element at position [index] replaced by [value], where
    [at(index)] returns [value] and [at] of another position returns what
    it returned before; it throws [out_of_range] when [index] is not below
    the size. *)
Theorem set_index_spec s index v :
  Sequence_wf s -> 0 <= index ->
  (index < Sequence_size s ->
   exists r,
     set_index s index v = Ok r /\ Sequence_wf r
     /\ to_list r = list_set index v (to_list s)
     /\ Sequence_size r = Sequence_size s
     /\ at_index r index = Ok v
     /\ forall j, 0 <= j -> j <> index -> at_index r j = at_index s j)
  /\ (Sequence_size s <= index -> set_index s index v = Throw out_of_range).
Proof.
  intros Hs Hi. destruct (Sequence_wf_size s Hs) as [Es _]. unfold set_index.
  split; intros H; destruct (Z.geb_spec index (Sequence_size s)); try lia; [|reflexivity].
  destruct (Tree_set_spec s 0%nat index v Hs) as (r & E & W & L & Sz);
    [unfold Sequence_size in *; lia|].
  exists r. repeat split; auto.
  - rewrite (at_index_nth r index W Hi). unfold to_list. rewrite L.
    now rewrite list_nth_set by (unfold to_list in Es; lia).
  - intros j Hj Hne. rewrite (at_index_nth r j W Hj), (at_index_nth s j Hs Hj).
    unfold to_list. rewrite L.
    now rewrite list_nth_set_other by (unfold to_list in Es; lia).
Qed.

Lemma list_nth_insert {A} i (v : A) (l : list A) :
  0 <= i <= Z.of_nat (length l) -> list_nth i (list_insert i v l) = Some v.
Proof.
  intros H. unfold list_nth, list_insert.
  rewrite nth_error_app2 by (rewrite length_firstn; lia).
  rewrite length_firstn.
  replace (Z.to_nat i - Nat.min (Z.to_nat i) (length l))%nat with 0%nat by lia.
  reflexivity.
Qed.

(** X9. [seq.insert(index, value)] of the C++ class throws [out_of_range]
    when [index] is not below the size, also for [index] equal to the
    size; for a smaller index it returns a well-formed sequence, one
    element longer, with [value] at position [index] and the other
    elements in their order. *)
Theorem insert_elements s index v :
  Sequence_wf s -> 0 <= index -> Sequence_size s + 1 < size_modulus ->
  (index < Sequence_size s ->
   exists r,
     insert s index v = Ok r /\ Sequence_wf r
     /\ to_list r = list_insert index v (to_list s)
     /\ Sequence_size r = Sequence_size s + 1
     /\ at_index r index = Ok v)
  /\ (Sequence_size s <= index -> insert s index v = Throw out_of_range).
Proof.
  intros Hs Hi Hb. destruct (Sequence_wf_size s Hs) as [Es _]. split; intros H.
  - destruct (insert_spec s index v Hs) as (r & E & W & L & Sz); [lia|lia|].
    exists r. repeat split; auto.
    rewrite (at_index_nth r index W Hi), L.
    now rewrite list_nth_insert by lia.
  - now apply insert_out_of_range.
Qed.

(** X10. [seq.erase(index)] throws [out_of_range] when [index] is not below
    the size and otherwise returns a well-formed sequence, one element
    shorter, without the element at position [index]. *)
Theorem erase_elements s index :
  Sequence_wf s -> 0 <= index ->
  (index < Sequence_size s ->
   exists r,
     erase s index = Ok r /\ Sequence_wf r
     /\ to_list r = list_erase index (to_list s)
     /\ Sequence_size r = Sequence_size s - 1)
  /\ (Sequence_size s <= index -> erase s index = Throw out_of_range).
Proof.
  intros Hs Hi. destruct (Sequence_wf_size s Hs) as [Es _]. split; intros H.
  - destruct (erase_spec s index Hs) as (r & E & W & L); [lia|].
    exists r. repeat split; auto.
    destruct (Sequence_wf_size r W) as [Er _]. rewrite Er, L, Es.
    unfold list_erase. rewrite length_app, length_firstn, length_skipn. lia.
  - unfold erase. now destruct (Z.geb_spec index (Sequence_size s)); [|lia].
Qed.

Lemma drop_back_spec s index :
  Sequence_wf s -> 0 <= index ->
  exists r,
    drop_back s index = Ok r /\ Sequence_wf r
    /\ to_list r = firstn (length (to_list s) - Z.to_nat index) (to_list s).
Proof.
  intros Hs Hi. destruct (Sequence_wf_size s Hs) as [Es Rs]. unfold drop_back.
  rewrite usize_small by lia.
  destruct (take_front_spec s (Sequence_size s - Z.min (Sequence_size s) index) Hs)
    as (r & E & W & L); [lia|].
  exists r. repeat split; auto. rewrite L. unfold list_take. f_equal. lia.
Qed.



(** X11. [seq.take_front(index)] and [seq.drop_front(index)] never throw:
    they return well-formed sequences of the first [index] elements and of
    the elements from position [index] on, which together are the elements
    of [seq]; when [index] is not below the size these are the whole
    sequence and the empty one. *)
Theorem take_drop_front_elements s index :
  Sequence_wf s -> 0 <= index ->
  exists f r,
    take_front s index = Ok f /\ drop_front s index = Ok r
    /\ Sequence_wf f /\ Sequence_wf r
    /\ to_list f = firstn (Z.to_nat index) (to_list s)
    /\ to_list r = skipn (Z.to_nat index) (to_list s)
    /\ to_list f ++ to_list r = to_list s
    /\ Sequence_size f = Z.min index (Sequence_size s).
Proof.
  intros Hs Hi. destruct (Sequence_wf_size s Hs) as [Es _].
  destruct (drop_front_spec s index Hs Hi) as (r & E & W & L).
  destruct (take_front_spec s index Hs Hi) as (f & Ef & Wf & Lf).
  exists f, r. repeat split; auto.
  - rewrite L, Lf. apply firstn_skipn.
  - destruct (Sequence_wf_size f Wf) as [Ezf _].
    rewrite Ezf, Lf. unfold list_take. rewrite length_firstn. lia.
Qed.

(** X12. [seq.take_back(index)] and [seq.drop_back(index)] never throw:
    they return well-formed sequences of the last [index] elements and of
    the elements before them, which together are the elements of [seq];
    when [index] is not below the size these are the whole sequence and
    the empty one. *)
Theorem take_drop_back_elements s index :
  Sequence_wf s -> 0 <= index ->
  exists b r,
    take_back s index = Ok b /\ drop_back s index = Ok r
    /\ Sequence_wf b /\ Sequence_wf r
    /\ to_list b = skipn (length (to_list s) - Z.to_nat index) (to_list s)
    /\ to_list r = firstn (length (to_list s) - Z.to_nat index) (to_list s)
    /\ to_list r ++ to_list b = to_list s
    /\ Sequence_size b = Z.min index (Sequence_size s).
Proof.
  intros Hs Hi. destruct (Sequence_wf_size s Hs) as [Es _].
  destruct (drop_back_spec s index Hs Hi) as (r & E & W & L).
  destruct (take_back_spec s index Hs Hi) as (b & Eb & Wb & Lb).
  exists b, r. repeat split; auto.
  - rewrite L, Lb. apply firstn_skipn.
  - destruct (Sequence_wf_size b Wb) as [Ezb _].
    rewrite Ezb, Lb, length_skipn. lia.
Qed.

(** X13. [seq.erase(left, right)] never throws: with [left < right] it
    returns the elements before position [left] followed by those from
    position [right] on, and with [left >= right] the sequence itself. *)
Theorem erase_slice_elements s l r :
  Sequence_wf s -> 0 <= l -> 0 <= r ->
  exists res,
    erase_slice s l r = Ok res /\ Sequence_wf res
    /\ to_list res
       = if l <? r
         then firstn (Z.to_nat l) (to_list s) ++ skipn (Z.to_nat r) (to_list s)
         else to_list s.
Proof.
  intros Hs Hl Hr. destruct (Sequence_wf_size s Hs) as [Es Rs]. unfold erase_slice.
  destruct (Z.geb_spec l r) as [Hge|Hlt].
  { exists s. destruct (Z.ltb_spec l r); [lia|]. auto. }
  destruct (Z.ltb_spec l r); [|lia].
  destruct (take_front_spec s l Hs Hl) as (f & Ef & Wf & Lf).
  destruct (drop_front_spec s r Hs Hr) as (b & Eb & Wb & Lb).
  unfold list_take in Lf. unfold list_drop in Lb.
  destruct (Z.eqb_spec l 0) as [->|Hl0].
  { exists b. repeat split; auto. }
  destruct (Z.geb_spec r (Sequence_size s)) as [Hrs|Hrs].
  { exists f. repeat split; auto.
    rewrite (skipn_all2 (n := Z.to_nat r)) by lia. now rewrite app_nil_r. }
  rewrite Ef, Eb. cbn [bind].
  destruct (Sequence_wf_size f Wf) as [Ezf _].
  destruct (Sequence_wf_size b Wb) as [Ezb _].
  destruct (append_spec f b Wf Wb) as (res & E & W & L).
  { rewrite Ezf, Ezb, Lf, Lb, length_firstn, length_skipn. lia. }
  exists res. repeat split; auto. now rewrite L, Lf, Lb.
Qed.

(** X14. [seq.splitat(index)] never throws: it returns the first [index]
    elements and the elements from position [index] on as two well-formed
    sequences, the second one empty when [index] is not below the size. *)
Theorem splitat_elements s index :
  Sequence_wf s -> 0 <= index ->
  exists l r,
    splitat s index = Ok (l, r) /\ Sequence_wf l /\ Sequence_wf r
    /\ to_list l = firstn (Z.to_nat index) (to_list s)
    /\ to_list r = skipn (Z.to_nat index) (to_list s).
Proof.
  intros Hs Hi. destruct (Sequence_wf_size s Hs) as [Es Rs]. unfold splitat.
  destruct (Z.geb_spec index (Sequence_size s)) as [Hge|Hlt].
  { exists s, Empty. repeat split; auto.
    - now rewrite firstn_all2 by lia.
    - now rewrite skipn_all2 by lia. }
  destruct (split_spec s index Hs) as (l & v & r & E & Wl & Wr & L & Sz); [lia|].
  rewrite E. cbn [bind].
  destruct (Sequence_wf_size l Wl) as [El _].
  destruct (Sequence_wf_size r Wr) as [Er _].
  assert (Hlen : length (to_list s) = (length (to_list l) + S (length (to_list r)))%nat)
    by (rewrite L, length_app; reflexivity).
  destruct (push_front_spec r v Wr) as (r' & E' & W' & L'); [lia|].
  rewrite E'. cbn [bind]. exists l, r'. repeat split; auto.
  - rewrite L. replace (Z.to_nat index) with (length (to_list l) + 0)%nat by lia.
    rewrite firstn_app_2. cbn. now rewrite app_nil_r.
  - rewrite L, L'. replace (Z.to_nat index) with (length (to_list l) + 0)%nat by lia.
    rewrite skipn_app, skipn_all2 by lia.
    replace (length (to_list l) + 0 - length (to_list l))%nat with 0%nat by lia.
    reflexivity.
Qed.

(** X15. [seq.reverse()] returns a well-formed sequence of the same size
    with the elements in reverse order, and reversing that sequence gives
    back [seq] itself, node for node. *)
Theorem reverse_elements s :
  Sequence_wf s ->
  exists r,
    reverse s = Ok r /\ Sequence_wf r /\ to_list r = rev (to_list s)
    /\ Sequence_size r = Sequence_size s /\ reverse r = Ok s.
Proof. intros Hs. exact (Tree_reverse_spec s 0%nat Hs). Qed.

Lemma list_repeat_app {A} a b (l : list A) :
  list_repeat (a + b) l = list_repeat a l ++ list_repeat b l.
Proof.
  induction a as [|a IH]; cbn; [reflexivity|]. now rewrite IH, app_assoc.
Qed.

Lemma list_repeat_comm {A} n (l : list A) :
  list_repeat n l ++ l = l ++ list_repeat n l.
Proof.
  induction n as [|n IH]; cbn; [now rewrite app_nil_r|].
  now rewrite <- app_assoc, IH.
Qed.

Lemma list_repeat_double {A} n (l : list A) :
  list_repeat n (l ++ l) = list_repeat (2 * n) l.
Proof.
  induction n as [|n IH]; cbn; [reflexivity|].
  rewrite IH. replace (n + S (n + 0))%nat with (S (2 * n)) by lia.
  cbn. now rewrite <- app_assoc.
Qed.

Lemma list_repeat_length {A} n (l : list A) :
  length (list_repeat n l) = (n * length l)%nat.
Proof. induction n as [|n IH]; cbn; [reflexivity|]. rewrite length_app. lia. Qed.

Lemma repeat_loop_spec fuel : forall times (tree acc : @Sequence Value),
  Sequence_wf tree -> Sequence_wf acc ->
  0 < times < 2 ^ Z.of_nat fuel ->
  times * Sequence_size tree + Sequence_size acc < size_modulus ->
  exists r,
    repeat_loop fuel times tree acc = Ok r /\ Sequence_wf r
    /\ to_list r = list_repeat (Z.to_nat times) (to_list tree) ++ to_list acc.
Proof.
  induction fuel as [|fuel IH]; intros times tree acc Ht Ha Hr Hb.
  { cbn in Hr. lia. }
  destruct (Sequence_wf_size tree Ht) as [Et Rt].
  destruct (Sequence_wf_size acc Ha) as [Ea Ra].
  cbn [repeat_loop].
  change 1 with (Z.ones 1) at 1. rewrite Z.land_ones by lia.
  rewrite Z.shiftr_div_pow2 by lia. change (2 ^ 1) with 2.
  pose proof (Z.div_mod times 2 ltac:(lia)) as Hdm.
  pose proof (Z.mod_pos_bound times 2 ltac:(lia)) as Hm.
  rewrite Nat2Z.inj_succ, Z.pow_succ_r in Hr by lia.
  match goal with
  | |- context [bind ?c _] =>
    assert (Hacc : exists acc',
      c = Ok acc' /\ Sequence_wf acc'
      /\ to_list acc'
         = list_repeat (Z.to_nat (times mod 2)) (to_list tree) ++ to_list acc)
  end.
  { destruct (Z.eqb_spec (times mod 2) 0) as [E0|E1]; cbn [negb].
    - exists acc. rewrite E0. auto.
    - destruct (append_spec tree acc Ht Ha) as (acc' & E & W & L); [nia|].
      exists acc'. replace (times mod 2) with 1 by lia.
      change (Z.to_nat 1) with 1%nat. cbn [list_repeat]. rewrite app_nil_r. auto. }
  destruct Hacc as (acc' & Eacc & Wacc & Lacc). rewrite Eacc. cbn [bind].
  destruct (Sequence_wf_size acc' Wacc) as [Ea' _].
  assert (Hsz : Sequence_size acc'
                = times mod 2 * Sequence_size tree + Sequence_size acc).
  { rewrite Ea', Lacc, length_app, list_repeat_length, Et, Ea. nia. }
  destruct (Z.eqb_spec (times / 2) 0) as [E0|Hn0].
  - exists acc'. repeat split; auto. rewrite Lacc. do 2 f_equal. lia.
  - destruct (append_spec tree tree Ht Ht) as (tree' & E & W & L); [nia|].
    change (Tree_append tree tree) with (append tree tree). rewrite E. cbn [bind].
    destruct (Sequence_wf_size tree' W) as [Et' _].
    assert (Hsz' : Sequence_size tree' = 2 * Sequence_size tree).
    { rewrite Et', L, length_app, Et. lia. }
    destruct (IH (times / 2) tree' acc' W Wacc) as (r & Er & Wr & Lr); [nia|nia|].
    exists r. repeat split; auto.
    rewrite Lr, L, Lacc, list_repeat_double.
    replace (Z.to_nat times)
      with (2 * Z.to_nat (times / 2) + Z.to_nat (times mod 2))%nat by lia.
    rewrite list_repeat_app, <- !app_assoc. reflexivity.
Qed.

Lemma repeat_spec s times :
  Sequence_wf s -> 0 <= times ->
  times * Sequence_size s < size_modulus -> times < size_modulus ->
  exists r,
    repeat s times = Ok r /\ Sequence_wf r
    /\ to_list r = list_repeat (Z.to_nat times) (to_list s).
Proof.
  intros Hs Ht Hb Hlt. unfold repeat.
  destruct (Z.eqb_spec times 0) as [->|Hn0].
  { exists Empty. repeat split. }
  destruct (repeat_loop_spec 64 times s Empty Hs I) as (r & E & W & L).
  { rewrite size_modulus_eq in Hlt. split; [lia|]. exact Hlt. }
  { cbn. lia. }
  exists r. repeat split; auto. rewrite L. cbn. now rewrite app_nil_r.
Qed.

(** X16. [seq.repeat(times)] returns a well-formed sequence of [times]
    copies of the elements of [seq], one after the other, and the empty
    sequence for [times = 0]. *)
Theorem repeat_elements s times :
  Sequence_wf s -> 0 <= times ->
  times * Sequence_size s < size_modulus -> times < size_modulus ->
  exists r,
    repeat s times = Ok r /\ Sequence_wf r
    /\ to_list r = list_repeat (Z.to_nat times) (to_list s).
Proof. apply repeat_spec. Qed.

End More.
(** *** The theorems at the sequences 1, ..., 12 and 7, 8, 9 *)

Lemma push_front_elements_witness :
  exists r, push_front sample 0 = Ok r /\ to_list r = 0 :: to_list sample.
Proof.
  destruct (push_front_elements sample 0 sample_wf) as (r & E & W & L & Sz);
    [vm_compute; reflexivity|].
  exists r. auto.
Defined.

Lemma push_back_elements_witness :
  exists r, push_back sample 13 = Ok r /\ to_list r = to_list sample ++ [13].
Proof.
  destruct (push_back_elements sample 13 sample_wf) as (r & E & W & L & Sz);
    [vm_compute; reflexivity|].
  exists r. auto.
Defined.

Lemma from_list_elements_witness :
  exists s, from_list [7; 8; 9] = Ok s /\ Sequence_wf s /\ to_list s = [7; 8; 9].
Proof.
  destruct (from_list_elements [7; 8; 9]) as (s & E & W & L & Sz);
    [vm_compute; reflexivity|].
  exists s. auto.
Defined.

Lemma front_back_elements_witness : front sample = Ok 1 /\ back sample = Ok 12.
Proof. exact (front_back_elements sample sample_wf). Defined.

Lemma view_front_spec_witness :
  exists tail,
    view_front sample_789 = Ok (7, tail) /\ Sequence_wf tail /\ to_list tail = [8; 9].
Proof. exact (view_front_spec sample_789 sample_789_wf). Defined.

Lemma view_back_spec_witness :
  exists init,
    view_back sample_789 = Ok (init, 9) /\ Sequence_wf init /\ to_list init = [7; 8].
Proof. exact (view_back_spec sample_789 sample_789_wf). Defined.

Lemma at_index_spec_witness :
  at_index sample 4 = Ok 5 /\ at_index sample 12 = Throw out_of_range.
Proof.
  split.
  - exact (at_index_spec sample 4 sample_wf ltac:(lia)).
  - exact (at_index_spec sample 12 sample_wf ltac:(lia)).
Defined.

Lemma set_index_spec_witness :
  (exists r, set_index sample 4 50 = Ok r /\ at_index r 4 = Ok 50)
  /\ set_index sample 12 50 = Throw out_of_range.
Proof.
  destruct (set_index_spec sample 4 50 sample_wf ltac:(lia)) as [H _].
  destruct (set_index_spec sample 12 50 sample_wf ltac:(lia)) as [_ H'].
  split.
  - destruct H as (r & E & _ & _ & _ & G & _); [vm_compute; reflexivity|].
    exists r. auto.
  - apply H'. vm_compute. discriminate.
Defined.

Lemma insert_elements_witness :
  (exists r, insert sample 4 50 = Ok r /\ at_index r 4 = Ok 50)
  /\ insert sample 12 50 = Throw out_of_range.
Proof.
  destruct (insert_elements sample 4 50 sample_wf ltac:(lia)) as [H _];
    [vm_compute; reflexivity|].
  destruct (insert_elements sample 12 50 sample_wf ltac:(lia)) as [_ H'];
    [vm_compute; reflexivity|].
  split.
  - destruct H as (r & E & _ & _ & _ & G); [vm_compute; reflexivity|].
    exists r. auto.
  - apply H'. vm_compute. discriminate.
Defined.

Lemma erase_elements_witness :
  (exists r, erase sample 4 = Ok r /\ Sequence_size r = 11)
  /\ erase sample 12 = Throw out_of_range.
Proof.
  destruct (erase_elements sample 4 sample_wf ltac:(lia)) as [H _].
  destruct (erase_elements sample 12 sample_wf ltac:(lia)) as [_ H'].
  split.
  - destruct H as (r & E & _ & _ & Sz); [vm_compute; reflexivity|].
    exists r. auto.
  - apply H'. vm_compute. discriminate.
Defined.

Lemma take_drop_front_elements_witness :
  exists f r,
    take_front sample 5 = Ok f /\ drop_front sample 5 = Ok r
    /\ to_list f ++ to_list r = to_list sample.
Proof.
  destruct (take_drop_front_elements sample 5 sample_wf ltac:(lia))
    as (f & r & E1 & E2 & _ & _ & _ & _ & L & _).
  exists f, r. auto.
Defined.

Lemma take_drop_back_elements_witness :
  exists b r,
    take_back sample 5 = Ok b /\ drop_back sample 5 = Ok r
    /\ to_list r ++ to_list b = to_list sample.
Proof.
  destruct (take_drop_back_elements sample 5 sample_wf ltac:(lia))
    as (b & r & E1 & E2 & _ & _ & _ & _ & L & _).
  exists b, r. auto.
Defined.

Lemma erase_slice_elements_witness :
  exists res,
    erase_slice sample 3 8 = Ok res /\ to_list res = [1; 2; 3; 9; 10; 11; 12].
Proof.
  destruct (erase_slice_elements sample 3 8 sample_wf ltac:(lia) ltac:(lia))
    as (res & E & _ & L).
  exists res. split; [exact E|exact L].
Defined.

Lemma splitat_elements_witness :
  exists l r,
    splitat sample 5 = Ok (l, r) /\ to_list l = [1; 2; 3; 4; 5]
    /\ to_list r = [6; 7; 8; 9; 10; 11; 12].
Proof.
  destruct (splitat_elements sample 5 sample_wf ltac:(lia)) as (l & r & E & _ & _ & Ll & Lr).
  exists l, r. repeat split; [exact E|exact Ll|exact Lr].
Defined.

Lemma reverse_elements_witness :
  exists r, reverse sample_789 = Ok r /\ to_list r = [9; 8; 7]
            /\ reverse r = Ok sample_789.
Proof.
  destruct (reverse_elements sample_789 sample_789_wf) as (r & E & _ & L & _ & R).
  exists r. repeat split; [exact E|exact L|exact R].
Defined.

Lemma repeat_elements_witness :
  exists r, repeat sample_789 3 = Ok r
            /\ to_list r = [7; 8; 9; 7; 8; 9; 7; 8; 9].
Proof.
  destruct (repeat_elements sample_789 3 sample_789_wf ltac:(lia)) as (r & E & _ & L);
    [vm_compute; reflexivity|vm_compute; reflexivity|].
  exists r. split; [exact E|exact L].
Defined.

End SequenceMore.

(** ** Iteration and comparison *)

Module SequenceOrder.
Import Sequence SequenceFacts SequenceIter.

#[local] Opaque usize size_modulus check_index.

Section Order.

Context {Value : Type}.
Implicit Types (n : @Node Value) (dg : @Digit Value) (t : @Tree Value)
  (it stack xs ys : list (@Frame Value)).

Lemma stack_to_list_rev_cons (f : @Frame Value) stack :
  stack_to_list_rev (f :: stack) = rev (Frame_to_list f) ++ stack_to_list_rev stack.
Proof. reflexivity. Qed.

(** [advance(0)] of a reverse iterator keeps the elements and stops at the
    end or on a leaf. *)
Lemma advance_loop_rev_spec fuel : forall stack,
  Forall Frame_wf stack -> (stack_weight stack <= fuel)%nat ->
  exists stack',
    advance_loop fuel true 0 stack = Ok stack'
    /\ stack_to_list_rev stack' = stack_to_list_rev stack
    /\ Forall Frame_wf stack' /\ Iterator_ready stack'
    /\ (stack_weight stack' <= stack_weight stack)%nat.
Proof.
  induction fuel as [|fuel IH]; intros [|head tail] Hwf Hfuel.
  - exists []. cbn. repeat split; auto. now left.
  - pose proof (Frame_weight_pos head). rewrite stack_weight_cons in Hfuel. lia.
  - exists []. cbn. repeat split; auto. now left.
  - inversion Hwf as [|? ? Hh Ht]; subst.
    cbn [advance_loop].
    destruct head as [p|dg|t]; cbn in Hh.
    + destruct Hh as (d & n & -> & Hn). cbn [deref bind].
      destruct n as [v|s a b c].
      * cbn. eexists. split; [reflexivity|]. repeat split; auto.
        right. eauto.
      * destruct d as [|d]; cbn in Hn; [contradiction|].
        destruct Hn as (Ha & Hb & Hc & Hs & Hlt). size_facts.
        rewrite check_index_0 by (destruct c; cbn in *; size_facts; lia).
        cbn [negb].
        destruct (IH (push_opt c (FNode (Some b) :: FNode (Some a) :: tail)))
          as (st & E & L & W & R & Wt).
        { destruct c; cbn; repeat constructor; eauto using Frame_wf_node. }
        { destruct c; weigh; lia. }
        rewrite E. exists st. repeat split; auto.
        -- rewrite L. destruct c; cbn;
             rewrite ?rev_app_distr, ?app_nil_r, <- ?app_assoc; reflexivity.
        -- etransitivity; [exact Wt|]. destruct c; weigh; lia.
    + destruct Hh as (d & Hd). pose proof (Digit_wf_size d dg Hd) as [_ Hsz].
      rewrite check_index_0 by lia.
      inv_digit Hd; cbn [Digit_order Digit_item Digit_items array_get Z.eqb Z.sub
                           Z.add Z.opp Z.pos_sub Pos.pred_double bind Z.geb
                           Z.compare Pos.compare Pos.compare_cont] in *.
      all: match goal with
           | |- context [advance_loop _ true 0 ?st] =>
             destruct (IH st) as (st' & E & L & W & R & Wt);
             [ repeat constructor; eauto using Frame_wf_node
             | weigh; lia
             | rewrite E; exists st'; repeat split; auto;
               [ rewrite L; cbn;
                 rewrite ?rev_app_distr, ?app_nil_r, <- ?app_assoc; reflexivity
               | etransitivity; [exact Wt|]; weigh; lia ] ]
           end.
    + destruct Hh as (d & Hd).
      destruct t as [|n|s l m r]; cbn [Tree_size].
      * rewrite check_index_0_0.
        destruct (IH tail) as (st' & E & L & W & R & Wt); auto; [weigh; lia|].
        rewrite E. exists st'. repeat split; auto. weigh. lia.
      * cbn in Hd. size_facts. rewrite check_index_0 by lia.
        destruct (IH (FNode (Some n) :: tail)) as (st' & E & L & W & R & Wt).
        { constructor; eauto using Frame_wf_node. }
        { weigh. lia. }
        rewrite E. exists st'. repeat split; auto. weigh. lia.
      * cbn in Hd. destruct Hd as (Hl & Hm & Hr & Hs & Hlt). size_facts.
        rewrite check_index_0 by lia.
        destruct (IH (FDigit r :: FTree m :: FDigit l :: tail)) as (st' & E & L & W & R & Wt).
        { repeat constructor; cbn; eauto. }
        { rewrite ?stack_weight_cons in *.
          cbn [Frame_weight Tree_weight] in *. lia. }
        rewrite E. exists st'. repeat split; auto.
        -- rewrite L. cbn. rewrite ?rev_app_distr, <- ?app_assoc. reflexivity.
        -- rewrite ?stack_weight_cons in *.
           cbn [Frame_weight Tree_weight] in *. lia.
Qed.

Lemma Iterator_begin_rev_spec (s : @Sequence Value) :
  Sequence_wf s ->
  exists it,
    Iterator_begin true s = Ok it /\ stack_to_list_rev it = rev (to_list s)
    /\ Forall Frame_wf it /\ Iterator_ready it.
Proof.
  intros Hs. unfold Iterator_begin, advance.
  destruct (advance_loop_rev_spec (stack_weight [FTree s]) [FTree s])
    as (it & E & L & W & R & _).
  { constructor; [|constructor]. cbn. exists 0%nat. exact Hs. }
  { lia. }
  exists it. repeat split; auto. rewrite L. cbn. now rewrite app_nil_r.
Qed.

Lemma Iterator_step_rev it :
  Forall Frame_wf it -> Iterator_ready it -> Iterator_not_end it = true ->
  exists v it',
    Iterator_deref it = Ok v /\ Iterator_next true it = Ok it'
    /\ stack_to_list_rev it = v :: stack_to_list_rev it'
    /\ Forall Frame_wf it' /\ Iterator_ready it'
    /\ (stack_weight it' < stack_weight it)%nat.
Proof.
  intros Hwf [->|(v & rest & ->)] Hne; [discriminate|].
  inversion Hwf as [|? ? Hh Ht]; subst.
  destruct (advance_loop_rev_spec (stack_weight rest) rest Ht) as (it' & E & L & W & R & Wt);
    [lia|].
  exists v, it'. cbn [Iterator_deref Iterator_next deref bind Node_value].
  repeat split; auto.
  - cbn. now rewrite L.
  - rewrite stack_weight_cons. cbn. lia.
Qed.

Lemma collect_loop_spec fuel : forall it acc,
  Forall Frame_wf it -> Iterator_ready it -> (stack_weight it <= fuel)%nat ->
  collect_loop fuel false it acc = Ok (acc ++ stack_to_list it).
Proof.
  induction fuel as [|fuel IH]; intros it acc Hwf Hr Hfuel.
  - destruct it as [|f it]; [cbn; now rewrite app_nil_r|].
    pose proof (Frame_weight_pos f). rewrite stack_weight_cons in Hfuel. lia.
  - cbn [collect_loop]. destruct (Iterator_not_end it) eqn:Hne.
    + destruct (Iterator_step it Hwf Hr Hne) as (v & it' & Ed & En & L & W & R & Wt).
      rewrite Ed, En. cbn [bind]. rewrite IH by (auto; lia).
      now rewrite L, <- app_assoc.
    + now rewrite (Iterator_at_end it Hne), app_nil_r.
Qed.

Lemma collect_loop_rev_spec fuel : forall it acc,
  Forall Frame_wf it -> Iterator_ready it -> (stack_weight it <= fuel)%nat ->
  collect_loop fuel true it acc = Ok (acc ++ stack_to_list_rev it).
Proof.
  induction fuel as [|fuel IH]; intros it acc Hwf Hr Hfuel.
  - destruct it as [|f it]; [cbn; now rewrite app_nil_r|].
    pose proof (Frame_weight_pos f). rewrite stack_weight_cons in Hfuel. lia.
  - cbn [collect_loop]. destruct (Iterator_not_end it) eqn:Hne.
    + destruct (Iterator_step_rev it Hwf Hr Hne) as (v & it' & Ed & En & L & W & R & Wt).
      rewrite Ed, En. cbn [bind]. rewrite IH by (auto; lia).
      now rewrite L, <- app_assoc.
    + destruct it; [|discriminate]. cbn. now rewrite app_nil_r.
Qed.

(** X17. Iterating a sequence from [begin()] to [end()], as the [tolist]
    and [totuple] bindings do, visits the elements from the first to the
    last, once each, and stops. *)
Theorem tolist_elements (s : @Sequence Value) :
  Sequence_wf s -> tolist s = Ok (to_list s).
Proof.
  intros Hs. unfold tolist.
  destruct (Iterator_begin_spec s Hs) as (it & E & L & W & R).
  rewrite E. cbn [bind]. rewrite collect_loop_spec by auto. now rewrite L.
Qed.

(** X18. Iterating a sequence from [rbegin()] to [rend()], as
    [__reversed__] does, visits the elements from the last to the first,
    once each, and stops. *)
Theorem reversed_elements (s : @Sequence Value) :
  Sequence_wf s -> reversed s = Ok (rev (to_list s)).
Proof.
  intros Hs. unfold reversed.
  destruct (Iterator_begin_rev_spec s Hs) as (it & E & L & W & R).
  rewrite E. cbn [bind]. rewrite collect_loop_rev_spec by auto. now rewrite L.
Qed.

Lemma less_iterator_loop_spec Compare fuel : forall xs ys,
  Forall Frame_wf xs -> Iterator_ready xs ->
  Forall Frame_wf ys -> Iterator_ready ys ->
  (stack_weight xs <= fuel)%nat ->
  less_iterator_loop fuel Compare xs ys
  = Ok (list_less Compare (stack_to_list xs) (stack_to_list ys)).
Proof.
  induction fuel as [|fuel IH]; intros xs ys Wx Rx Wy Ry Hfuel.
  - destruct xs as [|f xs].
    + cbn. destruct ys as [|g ys]; [reflexivity|].
      destruct (Iterator_step (g :: ys) Wy Ry eq_refl) as (v & it' & _ & _ & L & _).
      now rewrite L.
    + pose proof (Frame_weight_pos f). rewrite stack_weight_cons in Hfuel. lia.
  - cbn [less_iterator_loop].
    destruct (Iterator_not_end xs) eqn:Hx; cbn [andb negb].
    + destruct (Iterator_step xs Wx Rx Hx) as (x & xs' & Edx & Enx & Lx & Wx' & Rx' & Wtx).
      destruct (Iterator_not_end ys) eqn:Hy.
      * destruct (Iterator_step ys Wy Ry Hy) as (y & ys' & Edy & Eny & Ly & Wy' & Ry' & Wty).
        rewrite Edx, Edy. cbn [bind]. rewrite Lx, Ly. cbn [list_less].
        destruct (Compare x y); [reflexivity|].
        destruct (Compare y x); [reflexivity|].
        rewrite Enx, Eny. cbn [bind]. apply IH; auto. lia.
      * rewrite (Iterator_at_end ys Hy), Lx. reflexivity.
    + rewrite (Iterator_at_end xs Hx).
      destruct (Iterator_not_end ys) eqn:Hy.
      * destruct (Iterator_step ys Wy Ry Hy) as (y & ys' & _ & _ & Ly & _).
        now rewrite Ly.
      * now rewrite (Iterator_at_end ys Hy).
Qed.

Lemma Sequence_less_spec Compare (s t : @Sequence Value) :
  Sequence_wf s -> Sequence_wf t ->
  Sequence_less Compare s t = Ok (list_less Compare (to_list s) (to_list t)).
Proof.
  intros Hs Ht. unfold Sequence_less.
  destruct (Iterator_begin_spec s Hs) as (xs & Ex & Lx & Wx & Rx).
  destruct (Iterator_begin_spec t Ht) as (ys & Ey & Ly & Wy & Ry).
  rewrite Ex, Ey. cbn [bind].
  rewrite less_iterator_loop_spec by auto. now rewrite Lx, Ly.
Qed.

Lemma Sequence_greater_spec Compare (s t : @Sequence Value) :
  Sequence_wf s -> Sequence_wf t ->
  Sequence_greater Compare s t = Ok (list_less Compare (to_list t) (to_list s)).
Proof.
  intros Hs Ht. unfold Sequence_greater.
  destruct (Iterator_begin_spec s Hs) as (xs & Ex & Lx & Wx & Rx).
  destruct (Iterator_begin_spec t Ht) as (ys & Ey & Ly & Wy & Ry).
  rewrite Ex, Ey. cbn [bind].
  rewrite less_iterator_loop_spec by auto. now rewrite Lx, Ly.
Qed.

Lemma list_equal_eq Equal (xs ys : list Value) :
  (forall x y, Equal x y = true <-> x = y) ->
  list_equal Equal xs ys = true <-> xs = ys.
Proof.
  intros H. revert ys. induction xs as [|x xs IH]; intros [|y ys]; cbn;
    try (split; [discriminate|discriminate]); [tauto|].
  rewrite andb_true_iff, H, IH. split.
  - now intros [-> ->].
  - intros E. now inversion E.
Qed.

(** X19. [seq == that] never throws and compares the two sequences element
    by element with [Equal], whatever the shapes of the trees: it is true
    exactly when they have the same length and [Equal] holds at every
    position; [seq != that] is its negation. With an [Equal] that decides
    equality of values, [==] decides equality of the element lists. *)
Theorem equal_decides Equal (s t : @Sequence Value) :
  Sequence_wf s -> Sequence_wf t ->
  Sequence_equal Equal s t = Ok (list_equal Equal (to_list s) (to_list t))
  /\ Sequence_not_equal Equal s t
     = Ok (negb (list_equal Equal (to_list s) (to_list t)))
  /\ ((forall x y, Equal x y = true <-> x = y) ->
      (Sequence_equal Equal s t = Ok true <-> to_list s = to_list t)).
Proof.
  intros Hs Ht. unfold Sequence_not_equal.
  rewrite (Sequence_equal_spec Equal s t Hs Ht). cbn [bind].
  repeat split; try reflexivity.
  - intros E. apply (list_equal_eq Equal); [assumption|]. now inversion E.
  - intros E. f_equal. now apply (list_equal_eq Equal).
Qed.

(** X20. [seq < that] never throws and is the lexicographic order of the
    element lists over [Compare]; [>] is [<] with the operands exchanged,
    [>=] the negation of [<] and [<=] the negation of [>]. *)
Theorem less_is_lexicographic Compare (s t : @Sequence Value) :
  Sequence_wf s -> Sequence_wf t ->
  Sequence_less Compare s t = Ok (list_less Compare (to_list s) (to_list t))
  /\ Sequence_greater Compare s t = Ok (list_less Compare (to_list t) (to_list s))
  /\ Sequence_greater_equal Compare s t
     = Ok (negb (list_less Compare (to_list s) (to_list t)))
  /\ Sequence_less_equal Compare s t
     = Ok (negb (list_less Compare (to_list t) (to_list s))).
Proof.
  intros Hs Ht. unfold Sequence_greater_equal, Sequence_less_equal.
  rewrite (Sequence_less_spec Compare s t Hs Ht).
  rewrite (Sequence_greater_spec Compare s t Hs Ht). cbn [bind].
  repeat split.
Qed.

End Order.
(** *** The theorems at the sequences 1, ..., 12 and 7, 8, 9 *)

Lemma tolist_elements_witness : tolist sample_789 = Ok [7; 8; 9].
Proof. exact (tolist_elements sample_789 SequenceLaws.sample_789_wf). Defined.

Lemma reversed_elements_witness : reversed sample_789 = Ok [9; 8; 7].
Proof. exact (reversed_elements sample_789 SequenceLaws.sample_789_wf). Defined.

Lemma equal_decides_witness :
  Sequence_equal Z.eqb sample sample_789 = Ok false
  /\ Sequence_not_equal Z.eqb sample sample_789 = Ok true.
Proof.
  destruct (equal_decides Z.eqb sample sample_789 SequenceLaws.sample_wf
              SequenceLaws.sample_789_wf) as (E & N & _).
  split; [exact E|exact N].
Defined.

Lemma less_is_lexicographic_witness :
  Sequence_less Z.ltb sample sample_789 = Ok true
  /\ Sequence_greater Z.ltb sample sample_789 = Ok false.
Proof.
  destruct (less_is_lexicographic Z.ltb sample sample_789 SequenceLaws.sample_wf
              SequenceLaws.sample_789_wf) as (L & G & _).
  split; [exact L|exact G].
Defined.

End SequenceOrder.

(** ** Index adjustment and the bindings that use it *)

Module UtilityMore.
Import Utility.

Lemma adjust_index1_signed length index :
  0 <= length <= ssize_max -> ssize_min <= index <= ssize_max ->
  adjust_index1 true length index
  = if (- length <=? index) && (index <? length)
    then Ok (if index <? 0 then index + length else index)
    else Throw out_of_range.
Proof.
  intros Hl Hi. unfold adjust_index1, arith. cbn [andb].
  destruct (Z.ltb_spec index 0) as [Hneg|Hpos].
  - rewrite ssize_ok by (unfold ssize_min, ssize_max in *; lia). cbn [bind].
    destruct (Z.ltb_spec (index + length) 0), (Z.leb_spec (- length) index),
      (Z.ltb_spec index length); cbn [andb]; try reflexivity; lia.
  - destruct (Z.geb_spec index length), (Z.leb_spec (- length) index),
      (Z.ltb_spec index length); cbn [andb]; try reflexivity; lia.
Qed.

(** X21. [adjust_index(length, index)] at a signed index type returns
    [index] for [0 <= index < length] and [index + length] for
    [-length <= index < 0], which is [index mod length] in both cases, and
    throws [out_of_range] for every other index; at an unsigned type it
    returns [index] when it is below [length] and throws otherwise. *)
Theorem adjust_index1_spec length index :
  0 <= length <= ssize_max -> ssize_min <= index <= ssize_max ->
  (- length <= index < length ->
   adjust_index1 true length index = Ok (index mod length)
   /\ 0 <= index mod length < length)
  /\ (index < - length \/ length <= index ->
      adjust_index1 true length index = Throw out_of_range)
  /\ (0 <= index ->
      adjust_index1 false length index
      = if index <? length then Ok index else Throw out_of_range).
Proof.
  intros Hl Hi. rewrite (adjust_index1_signed length index Hl Hi).
  split; [|split].
  - intros H.
    destruct (Z.leb_spec (- length) index), (Z.ltb_spec index length); try lia.
    cbn [andb]. split; [|apply Z.mod_pos_bound; lia]. f_equal.
    destruct (Z.ltb_spec index 0).
    + apply Z.mod_unique with (q := -1); lia.
    + symmetry. apply Z.mod_small. lia.
  - intros H.
    destruct (Z.leb_spec (- length) index), (Z.ltb_spec index length);
      cbn [andb]; try reflexivity; lia.
  - intros H. unfold adjust_index1. cbn [andb].
    destruct (Z.geb_spec index length), (Z.ltb_spec index length);
      try reflexivity; lia.
Qed.

Lemma adjust_index1_spec_witness :
  adjust_index1 true 5 (-2) = Ok 3 /\ adjust_index1 true 5 5 = Throw out_of_range.
Proof.
  assert (L : 0 <= 5 <= ssize_max) by (unfold ssize_max; lia).
  assert (R : forall x, -10 <= x <= 10 -> ssize_min <= x <= ssize_max)
    by (unfold ssize_min, ssize_max; lia).
  split.
  - exact (proj1 (proj1 (adjust_index1_spec 5 (-2) L (R (-2) ltac:(lia))) ltac:(lia))).
  - exact (proj1 (proj2 (adjust_index1_spec 5 5 L (R 5 ltac:(lia)))) ltac:(lia)).
Defined.

End UtilityMore.

Module SequenceBindings.
Import Sequence SequenceFacts SequenceEdit SequenceLaws SequenceAccess SequenceMore.
Import UtilityMore.

#[local] Opaque usize size_modulus.

Section Bindings.

Context {Value : Type}.
Implicit Types (s t : @Sequence Value) (v : Value).

Lemma to_ssize_small x : 0 <= x <= ssize_max -> to_ssize x = x.
Proof.
  intros H. unfold to_ssize. now destruct (Z.leb_spec x ssize_max); [|lia].
Qed.

(** The index a Python index stands for in a sequence of length [n]. *)
Lemma py_index_adjust n index :
  0 <= n <= ssize_max -> ssize_min <= index <= ssize_max ->
  Utility.adjust_index1 true (to_ssize n) index
  = if (- n <=? index) && (index <? n)
    then Ok (if index <? 0 then index + n else index)
    else Throw out_of_range.
Proof.
  intros Hn Hi. rewrite to_ssize_small by assumption.
  now apply adjust_index1_signed.
Qed.

Lemma list_nth_in_range {A} i (l : list A) :
  0 <= i < Z.of_nat (length l) -> exists a, list_nth i l = Some a.
Proof.
  intros H. unfold list_nth. destruct (nth_error l (Z.to_nat i)) as [a|] eqn:E.
  - now exists a.
  - apply nth_error_None in E. lia.
Qed.

Lemma py_position n index :
  0 <= n -> - n <= index < n ->
  (if index <? 0 then index + n else index) = index mod n.
Proof.
  intros Hn H. destruct (Z.ltb_spec index 0).
  - apply Z.mod_unique with (q := -1); lia.
  - symmetry. apply Z.mod_small. lia.
Qed.

(** X22. [seq[index]] of the Python class, for an integer [index], returns
    the element at position [index], counted from the end when [index] is
    negative, and throws [out_of_range] (an [IndexError]) unless
    [-n <= index < n]. *)
Theorem py_getitem_spec s index :
  Sequence_wf s -> Sequence_size s <= ssize_max ->
  ssize_min <= index <= ssize_max ->
  (- Sequence_size s <= index < Sequence_size s ->
   exists v, py_getitem s index = Ok v
             /\ list_nth (index mod Sequence_size s) (to_list s) = Some v)
  /\ (index < - Sequence_size s \/ Sequence_size s <= index ->
      py_getitem s index = Throw out_of_range).
Proof.
  intros Hs Hmax Hi. destruct (Sequence_wf_size s Hs) as [Es Rs].
  unfold py_getitem.
  rewrite (py_index_adjust (Sequence_size s) index) by (auto; lia).
  destruct (Z.leb_spec (- Sequence_size s) index),
           (Z.ltb_spec index (Sequence_size s)); cbn [andb bind];
    (split; intros Hrange; [|try reflexivity]); try lia.
  rewrite py_position by lia.
  pose proof (Z.mod_pos_bound index (Sequence_size s) ltac:(lia)) as Hp.
  rewrite usize_small by lia.
  rewrite at_index_nth by (auto; lia).
  destruct (list_nth_in_range (index mod Sequence_size s) (to_list s)) as [v E]; [lia|].
  exists v. now rewrite E.
Qed.

(** X23. [seq.set(index, value)] of the Python class, for an integer
    [index], returns the sequence with the element at position [index],
    counted from the end when [index] is negative, replaced by [value], and
    throws [out_of_range] unless [-n <= index < n]. *)
Theorem py_set_spec s index v :
  Sequence_wf s -> Sequence_size s <= ssize_max ->
  ssize_min <= index <= ssize_max ->
  (- Sequence_size s <= index < Sequence_size s ->
   exists r, py_set s index v = Ok r /\ Sequence_wf r
             /\ to_list r = list_set (index mod Sequence_size s) v (to_list s))
  /\ (index < - Sequence_size s \/ Sequence_size s <= index ->
      py_set s index v = Throw out_of_range).
Proof.
  intros Hs Hmax Hi. destruct (Sequence_wf_size s Hs) as [Es Rs].
  unfold py_set.
  rewrite (py_index_adjust (Sequence_size s) index) by (auto; lia).
  destruct (Z.leb_spec (- Sequence_size s) index),
           (Z.ltb_spec index (Sequence_size s)); cbn [andb bind];
    (split; intros Hrange; [|try reflexivity]); try lia.
  rewrite py_position by lia.
  pose proof (Z.mod_pos_bound index (Sequence_size s) ltac:(lia)) as Hp.
  rewrite usize_small by lia. unfold set_index.
  destruct (Z.geb_spec (index mod Sequence_size s) (Sequence_size s)); [lia|].
  destruct (Tree_set_spec s 0%nat (index mod Sequence_size s) v Hs)
    as (r & E & W & L & Sz); [exact Hp|].
  exists r. auto.
Qed.

(** X24. [seq.delete(index)] of the Python class, for an integer [index],
    returns the sequence without the element at position [index], counted
    from the end when [index] is negative, and throws [out_of_range]
    unless [-n <= index < n]. *)
Theorem py_delete_spec s index :
  Sequence_wf s -> Sequence_size s <= ssize_max ->
  ssize_min <= index <= ssize_max ->
  (- Sequence_size s <= index < Sequence_size s ->
   exists r, py_delete s index = Ok r /\ Sequence_wf r
             /\ to_list r = list_erase (index mod Sequence_size s) (to_list s))
  /\ (index < - Sequence_size s \/ Sequence_size s <= index ->
      py_delete s index = Throw out_of_range).
Proof.
  intros Hs Hmax Hi. destruct (Sequence_wf_size s Hs) as [Es Rs].
  unfold py_delete.
  rewrite (py_index_adjust (Sequence_size s) index) by (auto; lia).
  destruct (Z.leb_spec (- Sequence_size s) index),
           (Z.ltb_spec index (Sequence_size s)); cbn [andb bind];
    (split; intros Hrange; [|try reflexivity]); try lia.
  rewrite py_position by lia.
  pose proof (Z.mod_pos_bound index (Sequence_size s) ltac:(lia)) as Hp.
  rewrite usize_small by lia.
  destruct (erase_spec s (index mod Sequence_size s) Hs Hp) as (r & E & W & L).
  exists r. auto.
Qed.

(** [seq * times] of the Python class returns [times] copies of the
    elements of [seq], one after the other, and the empty sequence for
    every [times <= 0]. *)
Lemma py_mul_spec s times :
  Sequence_wf s -> ssize_min <= times <= ssize_max ->
  Z.max 0 times * Sequence_size s < size_modulus ->
  exists r,
    py_mul s times = Ok r /\ Sequence_wf r
    /\ to_list r = list_repeat (Z.to_nat times) (to_list s).
Proof.
  intros Hs Ht Hb. unfold py_mul.
  assert (Hm : 0 <= Z.max 0 times < size_modulus)
    by (rewrite size_modulus_eq; unfold ssize_max in *; lia).
  rewrite usize_small by exact Hm.
  destruct (repeat_spec s (Z.max 0 times) Hs) as (r & E & W & L); try lia.
  exists r. repeat split; auto. rewrite L. f_equal. lia.
Qed.

Lemma py_index_wrap n index :
  0 <= n <= ssize_max -> ssize_min <= index < 0 ->
  to_ssize (usize (usize index + n)) = index + n.
Proof.
  intros Hn Hi. rewrite !usize_eq, Zplus_mod_idemp_l. unfold to_ssize.
  rewrite size_modulus_eq. unfold ssize_max, ssize_min in *.
  destruct (Z.le_gt_cases 0 (index + n)).
  - rewrite Z.mod_small by lia.
    destruct (Z.leb_spec (index + n) 9223372036854775807); lia.
  - replace ((index + n) mod 18446744073709551616)
      with (index + n + 18446744073709551616).
    + destruct (Z.leb_spec (index + n + 18446744073709551616)
                  9223372036854775807); lia.
    + apply Z.mod_unique with (q := -1); lia.
Qed.

(** X25. [seq.splitat(index)] of the Python class never throws: it returns
    the pair of [seq[:index]] and [seq[index:]], with a negative [index]
    counted from the end and every index clamped to the sequence. *)
Theorem py_splitat_spec s index :
  Sequence_wf s -> Sequence_size s <= ssize_max ->
  ssize_min <= index <= ssize_max ->
  let p := if index <? 0 then index + Sequence_size s else index in
  exists l r,
    py_splitat s index = Ok (l, r) /\ Sequence_wf l /\ Sequence_wf r
    /\ to_list l = firstn (Z.to_nat p) (to_list s)
    /\ to_list r = skipn (Z.to_nat p) (to_list s).
Proof.
  intros Hs Hmax Hi p. destruct (Sequence_wf_size s Hs) as [Es Rs].
  unfold py_splitat.
  assert (Hp : (if index <? 0
                then to_ssize (usize (usize index + Sequence_size s))
                else index) = p).
  { unfold p. destruct (Z.ltb_spec index 0); [|reflexivity].
    apply py_index_wrap; lia. }
  rewrite Hp.
  assert (Hr : ssize_min <= p <= ssize_max).
  { unfold p, ssize_min, ssize_max in *. destruct (Z.ltb_spec index 0); lia. }
  clearbody p.
  destruct (Z.leb_spec p 0) as [Hle|Hgt].
  { exists Empty, s. replace (Z.to_nat p) with 0%nat by lia. repeat split; auto. }
  rewrite usize_small by (rewrite size_modulus_eq; unfold ssize_max in *; lia).
  destruct (Z.geb_spec p (Sequence_size s)) as [Hge|Hlt].
  { exists s, Empty. repeat split; auto.
    - now rewrite firstn_all2 by lia.
    - now rewrite skipn_all2 by lia. }
  destruct (split_spec s p Hs) as (l & v & r & E & Wl & Wr & L & Sz); [lia|].
  rewrite E. cbn [bind].
  destruct (Sequence_wf_size l Wl) as [El _].
  destruct (Sequence_wf_size r Wr) as [Er _].
  assert (Hlen : length (to_list s) = (length (to_list l) + S (length (to_list r)))%nat)
    by (rewrite L, length_app; reflexivity).
  destruct (push_front_spec r v Wr) as (r' & E' & W' & L'); [lia|].
  rewrite E'. cbn [bind]. exists l, r'. repeat split; auto.
  - rewrite L. replace (Z.to_nat p) with (length (to_list l) + 0)%nat by lia.
    rewrite firstn_app_2. cbn. now rewrite app_nil_r.
  - rewrite L, L'. replace (Z.to_nat p) with (length (to_list l) + 0)%nat by lia.
    rewrite skipn_app, skipn_all2 by lia.
    replace (length (to_list l) + 0 - length (to_list l))%nat with 0%nat by lia.
    reflexivity.
Qed.

End Bindings.
(** *** The theorems at the sequence 1, ..., 12 *)

Lemma sample_small : @Sequence_size Z sample <= ssize_max.
Proof. vm_compute. discriminate. Qed.

Lemma py_range x : -20 <= x <= 20 -> ssize_min <= x <= ssize_max.
Proof. unfold ssize_min, ssize_max. lia. Qed.

Lemma py_getitem_spec_witness :
  (exists v, py_getitem sample (-2) = Ok v
             /\ list_nth ((-2) mod Sequence_size sample) (to_list sample) = Some v)
  /\ py_getitem sample 12 = Throw out_of_range.
Proof.
  split.
  - apply (py_getitem_spec sample (-2) sample_wf sample_small (py_range (-2) ltac:(lia))).
    vm_compute. split; [discriminate|reflexivity].
  - apply (py_getitem_spec sample 12 sample_wf sample_small (py_range (12) ltac:(lia))).
    right. vm_compute. discriminate.
Defined.

Lemma py_set_spec_witness :
  (exists r, py_set sample (-2) 50 = Ok r /\ Sequence_wf r
             /\ to_list r = list_set ((-2) mod Sequence_size sample) 50 (to_list sample))
  /\ py_set sample (-13) 50 = Throw out_of_range.
Proof.
  split.
  - apply (py_set_spec sample (-2) 50 sample_wf sample_small (py_range (-2) ltac:(lia))).
    vm_compute. split; [discriminate|reflexivity].
  - apply (py_set_spec sample (-13) 50 sample_wf sample_small (py_range (-13) ltac:(lia))).
    left. vm_compute. reflexivity.
Defined.

Lemma py_delete_spec_witness :
  (exists r, py_delete sample (-2) = Ok r /\ Sequence_wf r
             /\ to_list r = list_erase ((-2) mod Sequence_size sample) (to_list sample))
  /\ py_delete sample 12 = Throw out_of_range.
Proof.
  split.
  - apply (py_delete_spec sample (-2) sample_wf sample_small (py_range (-2) ltac:(lia))).
    vm_compute. split; [discriminate|reflexivity].
  - apply (py_delete_spec sample 12 sample_wf sample_small (py_range (12) ltac:(lia))).
    right. vm_compute. discriminate.
Defined.

Lemma py_splitat_spec_witness :
  exists l r,
    py_splitat sample (-2) = Ok (l, r)
    /\ to_list l = [1; 2; 3; 4; 5; 6; 7; 8; 9; 10] /\ to_list r = [11; 12].
Proof.
  destruct (py_splitat_spec sample (-2) sample_wf sample_small (py_range (-2) ltac:(lia)))
    as (l & r & E & _ & _ & Ll & Lr).
  exists l, r. repeat split; [exact E|exact Ll|exact Lr].
Defined.

End SequenceBindings.

(** ** Construction from a range of known length *)

Module SequenceBuild.
Import Sequence SequenceFacts.

#[local] Opaque usize size_modulus.

Section Build.

Context {Value : Type}.
Implicit Types (n : @Node Value) (dg : @Digit Value) (t : @Tree Value)
  (values chunk rest : list Value).

Lemma pow3_pos (d : nat) : 0 < 3 ^ Z.of_nat d.
Proof. apply Z.pow_pos_nonneg; lia. Qed.

Lemma pow3_succ (d : nat) : 3 ^ Z.of_nat (S d) = 3 * 3 ^ Z.of_nat d.
Proof. rewrite Nat2Z.inj_succ, Z.pow_succ_r by lia. reflexivity. Qed.

Lemma Node_from_spec depth : forall values,
  3 ^ Z.of_nat depth <= Z.of_nat (length values) ->
  3 ^ Z.of_nat depth < size_modulus ->
  exists n chunk rest,
    Node_from depth values = Ok (n, rest) /\ values = chunk ++ rest
    /\ Node_wf depth n /\ Node_to_list n = chunk
    /\ Node_size n = 3 ^ Z.of_nat depth
    /\ Z.of_nat (length chunk) = 3 ^ Z.of_nat depth.
Proof.
  induction depth as [|depth IH]; intros values Hlen Hb.
  - destruct values as [|v values]; [cbn in Hlen; lia|].
    exists (Leaf v), [v], values. cbn. repeat split.
  - rewrite pow3_succ in *. pose proof (pow3_pos depth) as HP.
    cbn [Node_from].
    destruct (IH values) as (x & cx & rx & Ex & -> & Wx & Lx & Sx & Nx); [lia|lia|].
    rewrite length_app, Nat2Z.inj_add in Hlen.
    destruct (IH rx) as (y & cy & ry & Ey & -> & Wy & Ly & Sy & Ny); [lia|lia|].
    rewrite length_app, Nat2Z.inj_add in Hlen.
    destruct (IH ry) as (z & cz & rz & Ez & -> & Wz & Lz & Sz & Nz); [lia|lia|].
    rewrite Ex. cbn [bind]. rewrite Ey. cbn [bind]. rewrite Ez. cbn [bind].
    exists (Branch (usize (3 * Node_size x)) x y (Some z)), (cx ++ cy ++ cz), rz.
    rewrite Sx, usize_small by lia.
    cbn [Node_wf Node_to_list Node_size NodePtr_size].
    rewrite Lx, Ly, Lz, Sx, Sy, Sz, !length_app, !Nat2Z.inj_add, <- !app_assoc.
    repeat split; auto; lia.
Qed.

End Build.

(** Run the next [Node::from] of the goal through its specification;
    [Hlen] bounds the number of values that are left. *)
Ltac step_from Hlen :=
  match goal with
  | |- context [Node_from ?d ?vals] =>
    let n := fresh "n" in
    let c := fresh "c" in
    let r := fresh "r" in
    let E := fresh "E" in
    let Heq := fresh "Heq" in
    let W := fresh "W" in
    let L := fresh "L" in
    let Sz := fresh "Sz" in
    let N := fresh "N" in
    destruct (Node_from_spec d vals) as (n & c & r & E & Heq & W & L & Sz & N);
    [ lia | lia | ];
    rewrite E; cbn [bind]; clear E; subst vals;
    rewrite length_app, Nat2Z.inj_add in Hlen
  end.

Section Build.

Context {Value : Type}.
Implicit Types (n : @Node Value) (dg : @Digit Value) (t : @Tree Value)
  (values chunk rest : list Value).

#[local] Arguments Z.mul : simpl never.

Lemma Tree_from_small fuel count depth values :
  1 <= count <= 8 ->
  count * 3 ^ Z.of_nat depth <= Z.of_nat (length values) ->
  count * 3 ^ Z.of_nat depth < size_modulus ->
  exists t chunk rest,
    Tree_from_loop (S fuel) count depth values = Ok (t, rest)
    /\ values = chunk ++ rest /\ Tree_wf depth t /\ Tree_to_list t = chunk
    /\ Tree_size t = count * 3 ^ Z.of_nat depth
    /\ Z.of_nat (length chunk) = count * 3 ^ Z.of_nat depth.
Proof.
  intros Hc Hlen Hb. pose proof (pow3_pos depth) as HP.
  assert (Hk : count = 1 \/ count = 2 \/ count = 3 \/ count = 4
               \/ count = 5 \/ count = 6 \/ count = 7 \/ count = 8) by lia.
  cbn [Tree_from_loop].
  destruct Hk as [->|[->|[->|[->|[->|[->|[->| ->]]]]]]];
    match goal with
    | |- context [Z.to_nat ?k] =>
      let k' := eval vm_compute in (Z.to_nat k) in change (Z.to_nat k) with k'
    end;
    cbn [Z.eqb Z.leb Z.compare Pos.compare Pos.compare_cont from_nodes];
    repeat step_from Hlen;
    cbn [array_set array_get null_array List.repeat Z.of_nat Pos.of_succ_nat
         Pos.succ Z.eqb Z.sub Z.add Z.opp Z.pos_sub Pos.pred_double Z.succ_double
         Z.pred_double Z.double Pos.add deref bind];
    match goal with
    | |- exists t chunk rest, Ok (?T, ?R) = _ /\ _ =>
      exists T, (Tree_to_list T), R
    end;
    (split; [reflexivity|]);
    cbn [Tree_wf Tree_to_list Tree_size];
    unfold Digit_to_list, Digit_make, Digit_item;
    cbn [Tree_wf Tree_to_list Tree_size Digit_wf Digit_make Digit_to_list
         Digit_item Digit_items Digit_order Digit_size array_get NodePtr_to_list
         Z.eqb Z.geb Z.compare Pos.compare Pos.compare_cont Z.sub Z.add Z.opp
         Z.pos_sub Pos.pred_double];
    repeat match goal with
    | H : Node_size _ = _ |- _ => rewrite H
    | H : Node_to_list _ = _ |- _ => rewrite H
    end;
    usz; cbn [app length];
    rewrite ?app_nil_r, ?length_app, ?Nat2Z.inj_add, <- ?app_assoc;
    repeat split; auto; try lia.
Qed.

Lemma Tree_from_loop_spec fuel : forall count depth values,
  0 <= count < 3 ^ (Z.of_nat fuel + 2) -> count + 2 < size_modulus ->
  count * 3 ^ Z.of_nat depth <= Z.of_nat (length values) ->
  count * 3 ^ Z.of_nat depth < size_modulus ->
  exists t chunk rest,
    Tree_from_loop (S fuel) count depth values = Ok (t, rest)
    /\ values = chunk ++ rest /\ Tree_wf depth t /\ Tree_to_list t = chunk
    /\ Tree_size t = count * 3 ^ Z.of_nat depth
    /\ Z.of_nat (length chunk) = count * 3 ^ Z.of_nat depth.
Proof.
  induction fuel as [|fuel IH]; intros count depth values Hc Hw Hlen Hb.
  - destruct (Z.eq_dec count 0) as [->|Hn0].
    + exists Empty, [], values. cbn. repeat split; lia.
    + apply Tree_from_small; auto. change (3 ^ (Z.of_nat 0 + 2)) with 9 in Hc. lia.
  - destruct (Z.eq_dec count 0) as [->|Hn0].
    { exists Empty, [], values. cbn. repeat split; lia. }
    destruct (Z.le_gt_cases count 8) as [Hsmall|Hbig].
    { apply Tree_from_small; auto. lia. }
    pose proof (pow3_pos depth) as HP.
    assert (Hpow : 3 ^ (Z.of_nat (S fuel) + 2) = 3 * 3 ^ (Z.of_nat fuel + 2)).
    { rewrite Nat2Z.inj_succ.
      replace (Z.succ (Z.of_nat fuel) + 2) with (Z.succ (Z.of_nat fuel + 2)) by lia.
      rewrite Z.pow_succ_r by lia. reflexivity. }
    rewrite Hpow in Hc. clear Hpow.
    remember (S fuel) as g eqn:Hg. cbn [Tree_from_loop].
    destruct (Z.eqb_spec count 0) as [|_]; [lia|].
    destruct (Z.leb_spec count 8) as [|_]; [lia|].
    rewrite (usize_small (count + 2)) by lia.
    pose proof (Z.div_mod count 3 ltac:(lia)) as Hdm.
    pose proof (Z.mod_pos_bound count 3 ltac:(lia)) as Hm.
    pose proof (Z.div_mod (count + 2) 3 ltac:(lia)) as Hdm2.
    pose proof (Z.mod_pos_bound (count + 2) 3 ltac:(lia)) as Hm2.
    set (count' := (count + 2) / 3 - 2) in *.
    rewrite (usize_small count') by (unfold count'; lia).
    assert (HM : exists M, M = count' * 3 ^ Z.of_nat (S depth) /\ 0 <= M) .
    { eexists. split; [reflexivity|]. rewrite pow3_succ. unfold count'. nia. }
    destruct HM as (M & HM & HM0).
    assert (Hk : count mod 3 = 0 \/ count mod 3 = 1 \/ count mod 3 = 2) by lia.
    assert (Hsum : count * 3 ^ Z.of_nat depth
                   = M + 3 * 3 ^ Z.of_nat depth
                     + (if count mod 3 =? 0 then 3 else count mod 3)
                       * 3 ^ Z.of_nat depth).
    { rewrite HM, pow3_succ.
      destruct Hk as [Hk|[Hk|Hk]]; rewrite Hk; cbn [Z.eqb];
        match goal with
        | |- _ = _ + _ + ?r * _ =>
          assert (Hrel : count = 3 * count' + 3 + r) by (unfold count'; lia)
        end;
        rewrite Hrel at 1; ring. }
    rewrite Hsum in Hlen, Hb.
    destruct Hk as [Hk|[Hk|Hk]]; rewrite Hk in *; cbn [Z.eqb] in Hlen, Hb, Hsum.
    all: step_from Hlen; step_from Hlen; step_from Hlen.
    all: match goal with
         | |- context [Tree_from_loop _ _ _ ?vals] =>
           destruct (IH count' (S depth) vals)
             as (m & cm & rm & Em & Heq & Wm & Lm & Sm & Nm);
           [ unfold count'; lia | unfold count'; lia
           | rewrite <- HM; lia | rewrite <- HM; lia | subst vals ]
         end.
    all: subst g; rewrite Em; cbn [bind]; clear Em IH.
    all: rewrite <- HM in Sm, Nm.
    all: rewrite length_app, Nat2Z.inj_add in Hlen.
    all: cbn [from_nodes]; repeat step_from Hlen;
      cbn [array_set array_get null_array List.repeat Z.of_nat Pos.of_succ_nat
           Pos.succ Z.eqb Z.sub Z.add Z.opp Z.pos_sub Pos.pred_double
           Z.succ_double Z.pred_double Z.double Pos.add deref bind];
      match goal with
      | |- exists t chunk rest, Ok (?T, ?R) = _ /\ _ =>
        exists T, (Tree_to_list T), R
      end;
      (split; [reflexivity|]);
      unfold Deep_make, Digit_make1, Digit_make2, Digit_make3;
      cbn [Tree_wf Tree_to_list Tree_size];
      unfold Digit_to_list, Digit_make, Digit_item;
      cbn [Tree_wf Tree_to_list Tree_size Digit_wf Digit_make Digit_to_list
           Digit_item Digit_items Digit_order Digit_size array_get NodePtr_to_list
           Z.eqb Z.geb Z.compare Pos.compare Pos.compare_cont Z.sub Z.add Z.opp
           Z.pos_sub Pos.pred_double];
      repeat match goal with
      | H : Node_size _ = _ |- _ => rewrite H
      | H : Node_to_list _ = _ |- _ => rewrite H
      | H : Tree_to_list _ = _ |- _ => rewrite H
      | H : Tree_size _ = _ |- _ => rewrite H
      end;
      usz; cbn [app length];
      rewrite ?app_nil_r, ?length_app, ?Nat2Z.inj_add, <- ?app_assoc;
      repeat split; auto; try lia.
Qed.

Lemma from_count_spec size values :
  0 <= size <= Z.of_nat (length values) -> size + 2 < size_modulus ->
  exists s,
    from_count size values = Ok s /\ Sequence_wf s
    /\ to_list s = firstn (Z.to_nat size) values
    /\ Sequence_size s = size.
Proof.
  intros Hs Hb. unfold from_count, Tree_from.
  destruct (Tree_from_loop_spec 63 size 0%nat values)
    as (t & chunk & rest & E & -> & W & L & Sz & N).
  { split; [lia|]. rewrite size_modulus_eq in Hb.
    assert (18446744073709551616 < 3 ^ (Z.of_nat 63 + 2)) by (vm_compute; reflexivity).
    lia. }
  { exact Hb. }
  { change (3 ^ Z.of_nat 0) with 1. lia. }
  { change (3 ^ Z.of_nat 0) with 1. lia. }
  change (3 ^ Z.of_nat 0) with 1 in *. rewrite Z.mul_1_r in *.
  rewrite E. cbn [bind]. exists t. repeat split; auto.
  unfold to_list. rewrite L.
  replace (Z.to_nat size) with (length chunk + 0)%nat by lia.
  rewrite firstn_app_2. cbn. now rewrite app_nil_r.
Qed.

(** X26. The constructors of a sequence from a range of known length,
    [Sequence(size, left)] and [Sequence(left, right)] over random access
    iterators, read the values once, in their order, and return a
    well-formed sequence of them: of the first [size] values, and of the
    whole range. *)
Theorem from_range_elements size values :
  0 <= size <= Z.of_nat (length values) ->
  Z.of_nat (length values) + 2 < size_modulus ->
  (exists s,
     from_count size values = Ok s /\ Sequence_wf s
     /\ to_list s = firstn (Z.to_nat size) values
     /\ Sequence_size s = size)
  /\ (exists s,
        from_range values = Ok s /\ Sequence_wf s /\ to_list s = values
        /\ Sequence_size s = Z.of_nat (length values)).
Proof.
  intros Hs Hb. split.
  - apply from_count_spec; lia.
  - unfold from_range. rewrite usize_small by lia.
    destruct (from_count_spec (Z.of_nat (length values)) values) as (s & E & W & L & Sz);
      [lia|lia|].
    exists s. repeat split; auto. rewrite L, Nat2Z.id. apply firstn_all.
Qed.

End Build.
Lemma from_range_elements_witness :
  exists s,
    from_range [1; 2; 3; 4; 5; 6; 7; 8; 9; 10; 11] = Ok s /\ Sequence_wf s
    /\ to_list s = [1; 2; 3; 4; 5; 6; 7; 8; 9; 10; 11].
Proof.
  destruct (from_range_elements 11 [1; 2; 3; 4; 5; 6; 7; 8; 9; 10; 11])
    as [_ (s & E & W & L & _)].
  { vm_compute. split; discriminate. }
  { vm_compute. reflexivity. }
  exists s. auto.
Defined.

End SequenceBuild.

(** ** Mapping a function over the elements *)

Module SequenceMap.
Import Sequence SequenceFacts.

#[local] Opaque usize size_modulus.

Section Map.

Context {Value : Type}.
Variable func : Value -> Value.
Implicit Types (n : @Node Value) (dg : @Digit Value) (t : @Tree Value).

Lemma Node_transform_spec d : forall n,
  Node_wf d n ->
  Node_wf d (Node_transform func n)
  /\ Node_to_list (Node_transform func n) = map func (Node_to_list n)
  /\ Node_size (Node_transform func n) = Node_size n.
Proof.
  induction d as [|d IH]; intros [v|s a b c]; cbn [Node_wf]; try contradiction.
  - intros _. repeat split.
  - intros (Ha & Hb & Hc & Hs & Hlt).
    destruct (IH a Ha) as (Wa & La & Sa). destruct (IH b Hb) as (Wb & Lb & Sb).
    destruct c as [c|]; cbn in *.
    + destruct (IH c Hc) as (Wc & Lc & Sc).
      rewrite La, Lb, Lc, Sa, Sb, Sc, !map_app. repeat split; auto.
    + rewrite La, Lb, Sa, Sb, !map_app. repeat split; auto.
Qed.

Lemma Digit_transform_spec d dg :
  Digit_wf d dg ->
  exists dg',
    Digit_transform func dg = Ok dg' /\ Digit_wf d dg'
    /\ Digit_to_list dg' = map func (Digit_to_list dg)
    /\ Digit_size dg' = Digit_size dg.
Proof.
  intros H. inv_digit H; unfold Digit_transform; cbn;
    eexists; (split; [reflexivity|]); cbn;
    repeat match goal with
    | Hn : Node_wf d ?n |- _ =>
      is_var n;
      let W := fresh "W" in
      let L := fresh "L" in
      let Sz := fresh "Sz" in
      destruct (Node_transform_spec d n Hn) as (W & L & Sz); clear Hn
    end;
    repeat match goal with
    | L : Node_to_list (Node_transform _ _) = _ |- _ => rewrite L; clear L
    | Sz : Node_size (Node_transform _ _) = _ |- _ => rewrite Sz in *; clear Sz
    end;
    rewrite ?app_nil_r, ?map_app;
    repeat split; auto; try lia.
Qed.

Lemma Tree_transform_spec t : forall d,
  Tree_wf d t ->
  exists t',
    Tree_transform func t = Ok t' /\ Tree_wf d t'
    /\ Tree_to_list t' = map func (Tree_to_list t)
    /\ Tree_size t' = Tree_size t.
Proof.
  induction t as [|n|s l m IH r]; intros d; cbn [Tree_wf].
  - intros _. exists Empty. repeat split.
  - intros H. destruct (Node_transform_spec d n H) as (W & L & Sz).
    eexists. split; [reflexivity|]. cbn. auto.
  - intros (Hl & Hm & Hr & Hs & Hlt).
    destruct (Digit_transform_spec d l Hl) as (l' & El & Wl & Ll & Sl).
    destruct (Digit_transform_spec d r Hr) as (r' & Er & Wr & Lr & Sr).
    destruct (IH (S d) Hm) as (m' & Em & Wm & Lm & Sm).
    cbn [Tree_transform]. rewrite El, Em, Er. cbn [bind].
    eexists. split; [reflexivity|].
    cbn [Tree_wf Tree_to_list Tree_size].
    rewrite Ll, Lm, Lr, Sl, Sm, Sr, !map_app.
    repeat split; auto.
Qed.

(** X27. [seq.transform(func)] returns a well-formed sequence of the same
    size and shape whose elements are those of [seq] with [func] applied
    to each, in their order. *)
Theorem transform_elements (s : @Sequence Value) :
  Sequence_wf s ->
  exists r,
    transform func s = Ok r /\ Sequence_wf r
    /\ to_list r = map func (to_list s)
    /\ Sequence_size r = Sequence_size s.
Proof. intros Hs. exact (Tree_transform_spec s 0%nat Hs). Qed.

End Map.
Lemma transform_elements_witness :
  exists r,
    transform (fun x => 2 * x) sample_789 = Ok r /\ to_list r = [14; 16; 18].
Proof.
  destruct (transform_elements (fun x => 2 * x) sample_789 SequenceLaws.sample_789_wf)
    as (r & E & _ & L & _).
  exists r. split; [exact E|exact L].
Defined.

End SequenceMap.

(** ** The sorted map as a search tree *)

Module SortedMapOrder.
Import SortedMap.

Section Rotations.

Context {Key Value : Type}.
Implicit Types (k key : Key) (v value : Value) (l r t : @NodePtr Key Value).

Lemma balance_bindings k v l r t :
  balance k v l r = Ok t -> bindings t = bindings l ++ (k, v) :: bindings r.
Proof.
  unfold balance, make, make_sized, left_of, right_of, key_of, value_of.
  repeat match goal with
  | |- context [if ?b then _ else _] => destruct b
  | |- context [bind (match ?p with nullptr => _ | node _ _ _ _ _ => _ end) _] =>
    destruct p; cbn [bind]
  end;
  intros H; inversion H; subst; cbn [bindings];
  rewrite <- ?app_assoc; cbn [app]; rewrite <- ?app_assoc; reflexivity.
Qed.

Lemma viewmin_node_bindings l : forall k v s r mk mv rest,
  viewmin_node k v s l r = (mk, mv, rest) ->
  bindings l ++ (k, v) :: bindings r = (mk, mv) :: bindings rest.
Proof.
  induction l as [|lk lv ls ll IHl lr _]; intros k v s r mk mv rest; cbn [viewmin_node].
  - intros H. inversion H. reflexivity.
  - destruct (viewmin_node lk lv ls ll lr) as [[key value] rec] eqn:E.
    intros H. inversion H; subst. cbn [bindings make_sized].
    rewrite (IHl _ _ _ _ _ _ _ E). reflexivity.
Qed.

Lemma viewmax_node_bindings r : forall k v s l mk mv rest,
  viewmax_node k v s l r = (mk, mv, rest) ->
  bindings l ++ (k, v) :: bindings r = bindings rest ++ [(mk, mv)].
Proof.
  induction r as [|rk rv rs rl _ rr IHr]; intros k v s l mk mv rest; cbn [viewmax_node].
  - intros H. inversion H. reflexivity.
  - destruct (viewmax_node rk rv rs rl rr) as [[key value] rec] eqn:E.
    intros H. inversion H; subst. cbn [bindings make_sized].
    rewrite (IHr _ _ _ _ _ _ _ E), <- app_assoc. reflexivity.
Qed.

Lemma glue_bindings l r t :
  glue l r = Ok t -> bindings t = bindings l ++ bindings r.
Proof.
  destruct l as [|lk lv ls ll lr], r as [|rk rv rs rl rr]; cbn [glue].
  - intros H. inversion H. reflexivity.
  - intros H. inversion H. reflexivity.
  - intros H. inversion H. now rewrite app_nil_r.
  - destruct (ls >? rs); cbn [viewmax viewmin bind].
    + destruct (viewmax_node lk lv ls ll lr) as [[key value] tree] eqn:E.
      intros H. rewrite (balance_bindings _ _ _ _ _ H).
      change (bindings (node lk lv ls ll lr)) with (bindings ll ++ (lk, lv) :: bindings lr).
      rewrite (viewmax_node_bindings _ _ _ _ _ _ _ _ E), <- app_assoc. reflexivity.
    + destruct (viewmin_node rk rv rs rl rr) as [[key value] tree] eqn:E.
      intros H. rewrite (balance_bindings _ _ _ _ _ H).
      change (bindings (node rk rv rs rl rr)) with (bindings rl ++ (rk, rv) :: bindings rr).
      rewrite (viewmin_node_bindings _ _ _ _ _ _ _ _ E). reflexivity.
Qed.

(** X28. Whenever [Node::balance(key, value, left, right)] returns a tree,
    with or without a single or a double rotation, the entries of that tree
    from left to right are those of [left], then [(key, value)], then those
    of [right]: a rotation never loses, repeats or reorders an entry. *)
Theorem balance_keeps_entries k v l r t :
  balance k v l r = Ok t ->
  bindings t = bindings l ++ (k, v) :: bindings r
  /\ keys t = keys l ++ k :: keys r
  /\ count t = 1 + count l + count r.
Proof.
  intros H. pose proof (balance_bindings k v l r t H) as B.
  assert (K : forall p : @NodePtr Key Value, keys p = map fst (bindings p)).
  { induction p as [|pk pv ps pl IHl pr IHr]; cbn; [reflexivity|].
    now rewrite map_app, IHl, IHr. }
  assert (C : forall p : @NodePtr Key Value, count p = Z.of_nat (length (bindings p))).
  { induction p as [|pk pv ps pl IHl pr IHr]; cbn [count bindings]; [reflexivity|].
    rewrite length_app, IHl, IHr. cbn [length]. lia. }
  split; [exact B|]. split.
  - rewrite !K, B, map_app. reflexivity.
  - rewrite !C, B, length_app. cbn [length]. lia.
Qed.

End Rotations.
Section Order.

Context {Key Value : Type}.
Variable less : Key -> Key -> bool.

(** [operator <] is a strict total order on the keys. *)
Hypothesis less_irrefl : forall a, less a a = false.
Hypothesis less_trans :
  forall a b c, less a b = true -> less b c = true -> less a c = true.
Hypothesis less_total : forall a b, less a b = false -> less b a = false -> a = b.

Implicit Types (k key : Key) (v value : Value) (l r t : @NodePtr Key Value)
  (es L R : list (Key * Value)).

Lemma less_asym a b : less a b = true -> less b a = false.
Proof.
  intros H. destruct (less b a) eqn:E; [|reflexivity].
  rewrite <- (less_irrefl a). symmetry. now apply (less_trans a b a).
Qed.

Lemma increasing_app_cons L e R :
  increasing less (L ++ e :: R)
  <-> increasing less L /\ increasing less R
      /\ Forall (fun x => less (fst x) (fst e) = true) L
      /\ Forall (fun x => less (fst e) (fst x) = true) R.
Proof.
  induction L as [|x L IH]; cbn [app increasing].
  - split.
    + intros [H1 H2]. repeat split; auto.
    + intros (_ & H2 & _ & H4). split; assumption.
  - rewrite IH. split.
    + intros [H1 (H2 & H3 & H4 & H5)].
      apply Forall_app in H1. destruct H1 as [H1a H1b].
      inversion H1b; subst. repeat split; auto.
    + intros ((H1 & H2) & H3 & H4 & H5). inversion H4; subst.
      repeat split; auto. apply Forall_app. split; [assumption|].
      constructor; [assumption|].
      eapply Forall_impl; [|exact H5]. cbn. intros y Hy.
      now apply (less_trans _ (fst e)).
Qed.

Lemma ordered_increasing t : ordered less t <-> increasing less (bindings t).
Proof.
  induction t as [|k v s l IHl r IHr]; cbn [ordered bindings].
  - cbn. tauto.
  - rewrite increasing_app_cons, IHl, IHr. cbn [fst]. tauto.
Qed.

Lemma list_lookup_app_cons key L k v R :
  Forall (fun x => less (fst x) k = true) L ->
  list_lookup less key (L ++ (k, v) :: R)
  = if less key k then list_lookup less key L
    else if less k key then list_lookup less key R
    else Some v.
Proof.
  induction L as [|[x vx] L IH]; intros HL; cbn [app list_lookup].
  - now destruct (less key k).
  - inversion HL as [|? ? Hx HL']; subst. cbn [fst] in Hx.
    rewrite (IH HL').
    destruct (less key k) eqn:E1; [reflexivity|].
    assert (Hxk : less x key = true).
    { destruct (less k key) eqn:E2.
      - now apply (less_trans x k key).
      - now rewrite (less_total key k E1 E2). }
    now rewrite (less_asym x key Hxk), Hxk.
Qed.

Lemma lookup_bindings t key :
  ordered less t -> lookup less t key = list_lookup less key (bindings t).
Proof.
  induction t as [|k v s l IHl r IHr]; cbn [ordered lookup bindings].
  - reflexivity.
  - intros (Hl & Hr & Fl & Fr).
    rewrite list_lookup_app_cons by assumption.
    rewrite (IHl Hl), (IHr Hr). reflexivity.
Qed.

Lemma list_put_app_cons key value L k v R :
  Forall (fun x => less (fst x) k = true) L ->
  list_put less key value (L ++ (k, v) :: R)
  = if less key k then list_put less key value L ++ (k, v) :: R
    else if less k key then L ++ (k, v) :: list_put less key value R
    else L ++ (key, value) :: R.
Proof.
  induction L as [|[x vx] L IH]; intros HL; cbn [app list_put].
  - now destruct (less key k), (less k key).
  - inversion HL as [|? ? Hx HL']; subst. cbn [fst] in Hx.
    rewrite (IH HL').
    destruct (less key k) eqn:E1.
    + now destruct (less key x), (less x key).
    + assert (Hxk : less x key = true).
      { destruct (less k key) eqn:E2.
        - now apply (less_trans x k key).
        - now rewrite (less_total key k E1 E2). }
      rewrite (less_asym x key Hxk), Hxk. now destruct (less k key).
Qed.

Lemma insert_bindings t : forall key value t',
  ordered less t -> insert less t key value = Ok t' ->
  bindings t' = list_put less key value (bindings t).
Proof.
  induction t as [|k v s l IHl r IHr]; intros key value t'; cbn [ordered insert bindings].
  - intros _ H. inversion H. reflexivity.
  - intros (Hl & Hr & Fl & Fr).
    rewrite list_put_app_cons by assumption.
    destruct (less key k) eqn:E1.
    + destruct (insert less l key value) as [l'| |] eqn:El; cbn [bind]; try discriminate.
      destruct (balance k v l' r) as [b| |] eqn:Eb; cbn [bind]; try discriminate.
      intros H. destruct b; cbn in H; inversion H; subst.
      rewrite (balance_bindings _ _ _ _ _ Eb). now rewrite (IHl _ _ _ Hl El).
    + destruct (less k key) eqn:E2.
      * destruct (insert less r key value) as [r'| |] eqn:Er; cbn [bind]; try discriminate.
        destruct (balance k v l r') as [b| |] eqn:Eb; cbn [bind]; try discriminate.
        intros H. destruct b; cbn in H; inversion H; subst.
        rewrite (balance_bindings _ _ _ _ _ Eb). now rewrite (IHr _ _ _ Hr Er).
      * intros H. inversion H. reflexivity.
Qed.

Lemma Forall_list_put (P : Key * Value -> Prop) key value es :
  Forall P es -> P (key, value) -> Forall P (list_put less key value es).
Proof.
  intros H Hk. induction H as [|[x vx] es Hx Hes IH]; cbn [list_put].
  - constructor; auto.
  - destruct (less key x); [constructor; auto|].
    destruct (less x key); constructor; auto.
Qed.

Lemma increasing_list_put key value es :
  increasing less es -> increasing less (list_put less key value es).
Proof.
  induction es as [|[x vx] es IH]; cbn [increasing list_put].
  - intros _. split; constructor.
  - intros [Hx Hes]. cbn [fst] in Hx.
    destruct (less key x) eqn:E1.
    + cbn [increasing fst]. repeat split; auto.
      constructor; [assumption|].
      eapply Forall_impl; [|exact Hx]. cbn. intros y Hy.
      now apply (less_trans key x).
    + destruct (less x key) eqn:E2.
      * cbn [increasing fst]. split; [|now apply IH].
        now apply Forall_list_put.
      * rewrite (less_total key x E1 E2). cbn [increasing fst]. split; assumption.
Qed.

Lemma list_lookup_put_same key value es :
  list_lookup less key (list_put less key value es) = Some value.
Proof.
  induction es as [|[x vx] es IH]; cbn [list_put list_lookup].
  - now rewrite less_irrefl.
  - destruct (less key x) eqn:E1.
    + cbn [list_lookup]. now rewrite less_irrefl.
    + destruct (less x key) eqn:E2; cbn [list_lookup].
      * now rewrite E1, E2.
      * now rewrite less_irrefl.
Qed.

Lemma list_lookup_put_other key value key' es :
  increasing less es -> key' <> key ->
  list_lookup less key' (list_put less key value es) = list_lookup less key' es.
Proof.
  intros Hes Hne.
  assert (Hcases : less key' key = true \/ less key key' = true).
  { destruct (less key' key) eqn:E1; [now left|].
    destruct (less key key') eqn:E2; [now right|].
    exfalso. apply Hne. now apply less_total. }
  induction es as [|[x vx] es IH]; cbn [list_put list_lookup].
  - destruct Hcases as [H|H]; rewrite H; [reflexivity|].
    now rewrite (less_asym _ _ H).
  - destruct Hes as [Hx Hes']. cbn [fst] in Hx.
    destruct (less key x) eqn:E1.
    + cbn [list_lookup]. destruct Hcases as [H|H].
      * rewrite H. now rewrite (less_trans key' key x H E1).
      * now rewrite (less_asym _ _ H), H.
    + destruct (less x key) eqn:E2; cbn [list_lookup].
      * destruct (less key' x); [reflexivity|].
        destruct (less x key'); [now apply IH|reflexivity].
      * rewrite <- (less_total key x E1 E2).
        destruct Hcases as [H|H].
        -- now rewrite H.
        -- now rewrite (less_asym _ _ H), H.
Qed.

(** X29. For a strict total order on the keys and a search tree [t]:
    whenever [Node::insert(t, key, value)] returns a tree, that tree is a
    search tree again, its entries are those of [t] with [(key, value)] put
    at the place of [key], [lookup] finds [value] at [key], and [lookup] of
    every other key returns what it returned on [t]. *)
Theorem insert_then_lookup t key value t' :
  ordered less t -> insert less t key value = Ok t' ->
  ordered less t'
  /\ bindings t' = list_put less key value (bindings t)
  /\ lookup less t' key = Some value
  /\ forall key', key' <> key -> lookup less t' key' = lookup less t key'.
Proof.
  intros Ht Hi.
  pose proof (insert_bindings t key value t' Ht Hi) as B.
  assert (Ht' : ordered less t').
  { apply ordered_increasing. rewrite B. apply increasing_list_put.
    now apply ordered_increasing. }
  repeat split; auto.
  - rewrite (lookup_bindings t' key Ht'), B. apply list_lookup_put_same.
  - intros key' Hne.
    rewrite (lookup_bindings t' key' Ht'), (lookup_bindings t key' Ht), B.
    apply list_lookup_put_other; [now apply ordered_increasing|assumption].
Qed.

Lemma list_remove_app_cons key L k v R :
  Forall (fun x => less (fst x) k = true) L ->
  list_remove less key (L ++ (k, v) :: R)
  = if less key k then list_remove less key L ++ (k, v) :: R
    else if less k key then L ++ (k, v) :: list_remove less key R
    else L ++ R.
Proof.
  induction L as [|[x vx] L IH]; intros HL; cbn [app list_remove].
  - now destruct (less key k), (less k key).
  - inversion HL as [|? ? Hx HL']; subst. cbn [fst] in Hx.
    rewrite (IH HL').
    destruct (less key k) eqn:E1.
    + now destruct (less key x), (less x key).
    + assert (Hxk : less x key = true).
      { destruct (less k key) eqn:E2.
        - now apply (less_trans x k key).
        - now rewrite (less_total key k E1 E2). }
      rewrite (less_asym x key Hxk), Hxk. now destruct (less k key).
Qed.

Lemma pop_bindings t : forall key found t',
  ordered less t -> pop less t key = Ok (found, t') ->
  found = list_lookup less key (bindings t)
  /\ bindings t' = list_remove less key (bindings t).
Proof.
  induction t as [|k v s l IHl r IHr]; intros key found t'; cbn [ordered pop bindings].
  - intros _ H. inversion H. split; reflexivity.
  - intros (Hl & Hr & Fl & Fr).
    rewrite list_remove_app_cons, list_lookup_app_cons by assumption.
    destruct (less key k) eqn:E1.
    + destruct (pop less l key) as [[value rec]| |] eqn:El; cbn [bind]; try discriminate.
      destruct (balance k v rec r) as [b| |] eqn:Eb; cbn [bind]; try discriminate.
      intros H. inversion H; subst.
      destruct (IHl _ _ _ Hl El) as [F B].
      rewrite (balance_bindings _ _ _ _ _ Eb), B. auto.
    + destruct (less k key) eqn:E2.
      * destruct (pop less r key) as [[value rec]| |] eqn:Er; cbn [bind]; try discriminate.
        destruct (balance k v l rec) as [b| |] eqn:Eb; cbn [bind]; try discriminate.
        intros H. inversion H; subst.
        destruct (IHr _ _ _ Hr Er) as [F B].
        rewrite (balance_bindings _ _ _ _ _ Eb), B. auto.
      * destruct (glue l r) as [g| |] eqn:Eg; cbn [bind]; try discriminate.
        intros H. inversion H; subst.
        rewrite (glue_bindings _ _ _ Eg). auto.
Qed.

Lemma Forall_list_remove (P : Key * Value -> Prop) key es :
  Forall P es -> Forall P (list_remove less key es).
Proof.
  intros H. induction H as [|[x vx] es Hx Hes IH]; cbn [list_remove].
  - constructor.
  - destruct (less key x); [constructor; auto|].
    destruct (less x key); [constructor; auto|assumption].
Qed.

Lemma increasing_list_remove key es :
  increasing less es -> increasing less (list_remove less key es).
Proof.
  induction es as [|[x vx] es IH]; cbn [increasing list_remove].
  - auto.
  - intros [Hx Hes]. destruct (less key x); [split; assumption|].
    destruct (less x key); [|assumption].
    cbn [increasing]. split; [now apply Forall_list_remove|now apply IH].
Qed.

Lemma list_lookup_remove_same key es :
  increasing less es -> list_lookup less key (list_remove less key es) = None.
Proof.
  induction es as [|[x vx] es IH]; cbn [increasing list_remove list_lookup].
  - reflexivity.
  - intros [Hx Hes]. cbn [fst] in Hx.
    destruct (less key x) eqn:E1.
    + cbn [list_lookup]. now rewrite E1.
    + destruct (less x key) eqn:E2.
      * cbn [list_lookup]. rewrite E1, E2. now apply IH.
      * rewrite (less_total key x E1 E2).
        destruct es as [|[y vy] es']; [reflexivity|].
        inversion Hx; subst. cbn [fst list_lookup] in *.
        now match goal with H : less x y = true |- _ => rewrite H end.
Qed.

Lemma list_lookup_remove_other key key' es :
  increasing less es -> key' <> key ->
  list_lookup less key' (list_remove less key es) = list_lookup less key' es.
Proof.
  intros Hes Hne.
  assert (Hcases : less key' key = true \/ less key key' = true).
  { destruct (less key' key) eqn:E1; [now left|].
    destruct (less key key') eqn:E2; [now right|].
    exfalso. apply Hne. now apply less_total. }
  induction es as [|[x vx] es IH]; cbn [list_remove list_lookup].
  - reflexivity.
  - destruct Hes as [Hx Hes']. cbn [fst] in Hx.
    destruct (less key x) eqn:E1; [reflexivity|].
    destruct (less x key) eqn:E2; cbn [list_lookup].
    + destruct (less key' x); [reflexivity|].
      destruct (less x key'); [now apply IH|reflexivity].
    + rewrite <- (less_total key x E1 E2).
      destruct Hcases as [H|H].
      * rewrite H. destruct es as [|[y vy] es']; [reflexivity|].
        inversion Hx; subst. cbn [fst list_lookup] in *.
        rewrite <- (less_total key x E1 E2) in *.
        now rewrite (less_trans key' key y H) by assumption.
      * now rewrite (less_asym _ _ H), H.
Qed.

(** X30. For a strict total order on the keys and a search tree [t]:
    whenever [Node::pop(t, key)] returns, it returns the value [lookup]
    finds at [key] in [t], or nothing when [key] is not in [t], and a
    search tree with the entries of [t] without the one at [key], where
    [lookup] finds nothing at [key] and, at every other key, what it found
    in [t]. *)
Theorem pop_then_lookup t key found t' :
  ordered less t -> pop less t key = Ok (found, t') ->
  found = lookup less t key
  /\ ordered less t'
  /\ bindings t' = list_remove less key (bindings t)
  /\ lookup less t' key = None
  /\ forall key', key' <> key -> lookup less t' key' = lookup less t key'.
Proof.
  intros Ht Hp.
  destruct (pop_bindings t key found t' Ht Hp) as [F B].
  pose proof (proj1 (ordered_increasing t) Ht) as It.
  assert (Ht' : ordered less t').
  { apply ordered_increasing. rewrite B. now apply increasing_list_remove. }
  repeat split; auto.
  - now rewrite (lookup_bindings t key Ht).
  - rewrite (lookup_bindings t' key Ht'), B. now apply list_lookup_remove_same.
  - intros key' Hne.
    rewrite (lookup_bindings t' key' Ht'), (lookup_bindings t key' Ht), B.
    now apply list_lookup_remove_other.
Qed.

End Order.

(** *** The theorems at the map of the keys 1, 2, 3 *)

Lemma ltb_irrefl a : (a <? a) = false.
Proof. apply Z.ltb_irrefl. Qed.

Lemma ltb_trans a b c : (a <? b) = true -> (b <? c) = true -> (a <? c) = true.
Proof. rewrite !Z.ltb_lt. lia. Qed.

Lemma ltb_total a b : (a <? b) = false -> (b <? a) = false -> a = b.
Proof. rewrite !Z.ltb_ge. lia. Qed.

Lemma balance_keeps_entries_witness :
  exists t,
    balance 1 10 nullptr (node 2 20 2 nullptr (node 3 30 1 nullptr nullptr)) = Ok t
    /\ keys t = [1; 2; 3].
Proof.
  eexists. split; [reflexivity|].
  exact (proj1 (proj2 (balance_keeps_entries 1 10 nullptr
                         (node 2 20 2 nullptr (node 3 30 1 nullptr nullptr))
                         _ eq_refl))).
Defined.

Lemma insert_then_lookup_witness :
  exists t t',
    map_123 = Ok t /\ insert Z.ltb t 4 40 = Ok t'
    /\ lookup Z.ltb t' 4 = Some 40 /\ lookup Z.ltb t' 2 = lookup Z.ltb t 2.
Proof.
  eexists. eexists. split; [reflexivity|]. split; [reflexivity|].
  match goal with
  | |- lookup _ ?t' _ = _ /\ lookup _ _ _ = lookup _ ?t _ =>
    destruct (insert_then_lookup Z.ltb ltb_irrefl ltb_trans ltb_total t 4 40 t')
      as (_ & _ & L & O);
    [ cbn; repeat split; repeat constructor | reflexivity | ]
  end.
  split; [exact L|]. apply O. discriminate.
Defined.

Lemma pop_then_lookup_witness :
  exists t found t',
    map_123 = Ok t /\ pop Z.ltb t 3 = Ok (found, t')
    /\ found = Some 30 /\ lookup Z.ltb t' 3 = None.
Proof.
  eexists. eexists. eexists. split; [reflexivity|]. split; [reflexivity|].
  match goal with
  | |- ?found = _ /\ lookup _ ?t' _ = _ =>
    destruct (pop_then_lookup Z.ltb ltb_irrefl ltb_trans ltb_total
                (node 2 20 3 (node 1 10 0 nullptr nullptr) (node 3 30 1 nullptr nullptr))
                3 found t')
      as (F & _ & _ & L & _);
    [ cbn; repeat split; repeat constructor | reflexivity | ]
  end.
  split; [exact F|exact L].
Defined.

End SortedMapOrder.
